(** * PyMongo client core: connection pool, member resolver, client front-end

A shallow embedding of [pymongo/pool.py] and [pymongo/mongo_client.py].
Python objects that are mutated in place ([SocketInfo], [Pool],
[MongoClient]) are records threaded through a state-and-exception monad;
the sockets a pool hands out live in a store indexed by object reference,
so that the idle set, the per-thread request table and the caller all
alias one object.  Whatever the operating system or the server decides
(the current pid and thread, the clock, whether a connect succeeds,
whether a socket is readable, which element [set.pop] yields, what a
server answers) is read from an environment record. *)

From stdpp Require Import gmap strings list.
From Stdlib Require Import ZArith Lia Ascii DecimalString DecimalZ DecimalPos.

Local Open Scope string_scope.
Local Open Scope Z_scope.

(* ===================================================================== *)
(** ** Python values and exceptions *)
(* ===================================================================== *)

(** BSON values as the driver sees them after decoding: a document is a
    Python dict, kept here as an association list read by first match. *)
#[warnings="-register-all"]
Inductive Value :=
| VNull
| VBool (b : bool)
| VInt (n : Z)
| VStr (s : string)
| VArr (l : list Value)
| VDoc (d : list (string * Value)).

Abbreviation Doc := (list (string * Value)).

(** [d.get(k)]: the value, or nothing when the key is absent. *)
Fixpoint doc_get (k : string) (d : Doc) : option Value :=
  match d with
  | [] => None
  | (k', v) :: d' => if String.eqb k k' then Some v else doc_get k d'
  end.

(** [k in d] *)
Definition doc_has (k : string) (d : Doc) : bool :=
  match doc_get k d with Some _ => true | None => false end.

(** Python truthiness of a decoded value. *)
Definition truthy (v : Value) : bool :=
  match v with
  | VNull => false
  | VBool b => b
  | VInt n => negb (n =? 0)
  | VStr s => negb (String.eqb s "")
  | VArr l => match l with [] => false | _ => true end
  | VDoc d => match d with [] => false | _ => true end
  end.

Definition value_eqb_str (v : Value) (s : string) : bool :=
  match v with VStr s' => String.eqb s' s | _ => false end.

(** The exceptions of [pymongo.errors] and the builtin ones the modelled
    code can raise.  [OperationFailure] and [DuplicateKeyError] carry the
    server's message and code. *)
Inductive Exn :=
| socket_error (msg : string)
| ConnectionFailure (msg : string)
| AutoReconnect (msg : string)
| ConfigurationError (msg : string)
| OperationFailure (msg : string) (code : option Value)
| DuplicateKeyError (msg : string) (code : option Value)
| DocumentTooLarge (max_doc_size max_bson_size : Z)
| CertificateError
| AssertionError
| KeyError (key : string)
| IndexError
| AttributeError
| TypeError
| ValueError
| RuntimeError (msg : string).

(** Modelled from the spec: the exception taxonomy of [pymongo.errors]
    (section 7): [AutoReconnect] is a subtype of [ConnectionFailure],
    [DuplicateKeyError] an [OperationFailure]; [DocumentTooLarge] is
    neither. *)
Definition is_OperationFailure (e : Exn) : bool :=
  match e with OperationFailure _ _ | DuplicateKeyError _ _ => true | _ => false end.

Definition is_ConnectionFailure (e : Exn) : bool :=
  match e with ConnectionFailure _ | AutoReconnect _ => true | _ => false end.

Definition is_socket_error (e : Exn) : bool :=
  match e with socket_error _ => true | _ => false end.

Definition is_ConfigurationError (e : Exn) : bool :=
  match e with ConfigurationError _ => true | _ => false end.

(** [CertificateError] derives from [ValueError]. *)
Definition is_ValueError (e : Exn) : bool :=
  match e with ValueError | CertificateError => true | _ => false end.

(** [str(e)] *)
Definition exn_str (e : Exn) : string :=
  match e with
  | socket_error m | ConnectionFailure m | AutoReconnect m | ConfigurationError m
  | OperationFailure m _ | DuplicateKeyError m _ | RuntimeError m => m
  | DocumentTooLarge _ _ => "BSON document too large"
  | KeyError k => k
  | CertificateError | AssertionError | IndexError | AttributeError
  | TypeError | ValueError => ""
  end.

(** [for x in v]: a list yields its elements, a string its characters, a
    document its keys; nothing else is iterable. *)
Definition py_iter (v : Value) : Exn + list Value :=
  match v with
  | VArr l => inr l
  | VStr s => inr (map (λ ch, VStr (String ch EmptyString)) (String.list_ascii_of_string s))
  | VDoc d => inr (map (λ kv, VStr (fst kv)) d)
  | VNull | VBool _ | VInt _ => inl TypeError
  end.

(** ['%d' % n] and [repr] of an optional number. *)
Definition str_Z (z : Z) : string := NilZero.string_of_int (Z.to_int z).
Definition repr_option_Z (o : option Z) : string :=
  match o with Some z => str_Z z | None => "None" end.

(** What a call does: return, raise, or block for ever (a blocking wait
    that nothing in a single-caller execution can end). *)
Inductive Outcome (A : Type) :=
| Ok (a : A)
| Raise (e : Exn)
| Blocks.
Arguments Ok {A} a.
Arguments Raise {A} e.
Arguments Blocks {A}.

(** State-and-exception monad: mutations made before an exception stay. *)
Definition M (S A : Type) : Type := S → Outcome A * S.

Definition raise {S A} (e : Exn) : M S A := λ s, (Raise e, s).
Definition block {S A} : M S A := λ s, (Blocks, s).
Definition get {S} : M S S := λ s, (Ok s, s).
Definition modify {S} (f : S → S) : M S unit := λ s, (Ok tt, f s).

Definition ret {S A} (a : A) : M S A := λ s, (Ok a, s).
Definition bind {S A B} (m : M S A) (k : A → M S B) : M S B :=
  λ s, match m s with
       | (Ok a, s') => k a s'
       | (Raise e, s') => (Raise e, s')
       | (Blocks, s') => (Blocks, s')
       end.

Declare Scope py_scope.
Delimit Scope py_scope with py.
Notation "x <- m ;; k" := (bind m (λ x, k))
  (at level 100, m at next level, k at level 200, right associativity) : py_scope.
Notation "m ;; k" := (bind m (λ _, k))
  (at level 100, k at level 200, right associativity) : py_scope.
Local Open Scope py_scope.

(** [try: m except <handles> as e: h e] *)
Definition try_except {S A} (m : M S A) (handles : Exn → bool) (h : Exn → M S A) : M S A :=
  λ s, match m s with
       | (Raise e, s') => if handles e then h e s' else (Raise e, s')
       | r => r
       end.

(** [try: m finally: f] where the finally block itself does not raise;
    a body that blocks never reaches it. *)
Definition try_finally {S A} (m : M S A) (f : S → S) : M S A :=
  λ s, match m s with
       | (Blocks, s') => (Blocks, s')
       | (r, s') => (r, f s')
       end.

Definition when {S} (b : bool) (m : M S unit) : M S unit :=
  if b then m else ret tt.

(** Addresses are [(host, port)] pairs; threads and sockets are numbered. *)
Abbreviation Address := (string * Z)%type.
Abbreviation Tid := positive.
Abbreviation Ref := positive.

(** A credential is an opaque tuple compared structurally. *)
Record Credential := {
  cred_mechanism : string;
  cred_source : string;
  cred_username : string;
  cred_password : string }.

Global Instance Credential_eq_dec : EqDecision Credential.
Proof. solve_decision. Defined.

(* ===================================================================== *)
(** ** pool.py *)
(* ===================================================================== *)

(** The request state of a thread: [NO_REQUEST = None],
    [NO_SOCKET_YET = -1], or its request socket. *)
Inductive ReqState :=
| NO_REQUEST
| NO_SOCKET_YET
| ReqSock (r : Ref).

Global Instance ReqState_eq_dec : EqDecision ReqState.
Proof. solve_decision. Defined.

Record PoolOptions := {
  max_pool_size : option Z;
  connect_timeout : option Z;
  socket_timeout : option Z;
  wait_queue_timeout : option Z;
  wait_queue_multiple : option Z;
  socket_keepalive : bool }.

(** [PoolOptions()] with its keyword defaults. *)
Definition PoolOptions_default : PoolOptions :=
  {| max_pool_size := Some 100; connect_timeout := None; socket_timeout := None;
     wait_queue_timeout := None; wait_queue_multiple := None;
     socket_keepalive := false |}.

(** Modelled from the spec: the permit semaphore of [thread_util]
    ([create_semaphore]), which is not among the sources.  It counts the
    available permits; with no [max_pool_size] there is no bound, every
    acquisition succeeds and a release changes nothing.  Waiters of other
    threads ([wait_queue_multiple]) are outside a single-caller execution. *)
Module Semaphore.
Record t := { counter : option Z }.

Definition create_semaphore (max_size : option Z) (max_waiters : option Z) : t :=
  {| counter := max_size |}.

(** [acquire(False)]: take a permit if one is free. *)
Definition acquire_nonblocking (s : t) : bool * t :=
  match counter s with
  | None => (true, s)
  | Some n => if 0 <? n then (true, {| counter := Some (n - 1) |}) else (false, s)
  end.

Definition release (s : t) : t :=
  match counter s with
  | None => s
  | Some n => {| counter := Some (n + 1) |}
  end.
End Semaphore.

(** [SocketInfo]: one connected socket with its metadata.  The raw socket
    is known by its number; the weak reference to the owning pool is the
    pool whose store holds the object. *)
Module SocketInfo.
Record t := {
  sock : positive;
  host : string;
  authset : list Credential;
  closed : bool;
  last_checkout : Z;
  forced : bool;
  pool_id : Z;
  _exhaust : bool }.

Definition set_closed (b : bool) (s : t) : t :=
  {| sock := sock s; host := host s; authset := authset s; closed := b;
     last_checkout := last_checkout s; forced := forced s;
     pool_id := pool_id s; _exhaust := _exhaust s |}.
Definition set_forced (b : bool) (s : t) : t :=
  {| sock := sock s; host := host s; authset := authset s; closed := closed s;
     last_checkout := last_checkout s; forced := b;
     pool_id := pool_id s; _exhaust := _exhaust s |}.
Definition set_last_checkout (z : Z) (s : t) : t :=
  {| sock := sock s; host := host s; authset := authset s; closed := closed s;
     last_checkout := z; forced := forced s;
     pool_id := pool_id s; _exhaust := _exhaust s |}.
Definition set_authset (a : list Credential) (s : t) : t :=
  {| sock := sock s; host := host s; authset := a; closed := closed s;
     last_checkout := last_checkout s; forced := forced s;
     pool_id := pool_id s; _exhaust := _exhaust s |}.

(** [SocketInfo.__init__(sock, pool, host)] *)
Definition __init__ (sock0 : positive) (pool_pool_id : Z) (host0 : string) (now : Z) : t :=
  {| sock := sock0; host := host0; authset := []; closed := false;
     last_checkout := now; forced := false; pool_id := pool_pool_id;
     _exhaust := false |}.

(** [close]: set the flag; closing the raw socket never raises here. *)
Definition close (s : t) : t := set_closed true s.

(** [exhaust(flag)] *)
Definition exhaust (b : bool) (s : t) : t :=
  {| sock := sock s; host := host s; authset := authset s; closed := closed s;
     last_checkout := last_checkout s; forced := forced s;
     pool_id := pool_id s; _exhaust := b |}.

(** Python objects that may be compared with a [SocketInfo]: [None], an
    int, a raw socket, a [SocketInfo], or a plain instance with an attribute
    dictionary and identity equality. *)
#[warnings="-register-all"]
Inductive PyObj :=
  | PyNone
  | PyInt (n : Z)
  | PyRawSocket (fd : positive)
  | PySocketInfo (s : t)
  | PyInstance (attrs : list (string * PyObj)).

Fixpoint attrs_get (k : string) (attrs : list (string * PyObj)) : option PyObj :=
  match attrs with
  | [] => None
  | (k', v) :: rest => if String.eqb k k' then Some v else attrs_get k rest
  end.

(** [getattr(other, 'sock')] when [hasattr(other, 'sock')] *)
Definition getattr_sock (other : PyObj) : option PyObj :=
  match other with
  | PySocketInfo s => Some (PyRawSocket (sock s))
  | PyInstance attrs => attrs_get "sock" attrs
  | PyNone | PyInt _ | PyRawSocket _ => None
  end.

Definition hasattr_sock (other : PyObj) : bool :=
  match getattr_sock other with Some _ => true | None => false end.

(** Raw sockets compare by identity. *)
Definition raw_socket_eq (fd : positive) (other : PyObj) : bool :=
  match other with
  | PyRawSocket fd' => bool_decide (fd = fd')
  | _ => false
  end.

(** [return hasattr(other, 'sock') and self.sock == other.sock] *)
Definition __eq__ (self : t) (other : PyObj) : bool :=
  hasattr_sock other &&
  match getattr_sock other with
  | Some o => raw_socket_eq (sock self) o
  | None => false
  end.

Definition __ne__ (self : t) (other : PyObj) : bool := negb (__eq__ self other).

(** The hash of a raw socket object: its identity. *)
Definition hash_raw_socket (fd : positive) : Z := Z.pos fd.

Definition __hash__ (self : t) : Z := hash_raw_socket (sock self).
End SocketInfo.

(** What the pool cannot decide by itself. *)
Record Env := {
  os_getpid : Z;                     (* os.getpid() *)
  ident_get : Tid;                   (* the calling thread *)
  time_time : Z;                     (* the clock, in ticks *)
  connect_fails : Address → option Exn; (* what create_connection / TLS raise *)
  select_readable : positive → bool; (* _closed(sock) *)
  set_pop : gset Ref → Ref           (* which element set.pop() yields *)
}.

(** [Pool]: the attributes of the object, then the store of the
    [SocketInfo]s it created ([objs], [next_ref]).  Times are whole clock
    ticks of one second.

    Modelled from the spec: [_ident] stands for [thread_util.ThreadIdent],
    which is not among the sources: the set of threads for which a death
    callback is registered ([watch], [unwatch], [watching]); and
    [_request_counter] for [thread_util.Counter]. *)
Module Pool.
Record t := {
  _check_interval_seconds : option Z;
  sockets : gset Ref;
  pool_id : Z;
  pid : Z;
  pair : Address;
  opts : PoolOptions;
  _tid_to_sock : gmap Tid ReqState;
  _ident : gset Tid;
  _request_counter : gmap Tid Z;
  _socket_semaphore : Semaphore.t;
  objs : gmap Ref SocketInfo.t;
  next_ref : Ref }.

Definition set_sockets (x : gset Ref) (p : t) : t :=
  {| _check_interval_seconds := _check_interval_seconds p; sockets := x;
     pool_id := pool_id p; pid := pid p; pair := pair p; opts := opts p;
     _tid_to_sock := _tid_to_sock p; _ident := _ident p;
     _request_counter := _request_counter p;
     _socket_semaphore := _socket_semaphore p; objs := objs p;
     next_ref := next_ref p |}.
Definition set_pool_id (x : Z) (p : t) : t :=
  {| _check_interval_seconds := _check_interval_seconds p; sockets := sockets p;
     pool_id := x; pid := pid p; pair := pair p; opts := opts p;
     _tid_to_sock := _tid_to_sock p; _ident := _ident p;
     _request_counter := _request_counter p;
     _socket_semaphore := _socket_semaphore p; objs := objs p;
     next_ref := next_ref p |}.
Definition set_pid (x : Z) (p : t) : t :=
  {| _check_interval_seconds := _check_interval_seconds p; sockets := sockets p;
     pool_id := pool_id p; pid := x; pair := pair p; opts := opts p;
     _tid_to_sock := _tid_to_sock p; _ident := _ident p;
     _request_counter := _request_counter p;
     _socket_semaphore := _socket_semaphore p; objs := objs p;
     next_ref := next_ref p |}.
Definition set_tid_to_sock (x : gmap Tid ReqState) (p : t) : t :=
  {| _check_interval_seconds := _check_interval_seconds p; sockets := sockets p;
     pool_id := pool_id p; pid := pid p; pair := pair p; opts := opts p;
     _tid_to_sock := x; _ident := _ident p;
     _request_counter := _request_counter p;
     _socket_semaphore := _socket_semaphore p; objs := objs p;
     next_ref := next_ref p |}.
Definition set_ident (x : gset Tid) (p : t) : t :=
  {| _check_interval_seconds := _check_interval_seconds p; sockets := sockets p;
     pool_id := pool_id p; pid := pid p; pair := pair p; opts := opts p;
     _tid_to_sock := _tid_to_sock p; _ident := x;
     _request_counter := _request_counter p;
     _socket_semaphore := _socket_semaphore p; objs := objs p;
     next_ref := next_ref p |}.
Definition set_request_counter (x : gmap Tid Z) (p : t) : t :=
  {| _check_interval_seconds := _check_interval_seconds p; sockets := sockets p;
     pool_id := pool_id p; pid := pid p; pair := pair p; opts := opts p;
     _tid_to_sock := _tid_to_sock p; _ident := _ident p;
     _request_counter := x;
     _socket_semaphore := _socket_semaphore p; objs := objs p;
     next_ref := next_ref p |}.
Definition set_socket_semaphore (x : Semaphore.t) (p : t) : t :=
  {| _check_interval_seconds := _check_interval_seconds p; sockets := sockets p;
     pool_id := pool_id p; pid := pid p; pair := pair p; opts := opts p;
     _tid_to_sock := _tid_to_sock p; _ident := _ident p;
     _request_counter := _request_counter p;
     _socket_semaphore := x; objs := objs p;
     next_ref := next_ref p |}.
Definition set_objs (x : gmap Ref SocketInfo.t) (p : t) : t :=
  {| _check_interval_seconds := _check_interval_seconds p; sockets := sockets p;
     pool_id := pool_id p; pid := pid p; pair := pair p; opts := opts p;
     _tid_to_sock := _tid_to_sock p; _ident := _ident p;
     _request_counter := _request_counter p;
     _socket_semaphore := _socket_semaphore p; objs := x;
     next_ref := next_ref p |}.
Definition set_next_ref (x : Ref) (p : t) : t :=
  {| _check_interval_seconds := _check_interval_seconds p; sockets := sockets p;
     pool_id := pool_id p; pid := pid p; pair := pair p; opts := opts p;
     _tid_to_sock := _tid_to_sock p; _ident := _ident p;
     _request_counter := _request_counter p;
     _socket_semaphore := _socket_semaphore p; objs := objs p;
     next_ref := x |}.
Definition set_check_interval_seconds (x : option Z) (p : t) : t :=
  {| _check_interval_seconds := x; sockets := sockets p;
     pool_id := pool_id p; pid := pid p; pair := pair p; opts := opts p;
     _tid_to_sock := _tid_to_sock p; _ident := _ident p;
     _request_counter := _request_counter p;
     _socket_semaphore := _socket_semaphore p; objs := objs p;
     next_ref := next_ref p |}.

(** The object a reference points to.  Every reference the pool hands
    out is allocated; the placeholder is what an unallocated one reads. *)
Definition unallocated : SocketInfo.t := SocketInfo.__init__ 1%positive 0 "" 0.
Definition deref (p : t) (r : Ref) : SocketInfo.t := default unallocated (objs p !! r).

(** In-place update of the object behind [r]. *)
Definition update (r : Ref) (f : SocketInfo.t → SocketInfo.t) (p : t) : t :=
  set_objs (<[r := f (deref p r)]> (objs p)) p.

(** A request state as the Python object it is. *)
Definition as_object (p : t) (st : ReqState) : SocketInfo.PyObj :=
  match st with
  | NO_REQUEST => SocketInfo.PyNone
  | NO_SOCKET_YET => SocketInfo.PyInt (-1)
  | ReqSock r => SocketInfo.PySocketInfo (deref p r)
  end.

(** [sock_info == other] for a [SocketInfo] on the left. *)
Definition sock_eq (p : t) (r : Ref) (other : ReqState) : bool :=
  SocketInfo.__eq__ (deref p r) (as_object p other).
Definition sock_ne (p : t) (r : Ref) (other : ReqState) : bool :=
  SocketInfo.__ne__ (deref p r) (as_object p other).

(** [st in (NO_REQUEST, NO_SOCKET_YET)], with [==] on a request state:
    the sentinels compare by value, a [SocketInfo] by [__eq__]. *)
Definition is_sentinel (p : t) (st : ReqState) : bool :=
  match st with
  | NO_REQUEST | NO_SOCKET_YET => true
  | ReqSock r => sock_eq p r NO_REQUEST || sock_eq p r NO_SOCKET_YET
  end.

(** [self.sockets.add(sock_info)]: a Python set keeps one element per
    [__hash__]/[__eq__] class. *)
Definition sockets_add (r : Ref) (p : t) : t :=
  if bool_decide (set_Exists (λ r', SocketInfo.sock (deref p r') = SocketInfo.sock (deref p r))
                             (sockets p))
  then p
  else set_sockets ({[r]} ∪ sockets p) p.

(** [Pool.__init__(pair, options)] *)
Definition __init__ (E : Env) (pair0 : Address) (options : PoolOptions) : t :=
  {| _check_interval_seconds := Some 1;
     sockets := ∅;
     pool_id := 0;
     pid := os_getpid E;
     pair := pair0;
     opts := options;
     _tid_to_sock := ∅;
     _ident := ∅;
     _request_counter := ∅;
     _socket_semaphore :=
       Semaphore.create_semaphore (max_pool_size options)
         (match wait_queue_multiple options, max_pool_size options with
          | Some m, Some n => Some (n * m)
          | _, _ => None
          end);
     objs := ∅;
     next_ref := 1%positive |}.

(** Modelled from the spec: the per-caller counter of [thread_util.Counter]
    (increment, decrement, read; a thread that never counted reads 0). *)
Definition Counter_get (tid : Tid) (p : t) : Z := default 0 (_request_counter p !! tid).
Definition Counter_inc (tid : Tid) (p : t) : t :=
  set_request_counter (<[tid := Counter_get tid p + 1]> (_request_counter p)) p.
Definition Counter_dec (tid : Tid) (p : t) : t :=
  set_request_counter (<[tid := Counter_get tid p - 1]> (_request_counter p)) p.

Section WithEnv.
Variable E : Env.

Definition semaphore_release : M t unit :=
  modify (λ p, set_socket_semaphore (Semaphore.release (_socket_semaphore p)) p).

(** [reset] *)
Definition reset : M t unit :=
  modify (λ p,
    let p1 := set_pid (os_getpid E) (set_pool_id (pool_id p + 1) p) in
    let old := sockets p1 in
    let p2 := set_sockets ∅ p1 in
    foldr (λ r q, update r SocketInfo.close q) p2 (elements old)).

(** [connect]: a fresh raw socket wrapped in a fresh [SocketInfo]. *)
Definition connect : M t Ref :=
  λ p, match connect_fails E (pair p) with
       | Some e => (Raise e, p)
       | None =>
           let r := next_ref p in
           let si := SocketInfo.__init__ r (pool_id p) (fst (pair p)) (time_time E) in
           (Ok r, set_next_ref (Pos.succ r) (set_objs (<[r := si]> (objs p)) p))
       end.

(** [_get_request_state] *)
Definition _get_request_state : M t ReqState :=
  λ p, (Ok (default NO_REQUEST (_tid_to_sock p !! ident_get E)), p).

(** [_set_request_state].  The thread-death callback is registered by
    putting the thread among the watched ones. *)
Definition _set_request_state (st : ReqState) : M t unit :=
  modify (λ p,
    let tid := ident_get E in
    if (match st with
        | NO_REQUEST => true
        | NO_SOCKET_YET => false
        | ReqSock r => sock_eq p r NO_REQUEST
        end)
    then set_tid_to_sock (delete tid (_tid_to_sock p)) (set_ident (_ident p ∖ {[tid]}) p)
    else
      let p1 := set_tid_to_sock (<[tid := st]> (_tid_to_sock p)) p in
      if bool_decide (tid ∈ _ident p1) then p1
      else set_ident ({[tid]} ∪ _ident p1) p1).

(** [_check] *)
Definition _check (r : Ref) : M t Ref :=
  p <- get ;;
  let sock_info := deref p r in
  let age := time_time E - SocketInfo.last_checkout sock_info in
  error <-
    (if SocketInfo.closed sock_info then ret true
     else if negb (pool_id p =? SocketInfo.pool_id sock_info) then
       modify (update r SocketInfo.close) ;; ret true
     else if (match _check_interval_seconds p with
              | Some i => (0 =? i) || (i <? age)
              | None => false
              end) then
       if select_readable E (SocketInfo.sock sock_info) then
         modify (update r SocketInfo.close) ;; ret true
       else ret false
     else ret false) ;;
  if negb error then ret r
  else try_except connect is_socket_error (λ e, reset ;; raise e).

(** [_raise_wait_queue_timeout] *)
Definition _raise_wait_queue_timeout {A} : M t A :=
  λ p, raise (ConnectionFailure
    ("Timed out waiting for socket from pool with max_size "
     ++ repr_option_Z (max_pool_size (opts p)) ++ " and wait_queue_timeout "
     ++ repr_option_Z (wait_queue_timeout (opts p)))) p.

(** [self._socket_semaphore.acquire(False)] *)
Definition semaphore_try_acquire : M t bool :=
  λ p, let '(b, s) := Semaphore.acquire_nonblocking (_socket_semaphore p) in
       (Ok b, set_socket_semaphore s p).

(** [self._socket_semaphore.acquire(True, timeout)]: with no free permit
    the caller waits; the wait ends only by the timeout. *)
Definition semaphore_acquire_blocking (timeout : option Z) : M t bool :=
  λ p, let '(b, s) := Semaphore.acquire_nonblocking (_socket_semaphore p) in
       if b then (Ok true, set_socket_semaphore s p)
       else match timeout with
            | Some _ => (Ok false, p)
            | None => (Blocks, p)
            end.

(** [self.sockets.pop()]: [None] stands for the [KeyError] of an empty set. *)
Definition sockets_pop : M t (option Ref) :=
  λ p, match elements (sockets p) with
       | [] => (Ok None, p)
       | r0 :: _ =>
           let r := if bool_decide (set_pop E (sockets p) ∈ sockets p)
                    then set_pop E (sockets p) else r0 in
           (Ok (Some r), set_sockets (sockets p ∖ {[r]}) p)
       end.

(** [get_socket] when the thread has no request socket: take a permit,
    then an idle socket or a fresh one. *)
Definition get_socket_from_pool (force : bool) (req_state : ReqState) : M t Ref :=
  p1 <- get ;;
  forced <-
    (if force then
       ok <- semaphore_try_acquire ;; ret (negb ok)
     else
       ok <- semaphore_acquire_blocking (wait_queue_timeout (opts p1)) ;;
       if ok then ret false else _raise_wait_queue_timeout) ;;
  sock_info <-
    try_except
      (popped <- sockets_pop ;;
       sock_info <-
         match popped with
         | Some r => _check r
         | None => connect
         end ;;
       modify (update sock_info (SocketInfo.set_forced forced)) ;;
       when (bool_decide (req_state = NO_SOCKET_YET))
            (_set_request_state (ReqSock sock_info)) ;;
       ret sock_info)
      (λ _, true)
      (λ e, when (negb forced) semaphore_release ;; raise e) ;;
  modify (update sock_info (SocketInfo.set_last_checkout (time_time E))) ;;
  ret sock_info.

(** [get_socket] *)
Definition get_socket (force : bool) : M t Ref :=
  p0 <- get ;;
  when (negb (pid p0 =? os_getpid E)) reset ;;
  req_state <- _get_request_state ;;
  p1 <- get ;;
  match req_state with
  | ReqSock r =>
      if negb (is_sentinel p1 req_state) then
        checked_sock <- _check r ;;
        p2 <- get ;;
        when (sock_ne p2 checked_sock req_state)
             (_set_request_state (ReqSock checked_sock)) ;;
        modify (update checked_sock (SocketInfo.set_last_checkout (time_time E))) ;;
        ret checked_sock
      else get_socket_from_pool force req_state
  | _ => get_socket_from_pool force req_state
  end.

(** [start_request] *)
Definition start_request : M t unit :=
  st <- _get_request_state ;;
  when (bool_decide (st = NO_REQUEST)) (_set_request_state NO_SOCKET_YET) ;;
  modify (Counter_inc (ident_get E)).

(** [in_request] *)
Definition in_request : M t bool :=
  p <- get ;; ret (negb (Counter_get (ident_get E) p =? 0)).

(** [_return_socket] *)
Definition _return_socket (r : Ref) : M t unit :=
  p <- get ;;
  let too_many_sockets :=
    match max_pool_size (opts p) with
    | Some max_size => max_size <=? Z.of_nat (size (sockets p))
    | None => false
    end in
  (if negb too_many_sockets && (SocketInfo.pool_id (deref p r) =? pool_id p)
   then modify (sockets_add r)
   else modify (update r SocketInfo.close)) ;;
  p' <- get ;;
  if SocketInfo.forced (deref p' r)
  then modify (update r (SocketInfo.set_forced false))
  else semaphore_release.

(** [end_request] *)
Definition end_request : M t unit :=
  p <- get ;;
  let count := Counter_get (ident_get E) p in
  when (negb (count =? 0))
    (modify (Counter_dec (ident_get E)) ;;
     when (count =? 1)
       (sock_info <- _get_request_state ;;
        _set_request_state NO_REQUEST ;;
        p' <- get ;;
        match sock_info with
        | ReqSock r => when (negb (is_sentinel p' sock_info)) (_return_socket r)
        | _ => ret tt
        end)).

(** [maybe_return_socket] *)
Definition maybe_return_socket (sock_info : ReqState) : M t unit :=
  p <- get ;;
  match sock_info with
  | ReqSock r =>
      if is_sentinel p sock_info then ret tt
      else if negb (pid p =? os_getpid E) then
        when (negb (SocketInfo.forced (deref p r))) semaphore_release ;;
        reset
      else if SocketInfo.closed (deref p r) then
        if SocketInfo.forced (deref p r) then
          modify (update r (SocketInfo.set_forced false))
        else
          st <- _get_request_state ;;
          when (sock_ne p r st) semaphore_release
      else
        st <- _get_request_state ;;
        when (sock_ne p r st) (_return_socket r)
  | _ => ret tt
  end.

(** [SocketInfo.__exit__]: the scoped release. *)
Definition SocketInfo___exit__ (r : Ref) : M t unit :=
  p <- get ;;
  when (negb (SocketInfo._exhaust (deref p r)) || SocketInfo.closed (deref p r))
       (maybe_return_socket (ReqSock r)).

(** The closure [on_thread_died] registered by [_set_request_state] for
    thread [tid]; any exception inside is swallowed. *)
Definition on_thread_died (tid : Tid) : M t unit :=
  try_except
    (p <- get ;;
     modify (set_ident (_ident p ∖ {[tid]})) ;;
     let request_sock := default NO_REQUEST (_tid_to_sock p !! tid) in
     modify (λ q, set_tid_to_sock (delete tid (_tid_to_sock q)) q) ;;
     p' <- get ;;
     match request_sock with
     | ReqSock r => when (negb (is_sentinel p' request_sock)) (_return_socket r)
     | _ => ret tt
     end)
    (λ _, true)
    (λ _, ret tt).
End WithEnv.
End Pool.


(* ===================================================================== *)
(** ** mongo_client.py *)
(* ===================================================================== *)

(** Wire data is opaque to the client: byte strings. *)
Abbreviation Bytes := string.

(** The result of [helpers._unpack_response]. *)
Record Unpacked := {
  number_returned : Z;
  data : list Doc }.

(** What the server side and the helper modules decide: how a send or a
    receive on a socket to an address ends, what the codec makes of the
    bytes, what the authentication helper reports, how deep Python lets
    [__try_node] recurse, and what [random.choice] picks. *)
Record Net := {
  os : Env;
  sys_getrecursionlimit : nat;
  message_query : string → Doc → Z * Bytes * Z;  (* message.query(0, ns, 0, -1, spec) *)
  sendall_fails : Address → Bytes → option Exn;  (* sock.sendall(message) *)
  recv : Address → Bytes → Exn + Bytes;          (* the reply to what was sent *)
  round_trip : Address → Z;                      (* end - start, in milliseconds *)
  _unpack_response : Bytes → Exn + Unpacked;     (* helpers._unpack_response *)
  _check_command_response : Doc → option (Exn * bool);
                                                 (* helpers._check_command_response:
                                                    the error, and whether it resets *)
  authenticate : Credential → Address → option Exn; (* auth.authenticate *)
  random_choice : nat → nat                      (* index picked among n *)
}.

(** [_partition_node] and the string operations it uses. *)
Fixpoint rfind_from (c : ascii) (s : string) (i : nat) : option nat :=
  match s with
  | EmptyString => None
  | String c' s' =>
      match rfind_from c s' (S i) with
      | Some j => Some j
      | None => if Ascii.eqb c c' then Some i else None
      end
  end.

(** [s.rfind(c)], with [None] for -1. *)
Definition rfind (c : ascii) (s : string) : option nat := rfind_from c s 0.

(** [int(s)] for a decimal numeral with an optional sign; anything else is
    a [ValueError].  The white space that [int] strips from both ends is
    not modelled: the ports read here are the digits a server reports. *)
Definition py_int (s : string) : option Z :=
  match s with
  | String "+" (String "+" _) | String "+" (String "-" _) => None
  | String "+" rest => option_map Z.of_int (NilZero.int_of_string rest)
  | _ => option_map Z.of_int (NilZero.int_of_string s)
  end.

(** [host[1:-1]] *)
Definition strip_ends (s : string) : string :=
  String.substring 1 (String.length s - 2) s.

Definition _partition_node (node : string) : Exn + Address :=
  let idx := rfind ":"%char node in
  match (match idx with
         | Some i =>
             match py_int (String.substring (S i) (String.length node - S i) node) with
             | Some port => inr (String.substring 0 i node, port)
             | None => inl ValueError
             end
         | None => inr (node, 27017)
         end) with
  | inl e => inl e
  | inr (host, port) =>
      inr (if String.prefix "[" host then strip_ends host else host, port)
  end.

(** [_partition_node(v)] for a decoded value: only a string has [rfind]. *)
Definition _partition_node_value (v : Value) : Exn + Address :=
  match v with
  | VStr s => _partition_node s
  | _ => inl AttributeError
  end.

(** [[_partition_node(h) for h in hosts]] *)
Fixpoint partition_nodes (hosts : list Value) : Exn + list Address :=
  match hosts with
  | [] => inr []
  | h :: rest =>
      match _partition_node_value h with
      | inl e => inl e
      | inr a =>
          match partition_nodes rest with
          | inl e => inl e
          | inr l => inr (a :: l)
          end
      end
  end.

Global Instance Address_eq_dec : EqDecision Address.
Proof. solve_decision. Defined.

(** [frozenset(l)]: the elements without repetition, in some order. *)
Definition frozenset (l : list Address) : list Address := remove_dups l.

(** Modelled from the spec: [pymongo.member.Member] (section 4.C), which is
    not among the sources.  A member is built from the address, the pool made
    during discovery, the handshake response and the round-trip time; its
    kind flags and limits are read off the response: [ismaster] makes it a
    primary, [arbiterOnly] an arbiter, [msg == "isdbgrid"] a router. *)
Module Member.
Record t := {
  host : Address;
  pool : positive;
  ismaster_response : Doc;
  ping_time : Z }.

Definition __init__ (host0 : Address) (connection_pool : positive)
    (response : Doc) (res_time : Z) : t :=
  {| host := host0; pool := connection_pool; ismaster_response := response;
     ping_time := res_time |}.

Definition flag (k : string) (m : t) : bool :=
  match doc_get k (ismaster_response m) with
  | Some v => truthy v
  | None => false
  end.

Definition is_primary (m : t) : bool := flag "ismaster" m.
Definition is_arbiter (m : t) : bool := flag "arbiterOnly" m.
Definition is_mongos (m : t) : bool :=
  match doc_get "msg" (ismaster_response m) with
  | Some v => value_eqb_str v "isdbgrid"
  | None => false
  end.
Definition set_name (m : t) : option Value := doc_get "setName" (ismaster_response m).

(** Size default before a handshake: 16 MiB. *)
Definition MAX_BSON_SIZE : Z := 16 * 1024 * 1024.
Definition max_bson_size (m : t) : Z :=
  match doc_get "maxBsonObjectSize" (ismaster_response m) with
  | Some (VInt n) => n
  | _ => MAX_BSON_SIZE
  end.
End Member.

(** Modelled from the spec: the future of [thread_util.Future] (section 9):
    pending until [set_result] or [set_exception]; [result()] waits. *)
Inductive Future :=
| Pending
| Resolved (m : Member.t)
| Failed (e : Exn).

(** A message handed to the client: [(request_id, data)] or
    [(request_id, data, max_doc_size)]. *)
Inductive Message :=
| Msg2 (request_id : Z) (data : Bytes)
| Msg3 (request_id : Z) (data : Bytes) (max_doc_size : Z).

(** What went over the wire, oldest first. *)
Inductive WireEvent :=
| Sent (address : Address) (data : Bytes)
| Authenticated (address : Address) (credentials : Credential).

Module MongoClient.
(** The attributes of the client object, then the store it lives in: the
  pools ever created (a [Member] refers to its pool) and the wire log. *)
Record t := {
  __seeds : list Address;
  __nodes : list Address;
  __member : option Member.t;
  __repl : option string;
  __direct : bool;
  __pool_opts : PoolOptions;
  __connecting : bool;
  __future_member : option Future;
  __auth_credentials : list (string * Credential);
  __auto_start_request : bool;
  latency_threshold_ms : Z;
  pools : gmap positive Pool.t;
  next_pool : positive;
  wire : list WireEvent }.

Definition set_nodes (x : list Address) (c : t) : t :=
  {| __seeds := __seeds c; __nodes := x; __member := __member c; __repl := __repl c;
     __direct := __direct c; __pool_opts := __pool_opts c;
     __connecting := __connecting c; __future_member := __future_member c;
     __auth_credentials := __auth_credentials c;
     __auto_start_request := __auto_start_request c;
     latency_threshold_ms := latency_threshold_ms c;
     pools := pools c; next_pool := next_pool c; wire := wire c |}.
Definition set_member (x : option Member.t) (c : t) : t :=
  {| __seeds := __seeds c; __nodes := __nodes c; __member := x; __repl := __repl c;
     __direct := __direct c; __pool_opts := __pool_opts c;
     __connecting := __connecting c; __future_member := __future_member c;
     __auth_credentials := __auth_credentials c;
     __auto_start_request := __auto_start_request c;
     latency_threshold_ms := latency_threshold_ms c;
     pools := pools c; next_pool := next_pool c; wire := wire c |}.
Definition set_connecting (x : bool) (c : t) : t :=
  {| __seeds := __seeds c; __nodes := __nodes c; __member := __member c; __repl := __repl c;
     __direct := __direct c; __pool_opts := __pool_opts c;
     __connecting := x; __future_member := __future_member c;
     __auth_credentials := __auth_credentials c;
     __auto_start_request := __auto_start_request c;
     latency_threshold_ms := latency_threshold_ms c;
     pools := pools c; next_pool := next_pool c; wire := wire c |}.
Definition set_future_member (x : option Future) (c : t) : t :=
  {| __seeds := __seeds c; __nodes := __nodes c; __member := __member c; __repl := __repl c;
     __direct := __direct c; __pool_opts := __pool_opts c;
     __connecting := __connecting c; __future_member := x;
     __auth_credentials := __auth_credentials c;
     __auto_start_request := __auto_start_request c;
     latency_threshold_ms := latency_threshold_ms c;
     pools := pools c; next_pool := next_pool c; wire := wire c |}.
Definition set_pools (x : gmap positive Pool.t) (c : t) : t :=
  {| __seeds := __seeds c; __nodes := __nodes c; __member := __member c; __repl := __repl c;
     __direct := __direct c; __pool_opts := __pool_opts c;
     __connecting := __connecting c; __future_member := __future_member c;
     __auth_credentials := __auth_credentials c;
     __auto_start_request := __auto_start_request c;
     latency_threshold_ms := latency_threshold_ms c;
     pools := x; next_pool := next_pool c; wire := wire c |}.
Definition set_next_pool (x : positive) (c : t) : t :=
  {| __seeds := __seeds c; __nodes := __nodes c; __member := __member c; __repl := __repl c;
     __direct := __direct c; __pool_opts := __pool_opts c;
     __connecting := __connecting c; __future_member := __future_member c;
     __auth_credentials := __auth_credentials c;
     __auto_start_request := __auto_start_request c;
     latency_threshold_ms := latency_threshold_ms c;
     pools := pools c; next_pool := x; wire := wire c |}.
Definition set_wire (x : list WireEvent) (c : t) : t :=
  {| __seeds := __seeds c; __nodes := __nodes c; __member := __member c; __repl := __repl c;
     __direct := __direct c; __pool_opts := __pool_opts c;
     __connecting := __connecting c; __future_member := __future_member c;
     __auth_credentials := __auth_credentials c;
     __auto_start_request := __auto_start_request c;
     latency_threshold_ms := latency_threshold_ms c;
     pools := pools c; next_pool := next_pool c; wire := x |}.

(** [MongoClient.__init__] after URI parsing, with [_connect=False]: the
    seed set, the replica-set name and the options are given. *)
Definition __init__ (seeds : list Address) (repl : option string)
    (pool_opts : PoolOptions) (auto_start_request : bool) (latency : Z) : t :=
  {| __seeds := frozenset seeds;
     __nodes := [];
     __member := None;
     __repl := repl;
     __direct := bool_decide (length (frozenset seeds) = 1%nat)
                 && negb (match repl with Some s => negb (String.eqb s "") | None => false end);
     __pool_opts := pool_opts;
     __connecting := false;
     __future_member := None;
     __auth_credentials := [];
     __auto_start_request := auto_start_request;
     latency_threshold_ms := latency;
     pools := ∅;
     next_pool := 1%positive;
     wire := [] |}.

(** Run a pool method on the pool object behind a reference. *)
Definition on_pool {A} (pr : positive) (m : M Pool.t A) : M t A :=
  λ c, match pools c !! pr with
       | Some p => let '(r, p') := m p in (r, set_pools (<[pr := p']> (pools c)) c)
       | None => (Raise (RuntimeError "no such pool"), c)
       end.

Definition lift_sum {A} (x : Exn + A) : M t A :=
  match x with inl e => raise e | inr a => ret a end.

(** [__member_property(attr_name, default)] *)
Definition __member_property {A} (attr : Member.t → A) (default : A) (c : t) : A :=
  match __member c with
  | Some member => attr member
  | None => default
  end.

Definition is_primary (c : t) : bool := __member_property Member.is_primary false c.
Definition is_mongos (c : t) : bool := __member_property Member.is_mongos false c.
Definition max_bson_size (c : t) : Z :=
  __member_property Member.max_bson_size Member.MAX_BSON_SIZE c.
Definition nodes (c : t) : list Address := __nodes c.

Section WithNet.
Variable N : Net.

(** [__create_pool] *)
Definition __create_pool (pair : Address) : M t positive :=
  λ c, let pr := next_pool c in
       (Ok pr, set_next_pool (Pos.succ pr)
                 (set_pools (<[pr := Pool.__init__ (os N) pair (__pool_opts c)]> (pools c)) c)).

(** The address a pool's sockets are connected to. *)
Definition pool_pair (pr : positive) (c : t) : Address :=
  match pools c !! pr with Some p => Pool.pair p | None => ("", 0) end.

(** [SocketInfo.send_message]: a failed send closes the socket. *)
Definition send_message (pr : positive) (sock_info : Ref) (message : Bytes) : M t unit :=
  c <- get ;;
  modify (set_wire (wire c ++ [Sent (pool_pair pr c) message])) ;;
  match sendall_fails N (pool_pair pr c) message with
  | Some e => on_pool pr (modify (Pool.update sock_info SocketInfo.close)) ;; raise e
  | None => ret tt
  end.

(** [SocketInfo.receive_message]: header checks and short reads are the
    receiving side's failures; any of them closes the socket. *)
Definition receive_message (pr : positive) (sock_info : Ref) (sent : Bytes) : M t Bytes :=
  c <- get ;;
  match recv N (pool_pair pr c) sent with
  | inl e => on_pool pr (modify (Pool.update sock_info SocketInfo.close)) ;; raise e
  | inr response => ret response
  end.

(** [with sock_info: body] *)
Definition with_socket {A} (pr : positive) (sock_info : Ref) (body : M t A) : M t A :=
  try_finally body (λ c, snd (on_pool pr (Pool.SocketInfo___exit__ (os N) sock_info) c)).

(** [__simple_command] *)
Definition __simple_command (pr : positive) (sock_info : Ref) (dbname : string) (spec : Doc)
    : M t (Doc * Z) :=
  let '(rqst_id, msg, _) := message_query N (dbname ++ ".$cmd") spec in
  send_message pr sock_info msg ;;
  response <- receive_message pr sock_info msg ;;
  c <- get ;;
  unpacked <- lift_sum (_unpack_response N response) ;;
  match data unpacked with
  | [] => raise IndexError
  | response :: _ =>
      match _check_command_response N response with
      | Some (e, _) => raise e
      | None => ret (response, round_trip N (pool_pair pr c))
      end
  end.

(** [__try_node]; the first argument is how many nested calls Python still
    allows before it raises [RuntimeError]. *)
Fixpoint __try_node (depth : nat) (node : Address) : M t (Member.t * list Address) :=
  match depth with
  | O => raise (RuntimeError "maximum recursion depth exceeded")
  | S depth' =>
      connection_pool <- __create_pool node ;;
      sock_info <- on_pool connection_pool (Pool.get_socket (os N) false) ;;
      r <- with_socket connection_pool sock_info
             (__simple_command connection_pool sock_info "admin" [("ismaster", VInt 1)]) ;;
      let '(response, res_time) := r in
      let member := Member.__init__ node connection_pool response res_time in
      let nodes := frozenset [node] in
      c <- get ;;
      if negb (__direct c) then
        if (match __repl c with
            | Some repl =>
                negb (String.eqb repl "")
                && negb (match Member.set_name member with
                         | Some v => value_eqb_str v repl
                         | None => false
                         end)
            | None => false
            end)
        then raise (ConfigurationError
                      (fst node ++ ":" ++ str_Z (snd node) ++ " is not a member of replica set "
                       ++ default "" (__repl c)))
        else
          nodes <- (match doc_get "hosts" response with
                    | Some hosts =>
                        hs <- lift_sum (py_iter hosts) ;;
                        l <- lift_sum (partition_nodes hs) ;;
                        ret (frozenset l)
                    | None => ret nodes
                    end) ;;
          if Member.is_primary member then ret (member, nodes)
          else
            match doc_get "primary" response with
            | Some primary =>
                candidate <- lift_sum (_partition_node_value primary) ;;
                __try_node depth' candidate
            | None =>
                raise (AutoReconnect
                         (fst node ++ ":" ++ str_Z (snd node) ++ " is not primary or master"))
            end
      else if Member.is_arbiter member && negb (__direct c) then
        raise (ConfigurationError (fst node ++ ":" ++ str_Z (snd node) ++ " is an arbiter"))
      else ret (member, nodes)
  end.

(** [min(member.ping_time for member in candidates)] of a non-empty list *)
Definition min_ping (candidates : list Member.t) : Z :=
  match candidates with
  | [] => 0
  | m :: rest => foldr (λ m' acc, Z.min (Member.ping_time m') acc) (Member.ping_time m) rest
  end.

(** [__pick_nearest]; times are whole milliseconds on both sides and
    compared exactly, where the code compares floating-point seconds with
    [latency / 1000.0]. *)
Definition __pick_nearest (candidates : list Member.t) : M t Member.t :=
  c <- get ;;
  let latency := latency_threshold_ms c in
  let fastest := min_ping candidates in
  let near_candidates :=
    filter (λ member, Member.ping_time member - fastest < latency) candidates in
  match near_candidates !! (random_choice N (length near_candidates)
                            mod length near_candidates)%nat with
  | Some m => ret m
  | None => raise IndexError
  end.

(** The [for candidate in candidates] loop of [__find_node]: the chosen
    member with its nodes if the loop ended by [break], the error strings
    and the routers seen. *)
Fixpoint find_node_loop (candidates : list Address) (errors : list string)
    (mongos_candidates : list Member.t)
    : M t (option (Member.t * list Address) * list string * list Member.t) :=
  match candidates with
  | [] => ret (None, errors, mongos_candidates)
  | candidate :: rest =>
      λ c,
        match __try_node (sys_getrecursionlimit N) candidate c with
        | (Ok (member, nodes), c') =>
            if Member.is_mongos member && negb (__direct c') then
              find_node_loop rest errors (mongos_candidates ++ [member]) c'
            else if negb (length mongos_candidates =? 0)%nat then
              (Raise (ConfigurationError
                        "Seed list cannot contain a mix of mongod and mongos instances."), c')
            else (Ok (Some (member, nodes), errors, mongos_candidates), c')
        | (Raise e, c') =>
            if is_OperationFailure e || is_ConfigurationError e || is_ValueError e
            then (Raise e, c')
            else find_node_loop rest (errors ++ [exn_str e]) mongos_candidates c'
        | (Blocks, c') => (Blocks, c')
        end
  end.

(** [self.__nodes or self.__seeds] *)
Definition candidates (c : t) : list Address :=
  match __nodes c with
  | [] => __seeds c
  | _ => __nodes c
  end.

(** [__find_node] *)
Definition __find_node : M t (Member.t * list Address) :=
  c <- get ;;
  match __member c with
  | Some _ => raise AssertionError
  | None =>
      r <- find_node_loop (candidates c) [] [] ;;
      let '(chosen, errors, mongos_candidates) := r in
      if negb (length mongos_candidates =? 0)%nat then
        chosen_member <- __pick_nearest mongos_candidates ;;
        let mongoses := frozenset (map Member.host mongos_candidates) in
        c' <- get ;;
        ret (chosen_member, match __nodes c' with [] => mongoses | _ => __nodes c' end)
      else
        match chosen with
        | None => raise (AutoReconnect (String.concat ", " errors))
        | Some (chosen_member, discovered_nodes) => ret (chosen_member, discovered_nodes)
        end
  end.

(** [future.result()] *)
Definition Future_result (f : option Future) : M t Member.t :=
  match f with
  | Some (Resolved m) => ret m
  | Some (Failed e) => raise e
  | Some Pending => block
  | None => raise AttributeError
  end.

(** [__ensure_member] *)
Definition __ensure_member : M t Member.t :=
  λ c,
    match __member c with
    | Some member => (Ok member, c)
    | None =>
        if __connecting c then Future_result (__future_member c) c
        else
          let c1 := set_future_member (Some Pending) (set_connecting true c) in
          match __find_node c1 with
          | (Ok (member, nodes), c2) =>
              let c3 := set_connecting false (set_member (Some member) c2) in
              let c4 := match nodes with [] => c3 | _ => set_nodes nodes c3 end in
              (Ok member, set_future_member (Some (Resolved member)) c4)
          | (Raise exc, c2) =>
              let c3 := set_connecting false (set_member None c2) in
              (Raise exc, set_future_member (Some (Failed exc)) c3)
          | (Blocks, c2) => (Blocks, c2)
          end
    end.

(** [disconnect] *)
Definition disconnect : M t unit :=
  c <- get ;;
  let member := __member c in
  modify (set_member None) ;;
  match member with
  | Some m => on_pool (Member.pool m) (Pool.reset (os N))
  | None => ret tt
  end.

(** Set operations on the credential sets, kept as duplicate-free lists. *)
Definition cred_in (x : Credential) (l : list Credential) : bool := bool_decide (x ∈ l).
Definition cred_difference (a b : list Credential) : list Credential :=
  List.filter (λ x, negb (cred_in x b)) a.
Definition cred_discard (x : Credential) (l : list Credential) : list Credential :=
  List.filter (λ y, negb (bool_decide (y = x))) l.
Definition cred_add (x : Credential) (l : list Credential) : list Credential :=
  if cred_in x l then l else l ++ [x].

(** The first loop of [__check_auth]: log out what the cache dropped. *)
Fixpoint logout_each (pr : positive) (sock_info : Ref) (l : list Credential) : M t unit :=
  match l with
  | [] => ret tt
  | credentials :: rest =>
      __simple_command pr sock_info (cred_source credentials) [("logout", VInt 1)] ;;
      on_pool pr (modify (Pool.update sock_info
        (λ s, SocketInfo.set_authset (cred_discard credentials (SocketInfo.authset s)) s))) ;;
      logout_each pr sock_info rest
  end.

(** The second loop: authenticate what the socket lacks.  The helper's
    exchange is one wire event; a network failure inside it has closed the
    socket, as every failed send or receive does. *)
Fixpoint authenticate_each (pr : positive) (sock_info : Ref) (l : list Credential) : M t unit :=
  match l with
  | [] => ret tt
  | credentials :: rest =>
      c <- get ;;
      modify (set_wire (wire c ++ [Authenticated (pool_pair pr c) credentials])) ;;
      match authenticate N credentials (pool_pair pr c) with
      | Some e =>
          when (is_socket_error e || is_ConnectionFailure e)
               (on_pool pr (modify (Pool.update sock_info SocketInfo.close))) ;;
          raise e
      | None =>
          on_pool pr (modify (Pool.update sock_info
            (λ s, SocketInfo.set_authset (cred_add credentials (SocketInfo.authset s)) s))) ;;
          authenticate_each pr sock_info rest
      end
  end.

(** [__check_auth] *)
Definition __check_auth (pr : positive) (sock_info : Ref) : M t unit :=
  c <- get ;;
  let sock_authset :=
    match pools c !! pr with
    | Some p => SocketInfo.authset (Pool.deref p sock_info)
    | None => []
    end in
  match __auth_credentials c, sock_authset with
  | [], [] => ret tt
  | _, _ =>
      let cached := remove_dups (map snd (__auth_credentials c)) in
      let authset := sock_authset in
      logout_each pr sock_info (cred_difference authset cached) ;;
      authenticate_each pr sock_info (cred_difference cached authset)
  end.

(** [host.endswith('.sock')] *)
Definition endswith (suffix s : string) : bool :=
  (String.length suffix <=? String.length s)%nat
  && String.eqb (String.substring (String.length s - String.length suffix)
                                  (String.length suffix) s) suffix.

(** [__socket] *)
Definition __socket (member : Member.t) : M t Ref :=
  let connection_pool := Member.pool member in
  sock_info <-
    try_except
      (c <- get ;;
       in_req <- on_pool connection_pool (Pool.in_request (os N)) ;;
       when (__auto_start_request c && negb in_req)
            (on_pool connection_pool (Pool.start_request (os N))) ;;
       on_pool connection_pool (Pool.get_socket (os N) false))
      is_socket_error
      (λ why,
         disconnect ;;
         let '(host, port) := Member.host member in
         let host_details :=
           if endswith ".sock" host then host ++ ":"
           else host ++ ":" ++ str_Z port ++ ":" in
         raise (AutoReconnect ("could not connect to " ++ host_details ++ " " ++ exn_str why))) ;;
  try_except (__check_auth connection_pool sock_info)
    is_OperationFailure
    (λ e, on_pool connection_pool (Pool.maybe_return_socket (os N) (ReqSock sock_info)) ;;
          raise e) ;;
  ret sock_info.

(** [str.startswith] *)
Definition startswith (pre s : string) : bool := String.prefix pre s.

(** The [for errobj in result["errObjects"]] search: the first entry whose
    [err] equals the message; an entry that is not a document has no [get]. *)
Fixpoint find_errobj (error_msg : string) (errobjs : list Value) : Exn + option Doc :=
  match errobjs with
  | [] => inr None
  | VDoc errobj :: rest =>
      if (match doc_get "err" errobj with
          | Some v => value_eqb_str v error_msg
          | None => false
          end)
      then inr (Some errobj)
      else find_errobj error_msg rest
  | _ :: _ => inl AttributeError
  end.

(** [__check_response_to_last_error] *)
Definition __check_response_to_last_error (response : Bytes) (is_command : bool) : M t Doc :=
  response <- lift_sum (_unpack_response N response) ;;
  if negb (number_returned response =? 1) then raise AssertionError
  else
    match data response with
    | [] => raise IndexError
    | result :: _ =>
        match _check_command_response N result with
        | Some (e, resets) => when resets disconnect ;; raise e
        | None =>
            if is_command then ret result
            else
              match default (VStr "") (doc_get "err" result) with
              | VNull => ret result
              | VStr error_msg =>
                  if startswith "not master" error_msg then
                    disconnect ;; raise (AutoReconnect error_msg)
                  else
                    details <-
                      (match doc_get "errObjects" result with
                       | None => ret result
                       | Some errobjs =>
                           items <- lift_sum (py_iter errobjs) ;;
                           found <- lift_sum (find_errobj error_msg items) ;;
                           ret (default result found)
                       end) ;;
                    let code := doc_get "code" details in
                    match doc_get "err" details with
                    | None => raise (KeyError "err")
                    | Some err =>
                        let msg := match err with VStr m => m | _ => "" end in
                        if (match code with
                            | Some (VInt n) => (n =? 11000) || (n =? 11001) || (n =? 12582)
                            | _ => false
                            end)
                        then raise (DuplicateKeyError msg code)
                        else raise (OperationFailure msg code)
                    end
              | _ => raise AttributeError
              end
        end
    end.

(** [__check_bson_size] *)
Definition __check_bson_size (message : Message) : M t (Z * Bytes) :=
  c <- get ;;
  match message with
  | Msg3 request_id data max_doc_size =>
      if max_bson_size c <? max_doc_size
      then raise (DocumentTooLarge max_doc_size (max_bson_size c))
      else ret (request_id, data)
  | Msg2 request_id data => ret (request_id, data)
  end.

(** [_send_message] *)
Definition _send_message (message : Message) (with_last_error command check_primary : bool)
    : M t (option Doc) :=
  member <- __ensure_member ;;
  c <- get ;;
  if check_primary && negb with_last_error && negb (is_primary c) then
    raise (AutoReconnect "not master")
  else
    sock_info <- __socket member ;;
    with_socket (Member.pool member) sock_info
      (try_except
         (rd <- __check_bson_size message ;;
          let '(request_id, data) := rd in
          send_message (Member.pool member) sock_info data ;;
          if with_last_error then
            response <- receive_message (Member.pool member) sock_info data ;;
            rv <- __check_response_to_last_error response command ;;
            ret (Some rv)
          else ret None)
         (λ e, negb (is_OperationFailure e) && (is_ConnectionFailure e || is_socket_error e))
         (λ e, disconnect ;; raise (AutoReconnect (exn_str e)))).

(** The credential cache [__auth_credentials] is a dict keyed by source,
    kept as an association list with one entry per key. *)
Definition set_auth_credentials (x : list (string * Credential)) (c : t) : t :=
  {| __seeds := __seeds c; __nodes := __nodes c; __member := __member c; __repl := __repl c;
     __direct := __direct c; __pool_opts := __pool_opts c;
     __connecting := __connecting c; __future_member := __future_member c;
     __auth_credentials := x;
     __auto_start_request := __auto_start_request c;
     latency_threshold_ms := latency_threshold_ms c;
     pools := pools c; next_pool := next_pool c; wire := wire c |}.

(** [d.get(source)], [d[source] = credentials], [del d[source]] *)
Fixpoint auth_get (source : string) (d : list (string * Credential)) : option Credential :=
  match d with
  | [] => None
  | (k, v) :: d' => if String.eqb source k then Some v else auth_get source d'
  end.

Fixpoint auth_set (source : string) (credentials : Credential)
    (d : list (string * Credential)) : list (string * Credential) :=
  match d with
  | [] => [(source, credentials)]
  | (k, v) :: d' =>
      if String.eqb source k then (k, credentials) :: d'
      else (k, v) :: auth_set source credentials d'
  end.

Definition auth_del (source : string) (d : list (string * Credential))
    : list (string * Credential) :=
  List.filter (λ kv, negb (String.eqb source (fst kv))) d.

(** [_cache_credentials(source, credentials, connect)].  The verification
    on the server is one run of the authentication helper on a socket of
    the current member, as in [__check_auth]. *)
Definition _cache_credentials (source : string) (credentials : Credential) (connect : bool)
    : M t unit :=
  c <- get ;;
  match auth_get source (__auth_credentials c) with
  | Some cached =>
      if bool_decide (credentials = cached) then ret tt
      else raise (OperationFailure
                    "Another user is already authenticated to this database. You must logout first."
                    None)
  | None =>
      when connect
        (member <- __ensure_member ;;
         sock_info <- __socket member ;;
         with_socket (Member.pool member) sock_info
           (authenticate_each (Member.pool member) sock_info [credentials])) ;;
      modify (λ c', set_auth_credentials
                      (auth_set source credentials (__auth_credentials c')) c')
  end.

(** [_purge_credentials(source)] *)
Definition _purge_credentials (source : string) : M t unit :=
  c <- get ;;
  match auth_get source (__auth_credentials c) with
  | Some _ => modify (set_auth_credentials (auth_del source (__auth_credentials c)))
  | None => ret tt
  end.

(** [__send_and_receive(message, sock_info)] *)
Definition __send_and_receive (message : Message) (pr : positive) (sock_info : Ref)
    : M t Bytes :=
  rd <- __check_bson_size message ;;
  let '(request_id, data) := rd in
  send_message pr sock_info data ;;
  receive_message pr sock_info data.

(** [Response] and [ExhaustResponse] of [pymongo.response]: the reply
    with the address it came from; the exhaust one also names the socket
    and its pool, which stay with the cursor. *)
Inductive Response :=
| PlainResponse (data : Bytes) (address : Address)
| ExhaustResponse (data : Bytes) (address : Address) (socket_info : Ref) (pool : positive).

(** [_send_message_with_response(message, **kwargs)]; [exhaust] is the
    truth value of [kwargs.get('exhaust')]. *)
Definition _send_message_with_response (message : Message) (exhaust : bool) : M t Response :=
  member <- __ensure_member ;;
  sock_info <- __socket member ;;
  on_pool (Member.pool member) (modify (Pool.update sock_info (SocketInfo.exhaust exhaust))) ;;
  with_socket (Member.pool member) sock_info
    (try_except
       (data <- __send_and_receive message (Member.pool member) sock_info ;;
        if exhaust
        then ret (ExhaustResponse data (Member.host member) sock_info (Member.pool member))
        else ret (PlainResponse data (Member.host member)))
       (λ e, is_ConnectionFailure e || is_socket_error e)
       (λ e, disconnect ;; raise (AutoReconnect (exn_str e)))).

(** [alive()]; [pool._closed(sock)] is what [select] reports. *)
Definition alive : M t bool :=
  c <- get ;;
  match __member c with
  | None => ret false
  | Some member =>
      try_except
        (sock_info <- on_pool (Member.pool member) (Pool.get_socket (os N) false) ;;
         with_socket (Member.pool member) sock_info
           (c' <- get ;;
            match pools c' !! Member.pool member with
            | Some p =>
                ret (negb (select_readable (os N) (SocketInfo.sock (Pool.deref p sock_info))))
            | None => raise (RuntimeError "no such pool")
            end))
        (λ e, is_socket_error e || is_ConnectionFailure e)
        (λ _, ret false)
  end.

(** [start_request()]; the [Request] object it returns only remembers the
    client. *)
Definition start_request : M t unit :=
  member <- __ensure_member ;;
  on_pool (Member.pool member) (Pool.start_request (os N)).

(** [in_request()]: [member and member.pool.in_request()], which is
    [None] for a disconnected client. *)
Definition in_request : M t (option bool) :=
  c <- get ;;
  match __member c with
  | Some member =>
      b <- on_pool (Member.pool member) (Pool.in_request (os N)) ;; ret (Some b)
  | None => ret None
  end.

(** [end_request()] *)
Definition end_request : M t unit :=
  c <- get ;;
  match __member c with
  | Some member => on_pool (Member.pool member) (Pool.end_request (os N))
  | None => ret tt
  end.

(** [with client.start_request(): body]: [Request.__exit__] ends the
    request and returns [False], so an exception of the body goes on. *)
Definition with_request {A} (body : M t A) : M t A :=
  start_request ;;
  try_finally body (λ c, snd (end_request c)).
End WithNet.

(** The index cache [__index_cache]: database, collection and index name
    to the time the entry expires.  [_cached], [_cache_index] and
    [_purge_index] read and write this attribute only; they are given it
    and return it.  Times are microseconds, as [datetime] counts them;
    [now] is [datetime.datetime.utcnow()]. *)
Abbreviation IndexCache := (gmap string (gmap string (gmap string Z))).

(** [_cached(dbname, coll, index)] *)
Definition _cached (now : Z) (dbname coll index : string) (cache : IndexCache) : bool :=
  match cache !! dbname with
  | None => false
  | Some colls =>
      match colls !! coll with
      | None => false
      | Some indexes =>
          match indexes !! index with
          | None => false
          | Some expire => now <? expire
          end
      end
  end.

(** [_cache_index(database, collection, index, cache_for)], with
    [cache_for] in whole seconds. *)
Definition _cache_index (now : Z) (database collection index : string) (cache_for : Z)
    (cache : IndexCache) : IndexCache :=
  let expire := cache_for * 1000000 + now in
  match cache !! database with
  | None =>
      <[database := <[collection := <[index := expire]> ∅]> ∅]> cache
  | Some colls =>
      match colls !! collection with
      | None => <[database := <[collection := <[index := expire]> ∅]> colls]> cache
      | Some indexes =>
          <[database := <[collection := <[index := expire]> indexes]> colls]> cache
      end
  end.

(** [_purge_index(database_name, collection_name=None, index_name=None)] *)
Definition _purge_index (database_name : string) (collection_name index_name : option string)
    (cache : IndexCache) : IndexCache :=
  match cache !! database_name with
  | None => cache
  | Some colls =>
      match collection_name with
      | None => delete database_name cache
      | Some coll =>
          match colls !! coll with
          | None => cache
          | Some indexes =>
              match index_name with
              | None => <[database_name := delete coll colls]> cache
              | Some index =>
                  match indexes !! index with
                  | Some _ =>
                      <[database_name := <[coll := delete index indexes]> colls]> cache
                  | None => cache
                  end
              end
          end
      end
  end.
End MongoClient.


(* ===================================================================== *)
(** ** Statements: invariants, histories and example deployments *)
(* ===================================================================== *)

(** Every idle socket was made under the pool's current [pool_id]. *)
Definition idle_generation (p : Pool.t) : Prop :=
  ∀ r, r ∈ Pool.sockets p → SocketInfo.pool_id (Pool.deref p r) = Pool.pool_id p.

(** The calls a pool receives: its public methods, the scoped release and
    the methods of a checked-out socket, and the thread-death callback. *)
Inductive PoolOp :=
| OpReset
| OpGetSocket (force : bool)
| OpStartRequest
| OpEndRequest
| OpMaybeReturnSocket (sock_info : ReqState)
| OpExit (r : Ref)
| OpThreadDied (tid : Tid)
| OpClose (r : Ref)
| OpExhaust (r : Ref) (flag : bool).

Definition exec (E : Env) (op : PoolOp) (p : Pool.t) : Pool.t :=
  match op with
  | OpReset => snd (Pool.reset E p)
  | OpGetSocket force => snd (Pool.get_socket E force p)
  | OpStartRequest => snd (Pool.start_request E p)
  | OpEndRequest => snd (Pool.end_request E p)
  | OpMaybeReturnSocket sock_info => snd (Pool.maybe_return_socket E sock_info p)
  | OpExit r => snd (Pool.SocketInfo___exit__ E r p)
  | OpThreadDied tid => snd (Pool.on_thread_died tid p)
  | OpClose r => Pool.update r SocketInfo.close p
  | OpExhaust r flag => Pool.update r (SocketInfo.exhaust flag) p
  end.

(** A history: each call with the environment it ran in. *)
Definition run (history : list (Env * PoolOp)) (p : Pool.t) : Pool.t :=
  foldl (λ q eo, exec (fst eo) (snd eo) q) p history.

(** The request bookkeeping of thread [tid] is consistent: the counter is
    not negative, and it is positive exactly when the thread has a request
    state (a socket or the placeholder) and is watched. *)
Definition request_consistent (tid : Tid) (p : Pool.t) : Prop :=
  0 ≤ Pool.Counter_get tid p
  ∧ (Pool.Counter_get tid p = 0 →
       Pool._tid_to_sock p !! tid = None ∧ tid ∉ Pool._ident p)
  ∧ (0 < Pool.Counter_get tid p →
       ∃ st, Pool._tid_to_sock p !! tid = Some st ∧ st ≠ NO_REQUEST).



(** The environment of the examples: process 1, thread 1, connects
    succeed, no socket is readable. *)
Definition env1 : Env :=
  {| os_getpid := 1; ident_get := 1%positive; time_time := 0;
     connect_fails := λ _, None; select_readable := λ _, false;
     set_pop := λ _, 1%positive |}.

(** A pool of one thread in a request that holds its request socket
    ([start_request], [get_socket]), and the same once a failed send has
    closed that socket. *)
Definition pool_in_request : Pool.t :=
  run [(env1, OpStartRequest); (env1, OpGetSocket false)]
      (Pool.__init__ env1 ("localhost", 27017) PoolOptions_default).

Definition pool_with_closed_request_socket : Pool.t :=
  run [(env1, OpStartRequest); (env1, OpGetSocket false); (env1, OpClose 1%positive)]
      (Pool.__init__ env1 ("localhost", 27017) PoolOptions_default).

Definition pool0 : Pool.t := Pool.__init__ env1 ("localhost", 27017) PoolOptions_default.

(** A computation keeps the invariant whatever it returns or raises. *)
Definition keeps {A} (m : M Pool.t A) : Prop :=
  ∀ p, idle_generation p → idle_generation (snd (m p)).

(** Two client states with the same attributes: only the store (pools,
    wire log) may differ. *)
Definition same_attrs (c c' : MongoClient.t) : Prop :=
  MongoClient.__seeds c' = MongoClient.__seeds c
  ∧ MongoClient.__nodes c' = MongoClient.__nodes c
  ∧ MongoClient.__member c' = MongoClient.__member c
  ∧ MongoClient.__repl c' = MongoClient.__repl c
  ∧ MongoClient.__direct c' = MongoClient.__direct c
  ∧ MongoClient.__pool_opts c' = MongoClient.__pool_opts c
  ∧ MongoClient.__connecting c' = MongoClient.__connecting c
  ∧ MongoClient.__future_member c' = MongoClient.__future_member c
  ∧ MongoClient.__auth_credentials c' = MongoClient.__auth_credentials c
  ∧ MongoClient.__auto_start_request c' = MongoClient.__auto_start_request c
  ∧ MongoClient.latency_threshold_ms c' = MongoClient.latency_threshold_ms c.

(** A computation that assigns no attribute of the client. *)
Definition frames {A} (m : M MongoClient.t A) : Prop :=
  ∀ c, same_attrs c (snd (m c)).

(** The pool of the cached member is a pool the client created. *)
Definition member_pool_allocated (c : MongoClient.t) : Prop :=
  ∀ m, MongoClient.__member c = Some m → is_Some (MongoClient.pools c !! Member.pool m).


(** The state in which [__ensure_member] calls [__find_node]. *)
Definition resolving (c : MongoClient.t) : MongoClient.t :=
  MongoClient.set_future_member (Some Pending) (MongoClient.set_connecting true c).

(** A tiny deployment for examples: every server accepts connections and
    answers [ismaster] with the document [reply] gives for its host name;
    the reply bytes are the host name, which the codec maps to that
    document. *)
Definition example_net (reply : string → Doc) : Net :=
  {| os := env1;
     sys_getrecursionlimit := 100;
     message_query := λ ns spec, (0, ns, 0);
     sendall_fails := λ _ _, None;
     recv := λ a _, inr (fst a);
     round_trip := λ _, 5;
     _unpack_response := λ b, inr {| number_returned := 1; data := [reply b] |};
     _check_command_response := λ _, None;
     authenticate := λ _ _, None;
     random_choice := λ _, 0%nat |}.

Definition arbiter_reply : Doc := [("ismaster", VBool false); ("arbiterOnly", VBool true)].
Definition mongod_reply : Doc := [("ismaster", VBool true)].
Definition mongos_reply : Doc := [("ismaster", VBool true); ("msg", VStr "isdbgrid")].
Definition secondary_reply : Doc := [("ismaster", VBool false); ("secondary", VBool true)].

(** Hosts named "arbiter", "router..." and "secondary" answer as such; every
    other host is a standalone mongod. *)
Definition example_reply (host : string) : Doc :=
  if String.eqb host "arbiter" then arbiter_reply
  else if String.prefix "router" host then mongos_reply
  else if String.eqb host "secondary" then secondary_reply
  else mongod_reply.

Definition net1 : Net := example_net example_reply.

(** A client given one seed and no replica-set name: direct mode. *)
Definition direct_client (seed : Address) : MongoClient.t :=
  MongoClient.__init__ [seed] None PoolOptions_default false 15.

(** A client given a seed list and no replica-set name. *)
Definition seed_list_client (seeds : list Address) : MongoClient.t :=
  MongoClient.__init__ seeds None PoolOptions_default false 15.

Definition mixed_error : Exn :=
  ConfigurationError "Seed list cannot contain a mix of mongod and mongos instances.".

(** A client that resolved a three-member replica set from one seed and
    then lost every server: the set answers below, nobody answers after. *)
Definition replica_reply (host : string) : Doc :=
  [("ismaster", VBool (String.eqb host "a")); ("setName", VStr "rs");
   ("primary", VStr "a:1"); ("hosts", VArr [VStr "a:1"; VStr "b:2"; VStr "c:3"])].


Definition net_down : Net :=
  {| os := {| os_getpid := 1; ident_get := 1%positive; time_time := 0;
              connect_fails := λ _, Some (socket_error "Connection refused");
              select_readable := λ _, false; set_pop := λ _, 1%positive |};
     sys_getrecursionlimit := 100;
     message_query := λ ns spec, (0, ns, 0);
     sendall_fails := λ _ _, None;
     recv := λ a _, inr (fst a);
     round_trip := λ _, 5;
     _unpack_response := λ b, inr {| number_returned := 1; data := [replica_reply b] |};
     _check_command_response := λ _, None;
     authenticate := λ _ _, None;
     random_choice := λ _, 0%nat |}.

(** A direct client connected to a secondary. *)
Definition secondary_client : MongoClient.t :=
  snd (MongoClient.__ensure_member net1 (direct_client ("secondary", 27017))).

(** A direct client connected to a standalone mongod. *)
Definition standalone_client : MongoClient.t :=
  snd (MongoClient.__ensure_member net1 (direct_client ("mongod", 27017))).

(** [code in (11000, 11001, 12582)] *)
Definition is_duplicate_key_code (code : option Value) : bool :=
  match code with
  | Some (VInt n) => bool_decide (n ∈ [11000; 11001; 12582])
  | _ => false
  end.

(** The document the error is read from: the first [errObjects] entry
    whose [err] is the reply's, else the reply itself. *)
Definition error_details (result : Doc) (error_msg : string) (details : Doc) : Prop :=
  (doc_get "errObjects" result = None ∧ details = result)
  ∨ (∃ errobjs items found,
       doc_get "errObjects" result = Some errobjs
       ∧ py_iter errobjs = inr items
       ∧ MongoClient.find_errobj error_msg items = inr found
       ∧ details = default result found).

(** Thread [t] has a request state: the placeholder or a socket. *)
Definition bound (t : Tid) (p : Pool.t) : Prop :=
  ∃ st, Pool._tid_to_sock p !! t = Some st ∧ st ≠ NO_REQUEST.

(** From [p] to [p'] the counters are untouched, and a thread's request
    state changes only by a thread in a request taking another socket. *)
Definition rebinds (p p' : Pool.t) : Prop :=
  Pool._request_counter p' = Pool._request_counter p
  ∧ (∀ t, Pool._tid_to_sock p' !! t = Pool._tid_to_sock p !! t
          ∨ (bound t p ∧ ∃ x, Pool._tid_to_sock p' !! t = Some (ReqSock x)))
  ∧ (∀ t, t ∈ Pool._ident p' → t ∈ Pool._ident p ∨ bound t p).

Definition stable (P : Pool.t → Prop) : Prop :=
  ∀ p p', P p → rebinds p p' → P p'.

(** From a state satisfying [P], the computation only rebinds. *)
Definition steps {A} (P : Pool.t → Prop) (m : M Pool.t A) : Prop :=
  ∀ p, P p → rebinds p (snd (m p)).

(** Thread [tid] reads the same request bookkeeping in [p] and [p']. *)
Definition same_requests_of (tid : Tid) (p p' : Pool.t) : Prop :=
  Pool.Counter_get tid p' = Pool.Counter_get tid p
  ∧ Pool._tid_to_sock p' !! tid = Pool._tid_to_sock p !! tid
  ∧ (tid ∈ Pool._ident p' ↔ tid ∈ Pool._ident p).

(** Taking the request state of thread [t] away. *)
Definition unbind (t : Tid) (p : Pool.t) : Pool.t :=
  Pool.set_tid_to_sock (delete t (Pool._tid_to_sock p))
    (Pool.set_ident (Pool._ident p ∖ {[t]}) p).

(** A computation keeps a property of the pool whatever it returns or
    raises. *)
Definition preserves {A} (P : Pool.t → Prop) (m : M Pool.t A) : Prop :=
  ∀ p, P p → P (snd (m p)).

(** The moves every pool operation is made of: the bookkeeping of
    requests and permits, taking a socket out of the idle set, changing
    the flags of a socket, [reset], [connect], and putting a socket of the
    pool's generation into an idle set that has room.  A property kept by
    each of them is kept by every operation. *)
Record pool_invariant (P : Pool.t → Prop) : Prop := {
  inv_semaphore : ∀ p x, P p → P (Pool.set_socket_semaphore x p);
  inv_tid_to_sock : ∀ p x, P p → P (Pool.set_tid_to_sock x p);
  inv_ident : ∀ p x, P p → P (Pool.set_ident x p);
  inv_request_counter : ∀ p x, P p → P (Pool.set_request_counter x p);
  inv_remove : ∀ p r, P p → P (Pool.set_sockets (Pool.sockets p ∖ {[r]}) p);
  inv_update : ∀ p r f,
    (∀ s, SocketInfo.pool_id (f s) = SocketInfo.pool_id s) →
    (∀ s, SocketInfo.sock (f s) = SocketInfo.sock s) →
    P p → P (Pool.update r f p);
  inv_reset : ∀ E p, P p → P (snd (Pool.reset E p));
  inv_connect : ∀ E p r p', Pool.connect E p = (Ok r, p') → P p → P p';
  inv_add : ∀ p r,
    match max_pool_size (Pool.opts p) with
    | Some max_size => Z.of_nat (size (Pool.sockets p)) < max_size
    | None => True
    end →
    SocketInfo.pool_id (Pool.deref p r) = Pool.pool_id p →
    P p → P (Pool.sockets_add r p) }.

(** The pool holds the permits [s]. *)
Definition permits_are (s : Semaphore.t) (p : Pool.t) : Prop :=
  Pool._socket_semaphore p = s.

(** The pool a call works on once the fork check of [get_socket] is done:
    [if self.pid != os.getpid(): self.reset()]. *)
Definition after_fork_check (E : Env) (p : Pool.t) : Pool.t :=
  if Pool.pid p =? os_getpid E then p else snd (Pool.reset E p).

(** The idle set holds no more than [max_pool_size] sockets. *)
Definition idle_bounded (p : Pool.t) : Prop :=
  match max_pool_size (Pool.opts p) with
  | Some max_size => Z.of_nat (size (Pool.sockets p)) ≤ Z.max 0 max_size
  | None => True
  end.

(** No socket is of a later generation than the pool. *)
Definition generation_bounded (p : Pool.t) : Prop :=
  0 ≤ Pool.pool_id p ∧ ∀ r, SocketInfo.pool_id (Pool.deref p r) ≤ Pool.pool_id p.

(** [sock_info in self.sockets], as a Python set decides it by
    [__hash__] and [__eq__]. *)
Definition sockets_contains (p : Pool.t) (r : Ref) : Prop :=
  set_Exists (λ r', SocketInfo.sock (Pool.deref p r') = SocketInfo.sock (Pool.deref p r))
             (Pool.sockets p).

(** The process of [env1] after a fork, and a deployment nobody can
    connect to. *)
Definition env_child : Env :=
  {| os_getpid := 2; ident_get := 1%positive; time_time := 0;
     connect_fails := λ _, None; select_readable := λ _, false;
     set_pop := λ _, 1%positive |}.

Definition env_refused : Env :=
  {| os_getpid := 1; ident_get := 1%positive; time_time := 0;
     connect_fails := λ _, Some (socket_error "Connection refused");
     select_readable := λ _, false; set_pop := λ _, 1%positive |}.

(** A pool that may open no socket at all, and waits one tick for one. *)
Definition pool_without_permits : Pool.t :=
  Pool.__init__ env1 ("localhost", 27017)
    {| max_pool_size := Some 0; connect_timeout := None; socket_timeout := None;
       wait_queue_timeout := Some 1; wait_queue_multiple := None;
       socket_keepalive := false |}.

(** A call made from the process and the thread of [E], at any time and
    whatever [select] and the network do then. *)
Definition same_caller (E E' : Env) : Prop :=
  os_getpid E' = os_getpid E ∧ ident_get E' = ident_get E.

(** What the thread of [E] does with its request socket [r] while it
    only uses it: it checks a socket out or returns [r], in the same
    process, and [select] does not report the raw socket readable. *)
Definition request_step (E : Env) (r : Ref) (sock : positive) (eo : Env * PoolOp) : Prop :=
  same_caller E (fst eo)
  ∧ select_readable (fst eo) sock = false
  ∧ ((∃ force, snd eo = OpGetSocket force) ∨ snd eo = OpMaybeReturnSocket (ReqSock r)).

(** The thread of [E] holds [r], open and of the pool's generation, as
    its request socket. *)
Definition pinned (E : Env) (r : Ref) (sock : positive) (q : Pool.t) : Prop :=
  Pool._tid_to_sock q !! ident_get E = Some (ReqSock r)
  ∧ SocketInfo.closed (Pool.deref q r) = false
  ∧ SocketInfo.pool_id (Pool.deref q r) = Pool.pool_id q
  ∧ Pool.pid q = os_getpid E
  ∧ SocketInfo.sock (Pool.deref q r) = sock.

(** [env1] five ticks later. *)
Definition env1_later : Env :=
  {| os_getpid := 1; ident_get := 1%positive; time_time := 5;
     connect_fails := λ _, None; select_readable := λ _, false;
     set_pop := λ _, 1%positive |}.

(** The exceptions [__find_node] lets through instead of trying the next
    candidate: [except (OperationFailure, ConfigurationError, ValueError):
    raise]. *)
Definition fatal (e : Exn) : bool :=
  is_OperationFailure e || is_ConfigurationError e || is_ValueError e.

(** No connection can be made to [a], for a reason that is not fatal. *)
Definition unreachable (N : Net) (a : Address) : Prop :=
  ∃ e, connect_fails (os N) a = Some e ∧ fatal e = false.

(** [str(why)] of the failure to connect to [a]. *)
Definition connect_error (N : Net) (a : Address) : string :=
  match connect_fails (os N) a with Some e => exn_str e | None => "" end.

(** A new pool with these options has a permit to give. *)
Definition has_room (options : PoolOptions) : Prop :=
  match max_pool_size options with Some n => 0 < n | None => True end.


(* ===================================================================== *)
(** ** Proofs: SocketInfo equality *)
(* ===================================================================== *)

Lemma SocketInfo_eq_iff (a b : SocketInfo.t) :
  SocketInfo.__eq__ a (SocketInfo.PySocketInfo b) = true
  ↔ SocketInfo.sock a = SocketInfo.sock b.
Proof.
  unfold SocketInfo.__eq__. simpl. rewrite bool_decide_eq_true. tauto.
Qed.

Lemma SocketInfo_eq_no_sock (a : SocketInfo.t) (o : SocketInfo.PyObj) :
  SocketInfo.hasattr_sock o = false → SocketInfo.__eq__ a o = false.
Proof. unfold SocketInfo.__eq__. intros ->. reflexivity. Qed.

Lemma is_sentinel_sock (p : Pool.t) (r : Ref) : Pool.is_sentinel p (ReqSock r) = false.
Proof. reflexivity. Qed.

Lemma sock_ne_negb (p : Pool.t) (r : Ref) (st : ReqState) :
  Pool.sock_ne p r st = negb (Pool.sock_eq p r st).
Proof. reflexivity. Qed.

(** C10.  [SocketInfo.__eq__] and [__hash__] look at the wrapped raw socket
    only: two [SocketInfo]s are equal exactly when their [sock]s are, equal
    ones hash alike, an object with no [sock] attribute (such as the
    sentinels [NO_REQUEST] and [NO_SOCKET_YET]) equals no [SocketInfo], and
    [maybe_return_socket], for an open socket under an unchanged pid, keeps
    the socket out of the idle set exactly when it [__eq__]s the caller's
    request state and otherwise hands it to [_return_socket]. *)
Theorem C10_socketinfo_equality :
  (∀ a b : SocketInfo.t,
     SocketInfo.__eq__ a (SocketInfo.PySocketInfo b) = true
     ↔ SocketInfo.sock a = SocketInfo.sock b)
  ∧ (∀ a b : SocketInfo.t,
       SocketInfo.__eq__ a (SocketInfo.PySocketInfo b) = true →
       SocketInfo.__hash__ a = SocketInfo.__hash__ b)
  ∧ (∀ a : SocketInfo.t,
       SocketInfo.__hash__ a = SocketInfo.hash_raw_socket (SocketInfo.sock a))
  ∧ (∀ (a : SocketInfo.t) (o : SocketInfo.PyObj),
       SocketInfo.hasattr_sock o = false →
       SocketInfo.__eq__ a o = false ∧ SocketInfo.__ne__ a o = true)
  ∧ (∀ (p : Pool.t) (a : SocketInfo.t),
       SocketInfo.__eq__ a (Pool.as_object p NO_REQUEST) = false
       ∧ SocketInfo.__eq__ a (Pool.as_object p NO_SOCKET_YET) = false)
  ∧ (∀ (E : Env) (p : Pool.t) (r : Ref),
       Pool.pid p = os_getpid E →
       SocketInfo.closed (Pool.deref p r) = false →
       Pool.maybe_return_socket E (ReqSock r) p =
       if SocketInfo.__eq__ (Pool.deref p r)
            (Pool.as_object p (default NO_REQUEST (Pool._tid_to_sock p !! ident_get E)))
       then (Ok tt, p)
       else Pool._return_socket r p).
Proof.
  split; [exact SocketInfo_eq_iff|].
  split.
  { intros a b H. apply SocketInfo_eq_iff in H. unfold SocketInfo.__hash__. by rewrite H. }
  split; [reflexivity|].
  split.
  { intros a o H. unfold SocketInfo.__ne__. rewrite (SocketInfo_eq_no_sock a o H). done. }
  split; [done|].
  intros E p r Hpid Hopen.
  unfold Pool.maybe_return_socket, bind, get.
  rewrite is_sentinel_sock, Hpid, Z.eqb_refl. simpl. rewrite Hopen.
  unfold Pool._get_request_state, when. rewrite sock_ne_negb. unfold Pool.sock_eq.
  destruct (SocketInfo.__eq__ _ _); reflexivity.
Qed.

(** The request socket of thread 1 is kept by [maybe_return_socket] when
    thread 1 returns it, and goes to [_return_socket] when thread 2 does. *)
Lemma C10_socketinfo_equality_witness :
  let E2 := {| os_getpid := 1; ident_get := 2%positive; time_time := 0;
               connect_fails := λ _, None; select_readable := λ _, false;
               set_pop := λ _, 1%positive |} in
  Pool.maybe_return_socket env1 (ReqSock 1%positive) pool_in_request = (Ok tt, pool_in_request)
  ∧ Pool.maybe_return_socket E2 (ReqSock 1%positive) pool_in_request
    = Pool._return_socket 1%positive pool_in_request.
Proof.
  intros E2.
  destruct C10_socketinfo_equality as (_ & _ & _ & _ & _ & Hreturn).
  split.
  - by rewrite (Hreturn env1 pool_in_request 1%positive eq_refl eq_refl).
  - by rewrite (Hreturn E2 pool_in_request 1%positive eq_refl eq_refl).
Defined.

(* ===================================================================== *)
(** ** Proofs: returning a closed socket *)
(* ===================================================================== *)

(** C4, as stated, fails: the closed socket is not forced, the pid is
    unchanged, and yet [maybe_return_socket] releases no permit, because the
    socket is the caller's request socket. *)
Lemma C4_closed_request_socket_counterexample :
  let p := pool_with_closed_request_socket in
  let p' := exec env1 (OpMaybeReturnSocket (ReqSock 1%positive)) p in
  Pool.pid p = os_getpid env1
  ∧ SocketInfo.closed (Pool.deref p 1%positive) = true
  ∧ SocketInfo.forced (Pool.deref p 1%positive) = false
  ∧ Pool._socket_semaphore p = {| Semaphore.counter := Some 99 |}
  ∧ Pool._socket_semaphore p' = {| Semaphore.counter := Some 99 |}
  ∧ Pool._socket_semaphore p' ≠ Semaphore.release (Pool._socket_semaphore p).
Proof. vm_compute. repeat split; congruence. Qed.

Lemma deref_update (p : Pool.t) (r r' : Ref) (f : SocketInfo.t → SocketInfo.t) :
  Pool.deref (Pool.update r f p) r' =
  if decide (r = r') then f (Pool.deref p r) else Pool.deref p r'.
Proof.
  unfold Pool.deref, Pool.update. simpl.
  destruct (decide (r = r')) as [->|Hne].
  - by rewrite lookup_insert_eq.
  - by rewrite lookup_insert_ne.
Qed.

(** C4, amended.  For a closed socket under an unchanged pid,
    [maybe_return_socket] never touches the idle set; a forced socket has
    its [forced] flag cleared and no permit is released; a socket that is
    not forced releases exactly one permit unless it is the caller's request
    socket, in which case nothing is released and the pool is unchanged. *)
Theorem C4_maybe_return_closed (E : Env) (p : Pool.t) (r : Ref) :
  Pool.pid p = os_getpid E →
  SocketInfo.closed (Pool.deref p r) = true →
  let st := default NO_REQUEST (Pool._tid_to_sock p !! ident_get E) in
  let p' := snd (Pool.maybe_return_socket E (ReqSock r) p) in
  fst (Pool.maybe_return_socket E (ReqSock r) p) = Ok tt
  ∧ Pool.sockets p' = Pool.sockets p
  ∧ (SocketInfo.forced (Pool.deref p r) = true →
       SocketInfo.forced (Pool.deref p' r) = false
       ∧ Pool._socket_semaphore p' = Pool._socket_semaphore p)
  ∧ (SocketInfo.forced (Pool.deref p r) = false →
       SocketInfo.__eq__ (Pool.deref p r) (Pool.as_object p st) = false →
       Pool._socket_semaphore p' = Semaphore.release (Pool._socket_semaphore p)
       ∧ Pool.objs p' = Pool.objs p)
  ∧ (SocketInfo.forced (Pool.deref p r) = false →
       SocketInfo.__eq__ (Pool.deref p r) (Pool.as_object p st) = true →
       p' = p).
Proof.
  intros Hpid Hclosed st p'. subst st p'.
  unfold Pool.maybe_return_socket, bind, get.
  rewrite is_sentinel_sock, Hpid, Z.eqb_refl. simpl. rewrite Hclosed.
  destruct (SocketInfo.forced (Pool.deref p r)) eqn:Hforced.
  - simpl. repeat split; try done.
    rewrite deref_update. by rewrite decide_True.
  - unfold Pool._get_request_state, when. rewrite sock_ne_negb. unfold Pool.sock_eq.
    destruct (SocketInfo.__eq__ _ _) eqn:Heq; simpl; repeat split; try done.
Qed.

(** The amended statement at the pool above, and at the same socket once it
    is no longer the request socket of the caller (thread 2 returns it). *)
Lemma C4_maybe_return_closed_witness :
  let p := pool_with_closed_request_socket in
  let E2 := {| os_getpid := 1; ident_get := 2%positive; time_time := 0;
               connect_fails := λ _, None; select_readable := λ _, false;
               set_pop := λ _, 1%positive |} in
  Pool.sockets (snd (Pool.maybe_return_socket E2 (ReqSock 1%positive) p)) = Pool.sockets p
  ∧ Pool._socket_semaphore (snd (Pool.maybe_return_socket E2 (ReqSock 1%positive) p))
    = {| Semaphore.counter := Some 100 |}.
Proof.
  intros p E2.
  destruct (C4_maybe_return_closed E2 p 1%positive) as (_ & Hs & _ & Hrel & _);
    [reflexivity | reflexivity |].
  split; [exact Hs|].
  destruct Hrel as [-> _]; reflexivity.
Defined.

(* ===================================================================== *)
(** ** Proofs: balanced requests *)
(* ===================================================================== *)

Lemma Counter_get_inc (t tid : Tid) (p : Pool.t) :
  Pool.Counter_get t (Pool.Counter_inc tid p) =
  if decide (tid = t) then Pool.Counter_get tid p + 1 else Pool.Counter_get t p.
Proof.
  unfold Pool.Counter_get, Pool.Counter_inc. simpl.
  destruct (decide (tid = t)) as [->|Hne].
  - by rewrite lookup_insert_eq.
  - by rewrite lookup_insert_ne.
Qed.

Lemma Counter_get_dec (t tid : Tid) (p : Pool.t) :
  Pool.Counter_get t (Pool.Counter_dec tid p) =
  if decide (tid = t) then Pool.Counter_get tid p - 1 else Pool.Counter_get t p.
Proof.
  unfold Pool.Counter_get, Pool.Counter_dec. simpl.
  destruct (decide (tid = t)) as [->|Hne].
  - by rewrite lookup_insert_eq.
  - by rewrite lookup_insert_ne.
Qed.

(** [start_request] of a thread with no request state. *)
Lemma start_request_unbound (E : Env) (p : Pool.t) :
  Pool._tid_to_sock p !! ident_get E = None →
  ident_get E ∉ Pool._ident p →
  exec E OpStartRequest p =
  Pool.Counter_inc (ident_get E)
    (Pool.set_ident ({[ident_get E]} ∪ Pool._ident p)
       (Pool.set_tid_to_sock (<[ident_get E := NO_SOCKET_YET]> (Pool._tid_to_sock p)) p)).
Proof.
  intros Hnone Hwatch. unfold exec, Pool.start_request, bind, Pool._get_request_state.
  rewrite Hnone. simpl. rewrite bool_decide_eq_false_2 by done. reflexivity.
Qed.

(** [start_request] of a thread already in a request. *)
Lemma start_request_bound (E : Env) (p : Pool.t) (st : ReqState) :
  Pool._tid_to_sock p !! ident_get E = Some st → st ≠ NO_REQUEST →
  exec E OpStartRequest p = Pool.Counter_inc (ident_get E) p.
Proof.
  intros Hsome Hst. unfold exec, Pool.start_request, bind, Pool._get_request_state.
  rewrite Hsome. simpl. rewrite bool_decide_eq_false_2 by done. reflexivity.
Qed.




(** [_return_socket] leaves the request bookkeeping alone. *)
Lemma return_socket_requests (r : Ref) (p : Pool.t) :
  Pool._request_counter (snd (Pool._return_socket r p)) = Pool._request_counter p.
Proof.
  unfold Pool._return_socket, bind, get, modify, Pool.semaphore_release, modify.
  destruct (negb _ && _); simpl.
  - unfold Pool.sockets_add. destruct (bool_decide _); simpl;
      destruct (SocketInfo.forced _); reflexivity.
  - destruct (SocketInfo.forced _); reflexivity.
Qed.



Lemma start_request_consistent (E : Env) (p : Pool.t) :
  request_consistent (ident_get E) p →
  request_consistent (ident_get E) (exec E OpStartRequest p).
Proof.
  intros (Hnn & Hzero & Hpos).
  destruct (decide (Pool.Counter_get (ident_get E) p = 0)) as [H0|H0].
  - destruct (Hzero H0) as [Hnone Hwatch].
    rewrite (start_request_unbound E p Hnone Hwatch).
    unfold request_consistent. rewrite Counter_get_inc, decide_True by done.
    change (Pool.Counter_get (ident_get E) (Pool.set_ident _ _))
      with (Pool.Counter_get (ident_get E) p).
    simpl. rewrite lookup_insert_eq. split; [lia|]. split; [lia|].
    intros _. by exists NO_SOCKET_YET.
  - destruct Hpos as (st & Hst & Hne); [lia|].
    rewrite (start_request_bound E p st Hst Hne).
    unfold request_consistent. rewrite Counter_get_inc, decide_True by done.
    simpl. split; [lia|]. split; [lia|]. intros _. by exists st.
Qed.








(* ===================================================================== *)
(** ** Proofs: the idle-set invariant *)
(* ===================================================================== *)

(** C2, as stated, fails on the [closed == False] half: a request socket
    closed while bound (a failed send closes it) is put into the idle set by
    [end_request], under the pool's current [pool_id]. *)
Lemma C2_closed_idle_socket_counterexample :
  let p := exec env1 OpEndRequest pool_with_closed_request_socket in
  1%positive ∈ Pool.sockets p
  ∧ SocketInfo.closed (Pool.deref p 1%positive) = true
  ∧ SocketInfo.pool_id (Pool.deref p 1%positive) = Pool.pool_id p.
Proof.
  split; [|split; reflexivity].
  assert (H : Pool.sockets (exec env1 OpEndRequest pool_with_closed_request_socket)
              = {[1%positive]}) by (vm_compute; reflexivity).
  rewrite H. by apply elem_of_singleton.
Qed.

Lemma idle_generation_same (p q : Pool.t) :
  Pool.sockets q = Pool.sockets p → Pool.objs q = Pool.objs p →
  Pool.pool_id q = Pool.pool_id p → idle_generation p → idle_generation q.
Proof.
  intros Hs Ho Hid Hp r Hr. unfold Pool.deref. rewrite Ho, Hid. apply Hp. by rewrite <- Hs.
Qed.

Lemma idle_generation_subset (p q : Pool.t) :
  Pool.sockets q ⊆ Pool.sockets p → Pool.objs q = Pool.objs p →
  Pool.pool_id q = Pool.pool_id p → idle_generation p → idle_generation q.
Proof.
  intros Hs Ho Hid Hp r Hr. unfold Pool.deref. rewrite Ho, Hid. apply Hp. by apply Hs.
Qed.

Lemma idle_generation_update (p : Pool.t) (r : Ref) (f : SocketInfo.t → SocketInfo.t) :
  (∀ s, SocketInfo.pool_id (f s) = SocketInfo.pool_id s) →
  idle_generation p → idle_generation (Pool.update r f p).
Proof.
  intros Hf Hp r' Hr'. rewrite deref_update. simpl in Hr'.
  case_decide as Heq.
  - subst r'. rewrite Hf. by apply Hp.
  - by apply Hp.
Qed.

Lemma idle_generation_empty (p : Pool.t) : Pool.sockets p = ∅ → idle_generation p.
Proof. intros He r Hr. rewrite He in Hr. by apply not_elem_of_empty in Hr. Qed.

Lemma keeps_ret {A} (a : A) : keeps (ret a).
Proof. by intros p Hp. Qed.

Lemma keeps_raise {A} (e : Exn) : keeps (@raise _ A e).
Proof. by intros p Hp. Qed.

Lemma keeps_get : keeps get.
Proof. by intros p Hp. Qed.

Lemma keeps_modify (f : Pool.t → Pool.t) :
  (∀ p, idle_generation p → idle_generation (f p)) → keeps (modify f).
Proof. intros Hf p Hp. by apply Hf. Qed.

Lemma keeps_bind {A B} (m : M Pool.t A) (k : A → M Pool.t B) :
  keeps m → (∀ a, keeps (k a)) → keeps (bind m k).
Proof.
  intros Hm Hk p Hp. unfold bind. specialize (Hm p Hp).
  destruct (m p) as [[a|e|] p']; simpl in *; [by apply Hk | done | done].
Qed.

Lemma keeps_when (b : bool) (m : M Pool.t unit) : keeps m → keeps (when b m).
Proof. intros Hm. destruct b; [exact Hm | apply keeps_ret]. Qed.

Lemma keeps_try_except {A} (m : M Pool.t A) (handles : Exn → bool) (h : Exn → M Pool.t A) :
  keeps m → (∀ e, keeps (h e)) → keeps (try_except m handles h).
Proof.
  intros Hm Hh p Hp. unfold try_except. specialize (Hm p Hp).
  destruct (m p) as [[a|e|] p']; simpl in *; [done | | done].
  destruct (handles e); [by apply Hh | done].
Qed.

Lemma sockets_fold_update (f : SocketInfo.t → SocketInfo.t) (l : list Ref) (p : Pool.t) :
  Pool.sockets (foldr (λ r q, Pool.update r f q) p l) = Pool.sockets p.
Proof. induction l as [|r l IH]; [reflexivity | exact IH]. Qed.

Lemma keeps_reset (E : Env) : keeps (Pool.reset E).
Proof.
  intros p _. apply idle_generation_empty. unfold Pool.reset, modify. simpl.
  by rewrite sockets_fold_update.
Qed.

Lemma keeps_semaphore_release : keeps Pool.semaphore_release.
Proof. apply keeps_modify. intros p. by apply idle_generation_same. Qed.

Lemma keeps_update (r : Ref) (f : SocketInfo.t → SocketInfo.t) :
  (∀ s, SocketInfo.pool_id (f s) = SocketInfo.pool_id s) →
  keeps (modify (Pool.update r f)).
Proof. intros Hf. apply keeps_modify. intros p. by apply idle_generation_update. Qed.

Lemma keeps_connect (E : Env) : keeps (Pool.connect E).
Proof.
  intros p Hp. unfold Pool.connect. destruct (connect_fails E (Pool.pair p)); [done|].
  simpl. intros r Hr. simpl in Hr. unfold Pool.deref. simpl.
  destruct (decide (Pool.next_ref p = r)) as [->|Hne].
  - by rewrite lookup_insert_eq.
  - rewrite lookup_insert_ne by done. by apply Hp.
Qed.

Lemma keeps_set_request_state (E : Env) (st : ReqState) : keeps (Pool._set_request_state E st).
Proof.
  apply keeps_modify. intros p Hp. cbv beta zeta.
  repeat case_match; by apply (idle_generation_same p).
Qed.

Lemma keeps_get_request_state (E : Env) : keeps (Pool._get_request_state E).
Proof. by intros p Hp. Qed.

Lemma keeps_check (E : Env) (r : Ref) : keeps (Pool._check E r).
Proof.
  unfold Pool._check. apply keeps_bind; [apply keeps_get|]. intros p.
  apply keeps_bind.
  - repeat case_match; try apply keeps_ret;
      (apply keeps_bind; [by apply keeps_update | intros; apply keeps_ret]).
  - intros error. case_match; [apply keeps_ret|].
    apply keeps_try_except; [apply keeps_connect|].
    intros e. apply keeps_bind; [apply keeps_reset | intros; apply keeps_raise].
Qed.

Lemma keeps_semaphore_try_acquire : keeps Pool.semaphore_try_acquire.
Proof.
  intros p Hp. unfold Pool.semaphore_try_acquire.
  destruct (Semaphore.acquire_nonblocking _) as [b s]. by apply (idle_generation_same p).
Qed.

Lemma keeps_semaphore_acquire_blocking (timeout : option Z) :
  keeps (Pool.semaphore_acquire_blocking timeout).
Proof.
  intros p Hp. unfold Pool.semaphore_acquire_blocking.
  destruct (Semaphore.acquire_nonblocking _) as [[] s]; [by apply (idle_generation_same p)|].
  by destruct timeout.
Qed.

Lemma keeps_sockets_pop (E : Env) : keeps (Pool.sockets_pop E).
Proof.
  intros p Hp. unfold Pool.sockets_pop. destruct (elements (Pool.sockets p)); [done|].
  simpl. apply (idle_generation_subset p); try done. simpl.
  intros x [Hx _]%elem_of_difference. exact Hx.
Qed.

Lemma keeps_get_socket_from_pool (E : Env) (force : bool) (st : ReqState) :
  keeps (Pool.get_socket_from_pool E force st).
Proof.
  unfold Pool.get_socket_from_pool. apply keeps_bind; [apply keeps_get|]. intros p1.
  apply keeps_bind.
  { destruct force.
    - apply keeps_bind; [apply keeps_semaphore_try_acquire | intros; apply keeps_ret].
    - apply keeps_bind; [apply keeps_semaphore_acquire_blocking|].
      intros []; [apply keeps_ret | by intros p Hp]. }
  intros forced. apply keeps_bind.
  { apply keeps_try_except.
    - apply keeps_bind; [apply keeps_sockets_pop|]. intros popped.
      apply keeps_bind; [destruct popped; [apply keeps_check | apply keeps_connect]|].
      intros sock_info. apply keeps_bind; [by apply keeps_update|]. intros _.
      apply keeps_bind; [apply keeps_when, keeps_set_request_state|].
      intros; apply keeps_ret.
    - intros e. apply keeps_bind; [apply keeps_when, keeps_semaphore_release|].
      intros; apply keeps_raise. }
  intros sock_info. apply keeps_bind; [by apply keeps_update|]. intros; apply keeps_ret.
Qed.

Lemma keeps_get_socket (E : Env) (force : bool) : keeps (Pool.get_socket E force).
Proof.
  unfold Pool.get_socket. apply keeps_bind; [apply keeps_get|]. intros p0.
  apply keeps_bind; [apply keeps_when, keeps_reset|]. intros _.
  apply keeps_bind; [apply keeps_get_request_state|]. intros req_state.
  apply keeps_bind; [apply keeps_get|]. intros p1.
  destruct req_state as [| |r]; try apply keeps_get_socket_from_pool.
  case_match; [|apply keeps_get_socket_from_pool].
  apply keeps_bind; [apply keeps_check|]. intros checked.
  apply keeps_bind; [apply keeps_get|]. intros p2.
  apply keeps_bind; [apply keeps_when, keeps_set_request_state|]. intros _.
  apply keeps_bind; [by apply keeps_update|]. intros; apply keeps_ret.
Qed.

Lemma keeps_start_request (E : Env) : keeps (Pool.start_request E).
Proof.
  unfold Pool.start_request. apply keeps_bind; [apply keeps_get_request_state|]. intros st.
  apply keeps_bind; [apply keeps_when, keeps_set_request_state|]. intros _.
  apply keeps_modify. intros p. by apply idle_generation_same.
Qed.

(** [_return_socket] adds a socket only under the pool's own [pool_id]. *)
Lemma keeps_return_socket (r : Ref) : keeps (Pool._return_socket r).
Proof.
  intros p Hp. unfold Pool._return_socket, bind, get.
  destruct (negb _ && _) eqn:Hcond; simpl.
  - apply andb_true_iff in Hcond as [_ Hid%Z.eqb_eq].
    assert (Hadd : idle_generation (Pool.sockets_add r p)).
    { unfold Pool.sockets_add. case_bool_decide; [done|].
      intros r' Hr'. simpl in Hr'. change (Pool.deref (Pool.set_sockets _ p) r') with (Pool.deref p r').
      apply elem_of_union in Hr' as [->%elem_of_singleton|Hr']; [done | by apply Hp]. }
    destruct (SocketInfo.forced _).
    + by apply idle_generation_update.
    + by apply keeps_semaphore_release.
  - assert (Hclose : idle_generation (Pool.update r SocketInfo.close p))
      by (by apply idle_generation_update).
    destruct (SocketInfo.forced _).
    + by apply idle_generation_update.
    + by apply keeps_semaphore_release.
Qed.

Lemma keeps_end_request (E : Env) : keeps (Pool.end_request E).
Proof.
  unfold Pool.end_request. apply keeps_bind; [apply keeps_get|]. intros p.
  apply keeps_when. apply keeps_bind.
  { apply keeps_modify. intros q. by apply idle_generation_same. }
  intros _. apply keeps_when.
  apply keeps_bind; [apply keeps_get_request_state|]. intros sock_info.
  apply keeps_bind; [apply keeps_set_request_state|]. intros _.
  apply keeps_bind; [apply keeps_get|]. intros p'.
  destruct sock_info; try apply keeps_ret. apply keeps_when, keeps_return_socket.
Qed.

Lemma keeps_maybe_return_socket (E : Env) (st : ReqState) : keeps (Pool.maybe_return_socket E st).
Proof.
  unfold Pool.maybe_return_socket. apply keeps_bind; [apply keeps_get|]. intros p.
  destruct st as [| |r]; try apply keeps_ret.
  repeat case_match; try apply keeps_ret.
  - apply keeps_bind; [apply keeps_when, keeps_semaphore_release|]. intros; apply keeps_reset.
  - by apply keeps_update.
  - apply keeps_bind; [apply keeps_get_request_state|]. intros.
    apply keeps_when, keeps_semaphore_release.
  - apply keeps_bind; [apply keeps_get_request_state|]. intros.
    apply keeps_when, keeps_return_socket.
Qed.

Lemma keeps_exit (E : Env) (r : Ref) : keeps (Pool.SocketInfo___exit__ E r).
Proof.
  unfold Pool.SocketInfo___exit__. apply keeps_bind; [apply keeps_get|]. intros p.
  apply keeps_when, keeps_maybe_return_socket.
Qed.

Lemma keeps_on_thread_died (tid : Tid) : keeps (Pool.on_thread_died tid).
Proof.
  unfold Pool.on_thread_died. apply keeps_try_except; [|intros; apply keeps_ret].
  apply keeps_bind; [apply keeps_get|]. intros p.
  apply keeps_bind; [apply keeps_modify; intros q; by apply idle_generation_same|]. intros _.
  apply keeps_bind; [apply keeps_modify; intros q; by apply idle_generation_same|]. intros _.
  apply keeps_bind; [apply keeps_get|]. intros p'.
  case_match; try apply keeps_ret. apply keeps_when, keeps_return_socket.
Qed.

Lemma exec_idle_generation (E : Env) (op : PoolOp) (p : Pool.t) :
  idle_generation p → idle_generation (exec E op p).
Proof.
  destruct op; simpl.
  - apply keeps_reset.
  - apply keeps_get_socket.
  - apply keeps_start_request.
  - apply keeps_end_request.
  - apply keeps_maybe_return_socket.
  - apply keeps_exit.
  - apply keeps_on_thread_died.
  - by apply idle_generation_update.
  - by apply idle_generation_update.
Qed.

Lemma run_idle_generation (history : list (Env * PoolOp)) :
  ∀ p, idle_generation p → idle_generation (run history p).
Proof.
  induction history as [|[E op] history IH]; intros p Hp; [exact Hp|].
  simpl. apply IH. by apply exec_idle_generation.
Qed.

(** What [maybe_return_socket] puts into the idle set is open. *)
Lemma maybe_return_socket_adds_open (E : Env) (st : ReqState) (p : Pool.t) (r : Ref) :
  r ∈ Pool.sockets (exec E (OpMaybeReturnSocket st) p) → r ∉ Pool.sockets p →
  SocketInfo.closed (Pool.deref (exec E (OpMaybeReturnSocket st) p) r) = false.
Proof.
  unfold exec, Pool.maybe_return_socket, bind, get.
  destruct st as [| |r0]; simpl; try done.
  destruct (negb (Pool.pid p =? os_getpid E)).
  { destruct (negb _); simpl; unfold Pool.reset, modify; simpl;
      rewrite sockets_fold_update; simpl; intros Hin; by apply not_elem_of_empty in Hin. }
  destruct (SocketInfo.closed (Pool.deref p r0)) eqn:Hclosed.
  { destruct (SocketInfo.forced _); simpl; [done|].
    unfold when. destruct (Pool.sock_ne _ _ _); simpl; done. }
  simpl. unfold when. destruct (Pool.sock_ne _ _ _); simpl; [|done].
  unfold Pool._return_socket, bind, get, modify.
  destruct (negb _ && _); simpl.
  - unfold Pool.sockets_add at 1 2 3.
    case_bool_decide as Hex; simpl.
    + destruct (SocketInfo.forced _); simpl; done.
    + assert (Hr : r ∈ {[r0]} ∪ Pool.sockets p → r ∉ Pool.sockets p → r = r0).
      { intros [->%elem_of_singleton | Hin]%elem_of_union Hnot; done. }
      destruct (SocketInfo.forced _) eqn:Hf; simpl; intros Hin Hnot;
        rewrite (Hr Hin Hnot).
      * rewrite deref_update, decide_True by done. simpl.
        unfold Pool.sockets_add. rewrite bool_decide_eq_false_2 by done. exact Hclosed.
      * unfold Pool.sockets_add. rewrite bool_decide_eq_false_2 by done. exact Hclosed.
  - destruct (SocketInfo.forced _); simpl; done.
Qed.

(** C2, amended.  After any history of calls on a pool, every socket in
    the idle set carries the pool's current [pool_id]; and whatever
    [maybe_return_socket] adds to the idle set is not closed. *)
Theorem C2_idle_generation_invariant
    (E0 : Env) (pair : Address) (options : PoolOptions) (history : list (Env * PoolOp)) :
  let p := run history (Pool.__init__ E0 pair options) in
  idle_generation p
  ∧ ∀ (E : Env) (sock_info : ReqState) (r : Ref),
      r ∈ Pool.sockets (exec E (OpMaybeReturnSocket sock_info) p) →
      r ∉ Pool.sockets p →
      SocketInfo.closed (Pool.deref (exec E (OpMaybeReturnSocket sock_info) p) r) = false.
Proof.
  split.
  - apply run_idle_generation. by apply idle_generation_empty.
  - intros E sock_info r. apply maybe_return_socket_adds_open.
Qed.

(** The history of the counterexample keeps the [pool_id] half. *)
Lemma C2_idle_generation_invariant_witness :
  idle_generation (exec env1 OpEndRequest pool_with_closed_request_socket).
Proof.
  apply (C2_idle_generation_invariant env1 ("localhost", 27017) PoolOptions_default
           [(env1, OpStartRequest); (env1, OpGetSocket false); (env1, OpClose 1%positive);
            (env1, OpEndRequest)]).
Defined.

(* ===================================================================== *)
(** ** Proofs: frame of the resolver *)
(* ===================================================================== *)

Lemma same_attrs_refl (c : MongoClient.t) : same_attrs c c.
Proof. by repeat split. Qed.

Lemma same_attrs_trans (c1 c2 c3 : MongoClient.t) :
  same_attrs c1 c2 → same_attrs c2 c3 → same_attrs c1 c3.
Proof.
  unfold same_attrs. intros H12 H23.
  destruct H12 as (?&?&?&?&?&?&?&?&?&?&?), H23 as (?&?&?&?&?&?&?&?&?&?&?).
  repeat split; congruence.
Qed.

Lemma frames_ret {A} (a : A) : frames (ret a).
Proof. intros c. apply same_attrs_refl. Qed.

Lemma frames_raise {A} (e : Exn) : frames (@raise _ A e).
Proof. intros c. apply same_attrs_refl. Qed.

Lemma frames_block {A} : frames (@block _ A).
Proof. intros c. apply same_attrs_refl. Qed.

Lemma frames_get : frames get.
Proof. intros c. apply same_attrs_refl. Qed.

Lemma frames_bind {A B} (m : M MongoClient.t A) (k : A → M MongoClient.t B) :
  frames m → (∀ a, frames (k a)) → frames (bind m k).
Proof.
  intros Hm Hk c. unfold bind. specialize (Hm c).
  destruct (m c) as [[a|e|] c']; simpl in *; [|done|done].
  eapply same_attrs_trans; [exact Hm | apply Hk].
Qed.

Lemma frames_when (b : bool) (m : M MongoClient.t unit) : frames m → frames (when b m).
Proof. intros Hm. destruct b; [exact Hm | apply frames_ret]. Qed.

Lemma frames_try_except {A} (m : M MongoClient.t A) (handles : Exn → bool)
    (h : Exn → M MongoClient.t A) :
  frames m → (∀ e, frames (h e)) → frames (try_except m handles h).
Proof.
  intros Hm Hh c. unfold try_except. specialize (Hm c).
  destruct (m c) as [[a|e|] c']; simpl in *; [done| |done].
  destruct (handles e); [|done].
  eapply same_attrs_trans; [exact Hm | apply Hh].
Qed.

Lemma frames_try_finally {A} (m : M MongoClient.t A) (f : MongoClient.t → MongoClient.t) :
  frames m → (∀ c, same_attrs c (f c)) → frames (try_finally m f).
Proof.
  intros Hm Hf c. unfold try_finally. specialize (Hm c).
  destruct (m c) as [[a|e|] c']; simpl in *; [| |done];
    (eapply same_attrs_trans; [exact Hm | apply Hf]).
Qed.

Lemma frames_on_pool {A} (pr : positive) (m : M Pool.t A) : frames (MongoClient.on_pool pr m).
Proof.
  intros c. unfold MongoClient.on_pool. destruct (MongoClient.pools c !! pr) as [p|].
  - destruct (m p) as [r p']. simpl. by repeat split.
  - apply same_attrs_refl.
Qed.

Lemma frames_lift_sum {A} (x : Exn + A) : frames (MongoClient.lift_sum x).
Proof. destruct x; [apply frames_raise | apply frames_ret]. Qed.

Lemma frames_set_wire (w : list WireEvent) : frames (modify (MongoClient.set_wire w)).
Proof. intros c. by repeat split. Qed.

Lemma frames_create_pool (N : Net) (pair : Address) : frames (MongoClient.__create_pool N pair).
Proof. intros c. by repeat split. Qed.

Lemma frames_send_message (N : Net) (pr : positive) (r : Ref) (message : Bytes) :
  frames (MongoClient.send_message N pr r message).
Proof.
  unfold MongoClient.send_message. apply frames_bind; [apply frames_get|]. intros c.
  apply frames_bind; [apply frames_set_wire|]. intros _.
  case_match; [|apply frames_ret].
  apply frames_bind; [apply frames_on_pool | intros; apply frames_raise].
Qed.

Lemma frames_receive_message (N : Net) (pr : positive) (r : Ref) (sent : Bytes) :
  frames (MongoClient.receive_message N pr r sent).
Proof.
  unfold MongoClient.receive_message. apply frames_bind; [apply frames_get|]. intros c.
  case_match; [|apply frames_ret].
  apply frames_bind; [apply frames_on_pool | intros; apply frames_raise].
Qed.

Lemma frames_with_socket {A} (N : Net) (pr : positive) (r : Ref) (body : M MongoClient.t A) :
  frames body → frames (MongoClient.with_socket N pr r body).
Proof. intros Hb. apply frames_try_finally; [exact Hb|]. intros c. apply frames_on_pool. Qed.

Lemma frames_simple_command (N : Net) (pr : positive) (r : Ref) (dbname : string) (spec : Doc) :
  frames (MongoClient.__simple_command N pr r dbname spec).
Proof.
  unfold MongoClient.__simple_command.
  destruct (message_query N _ spec) as [[rqst_id msg] ?].
  apply frames_bind; [apply frames_send_message|]. intros _.
  apply frames_bind; [apply frames_receive_message|]. intros response.
  apply frames_bind; [apply frames_get|]. intros c.
  apply frames_bind; [apply frames_lift_sum|]. intros unpacked.
  repeat case_match; apply frames_raise || apply frames_ret.
Qed.





(* ===================================================================== *)
(** ** Proofs: the per-node probe *)
(* ===================================================================== *)

(** C1, as stated, fails: a direct client probing a node whose handshake
    says [arbiterOnly] gets the member back, with the single-address node
    set, and no [ConfigurationError]. *)
Lemma C1_direct_arbiter_counterexample :
  let c := direct_client ("arbiter", 27017) in
  MongoClient.__direct c = true
  ∧ ∃ member,
      fst (MongoClient.__try_node net1 (sys_getrecursionlimit net1) ("arbiter", 27017) c)
      = Ok (member, [("arbiter", 27017)])
      ∧ Member.is_arbiter member = true.
Proof.
  split; [reflexivity|].
  eexists. split; [vm_compute; reflexivity | reflexivity].
Qed.

(** C1, amended.  In direct mode a probe whose handshake succeeds returns
    the member built from the response, with the single-address node set,
    whatever the response says about [arbiterOnly]: the arbiter test is
    guarded by [not self.__direct] and cannot fire. *)
Theorem C1_direct_probe_returns_member
    (N : Net) (depth : nat) (node : Address) (c c1 c2 c3 : MongoClient.t)
    (connection_pool : positive) (sock_info : Ref) (response : Doc) (res_time : Z) :
  MongoClient.__direct c = true →
  MongoClient.__create_pool N node c = (Ok connection_pool, c1) →
  MongoClient.on_pool connection_pool (Pool.get_socket (os N) false) c1 = (Ok sock_info, c2) →
  MongoClient.with_socket N connection_pool sock_info
    (MongoClient.__simple_command N connection_pool sock_info "admin" [("ismaster", VInt 1)]) c2
    = (Ok (response, res_time), c3) →
  MongoClient.__try_node N (S depth) node c
  = (Ok (Member.__init__ node connection_pool response res_time, [node]), c3).
Proof.
  intros Hdirect Hpool Hsock Hcmd.
  assert (Hd3 : MongoClient.__direct c3 = true).
  { pose proof (frames_create_pool N node c) as F1. rewrite Hpool in F1.
    pose proof (frames_on_pool connection_pool (Pool.get_socket (os N) false) c1) as F2.
    rewrite Hsock in F2.
    pose proof (frames_with_socket N connection_pool sock_info _
                  (frames_simple_command N connection_pool sock_info "admin"
                     [("ismaster", VInt 1)]) c2) as F3.
    rewrite Hcmd in F3. simpl in *.
    destruct F1 as (_&_&_&_&D1&_), F2 as (_&_&_&_&D2&_), F3 as (_&_&_&_&D3&_). congruence. }
  simpl. unfold bind at 1. rewrite Hpool.
  unfold bind at 1. rewrite Hsock.
  unfold bind at 1. rewrite Hcmd.
  unfold bind, get. rewrite Hd3. simpl. rewrite andb_false_r. reflexivity.
Qed.

Lemma C1_direct_probe_returns_member_witness :
  ∃ c3,
    MongoClient.__try_node net1 1 ("arbiter", 27017) (direct_client ("arbiter", 27017))
    = (Ok (Member.__init__ ("arbiter", 27017) 1%positive arbiter_reply 5,
           [("arbiter", 27017)]), c3).
Proof.
  eexists.
  eapply (C1_direct_probe_returns_member net1 0 ("arbiter", 27017)
            (direct_client ("arbiter", 27017))).
  - reflexivity.
  - reflexivity.
  - vm_compute. reflexivity.
  - vm_compute. reflexivity.
Defined.

(* ===================================================================== *)
(** ** Proofs: mixed seed lists *)
(* ===================================================================== *)

(** C3, as stated, fails: with a reachable mongod and a reachable router
    in the candidate list, probed in that order, [__find_node] stops at the
    mongod and returns it; no [ConfigurationError] is raised. *)
Lemma C3_mongod_first_counterexample :
  let mongod := ("mongod", 27017) in
  let router := ("router", 27017) in
  let c := seed_list_client [mongod; router] in
  let limit := sys_getrecursionlimit net1 in
  MongoClient.__direct c = false
  ∧ MongoClient.candidates c = [mongod; router]
  ∧ (∃ m nodes, fst (MongoClient.__try_node net1 limit mongod c) = Ok (m, nodes)
                ∧ Member.is_mongos m = false)
  ∧ (∃ m nodes, fst (MongoClient.__try_node net1 limit router c) = Ok (m, nodes)
                ∧ Member.is_mongos m = true)
  ∧ ∃ member nodes, fst (MongoClient.__find_node net1 c) = Ok (member, nodes)
                    ∧ Member.host member = mongod.
Proof.
  split; [reflexivity|]. split; [reflexivity|].
  split; [do 2 eexists; split; [vm_compute; reflexivity | reflexivity]|].
  split; [do 2 eexists; split; [vm_compute; reflexivity | reflexivity]|].
  do 2 eexists. split; [vm_compute; reflexivity | reflexivity].
Qed.

(** The loop over a list that ends without a choice continues on what
    follows with the errors and routers gathered so far. *)
Lemma find_node_loop_app (N : Net) (pre rest : list Address) :
  ∀ errors mongos c errors' mongos' c',
    MongoClient.find_node_loop N pre errors mongos c = (Ok (None, errors', mongos'), c') →
    MongoClient.find_node_loop N (pre ++ rest)%list errors mongos c
    = MongoClient.find_node_loop N rest errors' mongos' c'.
Proof.
  induction pre as [|candidate pre IH]; intros errors mongos c errors' mongos' c' Hpre.
  - simpl in *. unfold ret in Hpre. by simplify_eq.
  - simpl in *.
    destruct (MongoClient.__try_node N _ candidate c) as [[[member nodes]|e|] c1].
    + destruct (Member.is_mongos member && _); [by apply IH|].
      destruct (negb _); discriminate.
    + destruct (_ || _); [discriminate | by apply IH].
    + discriminate.
Qed.

(** C3, amended.  What the first candidate whose probe returns a member
    that is not a router decides, whatever follows it in the list.  If
    every candidate probed before it was a router or failed without a
    fatal error (the loop over them ends without a choice) and at least
    one of them was a router, [__find_node] raises the mixed-seed-list
    [ConfigurationError].  If none of them was a router, so that this
    member is the first one found, the loop stops there and [__find_node]
    returns it without error. *)
Theorem C3_first_member_decides
    (N : Net) (c c1 c2 : MongoClient.t) (pre rest : list Address) (candidate : Address)
    (errors : list string) (mongos_candidates : list Member.t)
    (member : Member.t) (nodes : list Address) :
  MongoClient.__member c = None →
  MongoClient.candidates c = (pre ++ candidate :: rest)%list →
  MongoClient.find_node_loop N pre [] [] c = (Ok (None, errors, mongos_candidates), c1) →
  MongoClient.__try_node N (sys_getrecursionlimit N) candidate c1 = (Ok (member, nodes), c2) →
  Member.is_mongos member = false →
  (mongos_candidates ≠ [] → MongoClient.__find_node N c = (Raise mixed_error, c2))
  ∧ (mongos_candidates = [] → MongoClient.__find_node N c = (Ok (member, nodes), c2)).
Proof.
  intros Hmember Hcands Hpre Hprobe Hmongod.
  assert (Hloop : MongoClient.find_node_loop N (MongoClient.candidates c) [] [] c
                  = if negb (length mongos_candidates =? 0)%nat
                    then (Raise mixed_error, c2)
                    else (Ok (Some (member, nodes), errors, mongos_candidates), c2)).
  { rewrite Hcands, (find_node_loop_app N pre (candidate :: rest) _ _ _ _ _ _ Hpre).
    simpl. by rewrite Hprobe, Hmongod. }
  unfold MongoClient.__find_node, bind, get. rewrite Hmember, Hloop. split.
  - intros Hrouters. by destruct mongos_candidates.
  - by intros ->.
Qed.

(** The same two servers as in the counterexample, in both orders. *)
Lemma C3_first_member_decides_witness :
  (∃ c2, MongoClient.__find_node net1 (seed_list_client [("router", 27017); ("mongod", 27017)])
         = (Raise mixed_error, c2))
  ∧ (∃ member nodes c2,
       MongoClient.__find_node net1 (seed_list_client [("mongod", 27017); ("router", 27017)])
       = (Ok (member, nodes), c2) ∧ Member.host member = ("mongod", 27017)).
Proof.
  split.
  - eexists.
    eapply (C3_first_member_decides net1
              (seed_list_client [("router", 27017); ("mongod", 27017)]) _ _
              [("router", 27017)] [] ("mongod", 27017)).
    + reflexivity.
    + reflexivity.
    + vm_compute. reflexivity.
    + vm_compute. reflexivity.
    + reflexivity.
    + discriminate.
  - do 3 eexists. split.
    + eapply (C3_first_member_decides net1
                (seed_list_client [("mongod", 27017); ("router", 27017)]) _ _
                [] [("router", 27017)] ("mongod", 27017) [] []).
      * reflexivity.
      * reflexivity.
      * reflexivity.
      * vm_compute. reflexivity.
      * reflexivity.
      * reflexivity.
    + reflexivity.
Defined.

(* ===================================================================== *)
(** ** Proofs: resolution and disconnect *)
(* ===================================================================== *)


(** [disconnect] always returns. *)
Lemma disconnect_returns (N : Net) (c : MongoClient.t) :
  member_pool_allocated c → fst (MongoClient.disconnect N c) = Ok tt.
Proof.
  intros Hpool. unfold MongoClient.disconnect, bind, get, modify. simpl.
  destruct (MongoClient.__member c) as [m|] eqn:Hm; simpl; [|done].
  unfold MongoClient.on_pool. simpl.
  destruct (Hpool m Hm) as [p ->]. reflexivity.
Qed.




(* ===================================================================== *)
(** ** Proofs: sending *)
(* ===================================================================== *)

Lemma on_pool_wire {A} (pr : positive) (m : M Pool.t A) (c : MongoClient.t) :
  MongoClient.wire (snd (MongoClient.on_pool pr m c)) = MongoClient.wire c.
Proof.
  unfold MongoClient.on_pool. destruct (MongoClient.pools c !! pr) as [p|]; [|done].
  by destruct (m p).
Qed.

(** C6.  When [_send_message] is called with [check_primary] true and
    [with_last_error] false and the member it gets from [__ensure_member]
    is not primary, it raises [AutoReconnect("not master")] in the very
    state [__ensure_member] left: nothing is sent.  With a member already
    cached, that state is the state of the call, so the wire log is
    untouched. *)
Theorem C6_not_master_before_send
    (N : Net) (c c1 : MongoClient.t) (member : Member.t) (message : Message) (command : bool) :
  MongoClient.__ensure_member N c = (Ok member, c1) →
  MongoClient.is_primary c1 = false →
  MongoClient._send_message N message false command true c
  = (Raise (AutoReconnect "not master"), c1)
  ∧ (is_Some (MongoClient.__member c) →
       c1 = c
       ∧ MongoClient.wire (snd (MongoClient._send_message N message false command true c))
         = MongoClient.wire c).
Proof.
  intros Hmember Hprimary.
  assert (Hsend : MongoClient._send_message N message false command true c
                  = (Raise (AutoReconnect "not master"), c1)).
  { unfold MongoClient._send_message. unfold bind at 1. rewrite Hmember.
    unfold bind at 1, get. rewrite Hprimary. reflexivity. }
  split; [exact Hsend|].
  intros [m Hm]. unfold MongoClient.__ensure_member in Hmember. rewrite Hm in Hmember.
  assert (c1 = c) by congruence. subst c1. by rewrite Hsend.
Qed.

Lemma C6_not_master_before_send_witness :
  MongoClient._send_message net1 (Msg2 7 "insert") false false true secondary_client
  = (Raise (AutoReconnect "not master"), secondary_client).
Proof.
  eapply (C6_not_master_before_send net1 secondary_client secondary_client).
  - vm_compute. reflexivity.
  - reflexivity.
Defined.

(** C7, as stated, fails: an oversized document sent unacknowledged to a
    member that is not primary raises [AutoReconnect], not
    [DocumentTooLarge]. *)
Lemma C7_not_master_first_counterexample :
  let oversized := Msg3 7 "insert" (MongoClient.max_bson_size secondary_client + 1) in
  MongoClient.max_bson_size secondary_client = 16777216
  ∧ fst (MongoClient._send_message net1 oversized false false true secondary_client)
    = Raise (AutoReconnect "not master").
Proof. split; [reflexivity|]. vm_compute. reflexivity. Qed.

(** C7, amended.  [__check_bson_size] raises [DocumentTooLarge] for a
    three-element message whose [max_doc_size] exceeds the member's
    [max_bson_size], and returns [(request_id, data)] for a two-element
    message or a [max_doc_size] within the limit.  In [_send_message], once a
    member is resolved, the not-primary test passes and a socket is checked
    out, an oversized message raises [DocumentTooLarge] and nothing is
    sent after the checkout: the wire log is the one [__socket] left. *)
Theorem C7_document_too_large
    (N : Net) (c c1 c2 : MongoClient.t) (member : Member.t) (sock_info : Ref)
    (request_id : Z) (data : Bytes) (max_doc_size : Z)
    (with_last_error command check_primary : bool) :
  MongoClient.__ensure_member N c = (Ok member, c1) →
  check_primary && negb with_last_error && negb (MongoClient.is_primary c1) = false →
  MongoClient.__socket N member c1 = (Ok sock_info, c2) →
  MongoClient.max_bson_size c2 < max_doc_size →
  let sent := MongoClient._send_message N (Msg3 request_id data max_doc_size)
                with_last_error command check_primary c in
  fst sent = Raise (DocumentTooLarge max_doc_size (MongoClient.max_bson_size c2))
  ∧ MongoClient.wire (snd sent) = MongoClient.wire c2
  ∧ (∀ c0 rid d, MongoClient.__check_bson_size (Msg2 rid d) c0 = (Ok (rid, d), c0))
  ∧ (∀ c0 rid d size, size ≤ MongoClient.max_bson_size c0 →
       MongoClient.__check_bson_size (Msg3 rid d size) c0 = (Ok (rid, d), c0))
  ∧ (∀ c0 rid d size, MongoClient.max_bson_size c0 < size →
       MongoClient.__check_bson_size (Msg3 rid d size) c0
       = (Raise (DocumentTooLarge size (MongoClient.max_bson_size c0)), c0)).
Proof.
  intros Hmember Hgate Hsocket Hsize sent.
  assert (Hbig : ∀ c0 rid d size, MongoClient.max_bson_size c0 < size →
            MongoClient.__check_bson_size (Msg3 rid d size) c0
            = (Raise (DocumentTooLarge size (MongoClient.max_bson_size c0)), c0)).
  { intros c0 rid d size Hlt. unfold MongoClient.__check_bson_size, bind, get.
    destruct (Z.ltb_spec (MongoClient.max_bson_size c0) size); [reflexivity | lia]. }
  assert (Hsent : sent =
            (Raise (DocumentTooLarge max_doc_size (MongoClient.max_bson_size c2)),
             snd (MongoClient.on_pool (Member.pool member)
                    (Pool.SocketInfo___exit__ (os N) sock_info) c2))).
  { unfold sent, MongoClient._send_message. unfold bind at 1. rewrite Hmember.
    unfold bind at 1, get. rewrite Hgate.
    unfold bind at 1. rewrite Hsocket.
    unfold MongoClient.with_socket, try_finally, try_except.
    unfold bind at 1. rewrite (Hbig c2 request_id data max_doc_size Hsize).
    reflexivity. }
  split; [by rewrite Hsent|].
  split; [rewrite Hsent; apply on_pool_wire|].
  split; [reflexivity|].
  split; [|exact Hbig].
  intros c0 rid d size Hle. unfold MongoClient.__check_bson_size, bind, get.
  destruct (Z.ltb_spec (MongoClient.max_bson_size c0) size); [lia | reflexivity].
Qed.

Lemma C7_document_too_large_witness :
  let sent := MongoClient._send_message net1 (Msg3 7 "insert" 16777217) true false true
                standalone_client in
  fst sent = Raise (DocumentTooLarge 16777217 16777216)
  ∧ MongoClient.wire (snd sent) = MongoClient.wire standalone_client.
Proof.
  destruct (C7_document_too_large net1 standalone_client standalone_client
              (snd (MongoClient.__socket net1
                      (Member.__init__ ("mongod", 27017) 1%positive mongod_reply 5)
                      standalone_client))
              (Member.__init__ ("mongod", 27017) 1%positive mongod_reply 5)
              1%positive 7 "insert" 16777217 true false true)
    as (Hraise & Hwire & _).
  - vm_compute. reflexivity.
  - reflexivity.
  - vm_compute. reflexivity.
  - vm_compute. reflexivity.
  - split; [exact Hraise|]. rewrite Hwire. vm_compute. reflexivity.
Defined.

(* ===================================================================== *)
(** ** Proofs: the lastError reply *)
(* ===================================================================== *)

(** C5, as stated, fails: a reply whose code is 11000 and whose [err]
    starts with "not master" raises [AutoReconnect], not
    [DuplicateKeyError]: the "not master" test comes first. *)
Lemma C5_not_master_wins_counterexample :
  let result := [("err", VStr "not master"); ("code", VInt 11000)] in
  let N := example_net (λ _, result) in
  doc_get "code" result = Some (VInt 11000)
  ∧ fst (MongoClient.__check_response_to_last_error N "reply" false standalone_client)
    = Raise (AutoReconnect "not master")
  ∧ MongoClient.__member
      (snd (MongoClient.__check_response_to_last_error N "reply" false standalone_client))
    = None.
Proof. split; [reflexivity|]. split; vm_compute; reflexivity. Qed.

Lemma value_eqb_str_eq (v : Value) (s : string) : value_eqb_str v s = true → v = VStr s.
Proof. destruct v; simpl; try done. by intros ->%String.eqb_eq. Qed.

Lemma find_errobj_err (error_msg : string) (errobjs : list Value) (errobj : Doc) :
  MongoClient.find_errobj error_msg errobjs = inr (Some errobj) →
  doc_get "err" errobj = Some (VStr error_msg).
Proof.
  induction errobjs as [|v rest IH]; simpl; [done|].
  destruct v as [| | | | |d]; try done.
  destruct (doc_get "err" d) as [err|] eqn:Herr; [|exact IH].
  destruct (value_eqb_str err error_msg) eqn:Heq; [|exact IH].
  intros [= <-]. rewrite Herr. f_equal. by apply value_eqb_str_eq.
Qed.

Lemma is_duplicate_key_code_spec (code : option Value) :
  is_duplicate_key_code code =
  match code with
  | Some (VInt n) => (n =? 11000) || (n =? 11001) || (n =? 12582)
  | _ => false
  end.
Proof.
  destruct code as [[| |n| | |]|]; try reflexivity. unfold is_duplicate_key_code.
  case_bool_decide as Hin.
  - rewrite !elem_of_cons in Hin. destruct Hin as [->|[->|[->|Hin]]]; try reflexivity.
    by apply elem_of_nil in Hin.
  - rewrite !elem_of_cons in Hin.
    destruct (Z.eqb_spec n 11000); [tauto|].
    destruct (Z.eqb_spec n 11001); [tauto|].
    destruct (Z.eqb_spec n 12582); [tauto|]. reflexivity.
Qed.

(** C5, amended.  For a lastError reply (not a command reply) that carries
    one document and passes the command-response check: a null [err] yields
    the document and changes nothing; an [err] that starts with "not master"
    makes the client [disconnect] and raise [AutoReconnect], whatever the
    code; any other [err] string raises [DuplicateKeyError] when the code of
    the details document is 11000, 11001 or 12582 and [OperationFailure]
    otherwise, the client unchanged. *)
Theorem C5_last_error_translation
    (N : Net) (c : MongoClient.t) (response : Bytes) (unpacked : Unpacked)
    (result : Doc) (others : list Doc) :
  _unpack_response N response = inr unpacked →
  number_returned unpacked = 1 →
  data unpacked = result :: others →
  _check_command_response N result = None →
  member_pool_allocated c →
  let checked := MongoClient.__check_response_to_last_error N response false c in
  (doc_get "err" result = Some VNull → checked = (Ok result, c))
  ∧ (∀ error_msg,
       doc_get "err" result = Some (VStr error_msg) →
       MongoClient.startswith "not master" error_msg = true →
       checked = (Raise (AutoReconnect error_msg), snd (MongoClient.disconnect N c)))
  ∧ (∀ error_msg details,
       doc_get "err" result = Some (VStr error_msg) →
       MongoClient.startswith "not master" error_msg = false →
       error_details result error_msg details →
       checked =
       (Raise (if is_duplicate_key_code (doc_get "code" details)
               then DuplicateKeyError error_msg (doc_get "code" details)
               else OperationFailure error_msg (doc_get "code" details)), c)).
Proof.
  intros Hunpack Hone Hdata Hcheck Hpool checked.
  assert (Hstart : checked =
            match default (VStr "") (doc_get "err" result) with
            | VNull => (Ok result, c)
            | VStr error_msg =>
                (if MongoClient.startswith "not master" error_msg then
                  bind (MongoClient.disconnect N) (λ _, raise (AutoReconnect error_msg))
                else
                  bind
                    (match doc_get "errObjects" result with
                     | None => ret result
                     | Some errobjs =>
                         bind (MongoClient.lift_sum (py_iter errobjs))
                           (λ items,
                              bind (MongoClient.lift_sum (MongoClient.find_errobj error_msg items))
                                   (λ found, ret (default result found)))
                     end)
                    (λ details,
                       match doc_get "err" details with
                       | None => raise (KeyError "err")
                       | Some err =>
                           if (match doc_get "code" details with
                               | Some (VInt n) => (n =? 11000) || (n =? 11001) || (n =? 12582)
                               | _ => false
                               end)
                           then raise (DuplicateKeyError
                                         (match err with VStr m => m | _ => "" end)
                                         (doc_get "code" details))
                           else raise (OperationFailure
                                         (match err with VStr m => m | _ => "" end)
                                         (doc_get "code" details))
                       end)) c
            | _ => (Raise AttributeError, c)
            end).
  { unfold checked, MongoClient.__check_response_to_last_error.
    unfold bind at 1. rewrite Hunpack. simpl. rewrite Hone, Hdata, Hcheck. simpl.
    destruct (default (VStr "") (doc_get "err" result)); reflexivity. }
  split; [intros Herr; by rewrite Hstart, Herr|].
  split.
  - intros error_msg Herr Hnm. rewrite Hstart, Herr. simpl. rewrite Hnm.
    unfold bind. pose proof (disconnect_returns N c Hpool) as Hd.
    destruct (MongoClient.disconnect N c) as [o c']. simpl in Hd. by subst o.
  - intros error_msg details Herr Hnm Hdetails. rewrite Hstart, Herr. simpl. rewrite Hnm.
    rewrite is_duplicate_key_code_spec.
    destruct Hdetails as [[Hnone ->] | (errobjs & items & found & Hobjs & Hitems & Hfound & ->)].
    + rewrite Hnone. unfold bind, ret. rewrite Herr.
      destruct (match doc_get "code" result with Some (VInt n) => _ | _ => false end);
        reflexivity.
    + rewrite Hobjs. unfold bind at 1. unfold bind at 1. rewrite Hitems. simpl.
      unfold bind at 1. rewrite Hfound. simpl.
      assert (Herr' : doc_get "err" (default result found) = Some (VStr error_msg)).
      { destruct found as [errobj|]; simpl; [by apply (find_errobj_err _ items) | exact Herr]. }
      rewrite Herr'.
      destruct (match doc_get "code" (default result found) with
                | Some (VInt n) => _ | _ => false end); reflexivity.
Qed.

(** A duplicate-key reply whose code sits in an [errObjects] entry, as a
    router reports it. *)
Lemma C5_last_error_translation_witness :
  let errobj := [("err", VStr "E11000 duplicate key"); ("code", VInt 11000)] in
  let result := [("err", VStr "E11000 duplicate key"); ("errObjects", VArr [VDoc errobj])] in
  MongoClient.__check_response_to_last_error (example_net (λ _, result)) "reply" false
    standalone_client
  = (Raise (DuplicateKeyError "E11000 duplicate key" (Some (VInt 11000))), standalone_client).
Proof.
  intros errobj result.
  assert (Hpool : member_pool_allocated standalone_client).
  { intros m [= <-]. by eexists. }
  pose proof (C5_last_error_translation (example_net (λ _, result)) standalone_client "reply"
                {| number_returned := 1; data := [result] |} result []
                eq_refl eq_refl eq_refl eq_refl Hpool) as H.
  cbv zeta in H. destruct H as (_ & _ & Hother).
  apply (Hother "E11000 duplicate key" errobj eq_refl eq_refl).
  right. exists (VArr [VDoc errobj]), [VDoc errobj], (Some errobj). repeat split; reflexivity.
Defined.

(* ===================================================================== *)
(** ** Proofs: the request bookkeeping is maintained *)
(* ===================================================================== *)

Lemma rebinds_same (p p' : Pool.t) :
  Pool._request_counter p' = Pool._request_counter p →
  Pool._tid_to_sock p' = Pool._tid_to_sock p →
  Pool._ident p' = Pool._ident p →
  rebinds p p'.
Proof.
  intros Hc Ht Hi. split; [exact Hc|]. split.
  - intros t. left. by rewrite Ht.
  - intros t Hin. left. by rewrite <- Hi.
Qed.

Lemma rebinds_refl (p : Pool.t) : rebinds p p.
Proof. by apply rebinds_same. Qed.

Lemma bound_rebinds (t : Tid) (p p' : Pool.t) : bound t p → rebinds p p' → bound t p'.
Proof.
  intros Hb (_ & Ht & _). destruct (Ht t) as [Heq | [_ [x Hx]]].
  - destruct Hb as (st & Hst & Hne). exists st. by rewrite Heq.
  - by exists (ReqSock x).
Qed.

Lemma rebinds_trans (p1 p2 p3 : Pool.t) : rebinds p1 p2 → rebinds p2 p3 → rebinds p1 p3.
Proof.
  intros H12 H23. pose proof H12 as (Hc1 & Ht1 & Hi1). pose proof H23 as (Hc2 & Ht2 & Hi2).
  split; [congruence|]. split.
  - intros t. destruct (Ht2 t) as [Heq2 | [Hb2 Hx2]].
    + rewrite Heq2. apply Ht1.
    + right. split; [|exact Hx2].
      destruct (Ht1 t) as [Heq1 | [Hb1 _]]; [|exact Hb1].
      destruct Hb2 as (st & Hst & Hne). exists st. by rewrite <- Heq1.
  - intros t Hin. destruct (Hi2 t Hin) as [Hin2 | Hb2]; [by apply Hi1|].
    right. destruct (Ht1 t) as [Heq1 | [Hb1 _]]; [|exact Hb1].
    destruct Hb2 as (st & Hst & Hne). exists st. by rewrite <- Heq1.
Qed.

Lemma stable_true : stable (λ _, True).
Proof. done. Qed.

Lemma stable_bound (t : Tid) : stable (bound t).
Proof. intros p p'. apply bound_rebinds. Qed.

Lemma request_consistent_rebinds (tid : Tid) (p p' : Pool.t) :
  rebinds p p' → request_consistent tid p → request_consistent tid p'.
Proof.
  intros (Hc & Ht & Hi) (Hnn & Hzero & Hpos).
  assert (Hget : Pool.Counter_get tid p' = Pool.Counter_get tid p)
    by (unfold Pool.Counter_get; by rewrite Hc).
  unfold request_consistent. rewrite Hget. split; [exact Hnn|]. split.
  - intros H0. destruct (Hzero H0) as [Hnone Hwatch].
    assert (Hnb : ¬ bound tid p) by (intros (st & Hst & _); congruence).
    split.
    + destruct (Ht tid) as [Heq | [Hb _]]; [congruence | done].
    + intros Hin. destruct (Hi tid Hin); done.
  - intros Hgt. apply (bound_rebinds tid p p'); [by apply Hpos | done].
Qed.

Lemma steps_ret {A} (P : Pool.t → Prop) (a : A) : steps P (ret a).
Proof. intros p _. apply rebinds_refl. Qed.

Lemma steps_raise {A} (P : Pool.t → Prop) (e : Exn) : steps P (@raise _ A e).
Proof. intros p _. apply rebinds_refl. Qed.

Lemma steps_get (P : Pool.t → Prop) : steps P get.
Proof. intros p _. apply rebinds_refl. Qed.

Lemma steps_bind {A B} (P : Pool.t → Prop) (m : M Pool.t A) (k : A → M Pool.t B) :
  stable P → steps P m → (∀ a, steps P (k a)) → steps P (bind m k).
Proof.
  intros HP Hm Hk p Hp. unfold bind. specialize (Hm p Hp).
  destruct (m p) as [[a|e|] p']; simpl in *; [|done|done].
  eapply rebinds_trans; [exact Hm|]. apply Hk. by apply (HP p).
Qed.

Lemma steps_when (P : Pool.t → Prop) (b : bool) (m : M Pool.t unit) :
  steps P m → steps P (when b m).
Proof. intros Hm. destruct b; [exact Hm | apply steps_ret]. Qed.

Lemma steps_try_except {A} (P : Pool.t → Prop) (m : M Pool.t A) (handles : Exn → bool)
    (h : Exn → M Pool.t A) :
  stable P → steps P m → (∀ e, steps P (h e)) → steps P (try_except m handles h).
Proof.
  intros HP Hm Hh p Hp. unfold try_except. specialize (Hm p Hp).
  destruct (m p) as [[a|e|] p']; simpl in *; [done| |done].
  destruct (handles e); [|done].
  eapply rebinds_trans; [exact Hm|]. apply Hh. by apply (HP p).
Qed.

(** A state change that leaves the request attributes alone. *)
Lemma steps_modify_same (P : Pool.t → Prop) (f : Pool.t → Pool.t) :
  (∀ p, Pool._request_counter (f p) = Pool._request_counter p
        ∧ Pool._tid_to_sock (f p) = Pool._tid_to_sock p
        ∧ Pool._ident (f p) = Pool._ident p) →
  steps P (modify f).
Proof. intros Hf p _. destruct (Hf p) as (?&?&?). by apply rebinds_same. Qed.

Lemma requests_fold_update (f : SocketInfo.t → SocketInfo.t) (l : list Ref) (p : Pool.t) :
  let p' := foldr (λ r q, Pool.update r f q) p l in
  Pool._request_counter p' = Pool._request_counter p
  ∧ Pool._tid_to_sock p' = Pool._tid_to_sock p
  ∧ Pool._ident p' = Pool._ident p.
Proof. induction l as [|r l IH]; [done | exact IH]. Qed.

Lemma steps_reset (P : Pool.t → Prop) (E : Env) : steps P (Pool.reset E).
Proof.
  apply steps_modify_same. intros p.
  apply (requests_fold_update SocketInfo.close (elements (Pool.sockets p))
           (Pool.set_sockets ∅
              (Pool.set_pid (os_getpid E) (Pool.set_pool_id (Pool.pool_id p + 1) p)))).
Qed.

Lemma steps_update (P : Pool.t → Prop) (r : Ref) (f : SocketInfo.t → SocketInfo.t) :
  steps P (modify (Pool.update r f)).
Proof. by apply steps_modify_same. Qed.

Lemma steps_semaphore_release (P : Pool.t → Prop) : steps P Pool.semaphore_release.
Proof. by apply steps_modify_same. Qed.

Lemma steps_connect (P : Pool.t → Prop) (E : Env) : steps P (Pool.connect E).
Proof.
  intros p _. unfold Pool.connect. destruct (connect_fails E (Pool.pair p));
    by apply rebinds_same.
Qed.

Lemma steps_check (P : Pool.t → Prop) (E : Env) (r : Ref) :
  stable P → steps P (Pool._check E r).
Proof.
  intros HP. unfold Pool._check. apply steps_bind; [done | apply steps_get|]. intros p.
  apply steps_bind; [done | |].
  - repeat case_match; try apply steps_ret;
      (apply steps_bind; [done | apply steps_update | intros; apply steps_ret]).
  - intros error. case_match; [apply steps_ret|].
    apply steps_try_except; [done | apply steps_connect|].
    intros e. apply steps_bind; [done | apply steps_reset | intros; apply steps_raise].
Qed.

Lemma steps_return_socket (P : Pool.t → Prop) (r : Ref) : steps P (Pool._return_socket r).
Proof.
  intros p _. apply rebinds_same;
    unfold Pool._return_socket, bind, get, modify, Pool.semaphore_release, modify;
    (destruct (negb _ && _); simpl;
     [unfold Pool.sockets_add; destruct (bool_decide _); simpl|];
     destruct (SocketInfo.forced _); reflexivity).
Qed.

(** A thread in a request binds the socket it was given. *)
Lemma steps_set_request_state (E : Env) (x : Ref) :
  steps (bound (ident_get E)) (Pool._set_request_state E (ReqSock x)).
Proof.
  intros p Hb. unfold Pool._set_request_state, modify. simpl.
  assert (Hrb : rebinds p (Pool.set_tid_to_sock
                             (<[ident_get E := ReqSock x]> (Pool._tid_to_sock p)) p)).
  { split; [done|]. split.
    - intros t. simpl. destruct (decide (ident_get E = t)) as [<-|Hne].
      + right. split; [exact Hb|]. exists x. by rewrite lookup_insert_eq.
      + left. by rewrite lookup_insert_ne.
    - intros t Hin. by left. }
  case_bool_decide; [exact Hrb|].
  destruct Hrb as (Hc & Ht & _). split; [exact Hc|]. split; [exact Ht|].
  intros t. simpl. intros [->%elem_of_singleton | Hin]%elem_of_union; [by right | by left].
Qed.

Lemma steps_semaphore_try_acquire (P : Pool.t → Prop) : steps P Pool.semaphore_try_acquire.
Proof.
  intros p _. unfold Pool.semaphore_try_acquire.
  destruct (Semaphore.acquire_nonblocking _) as [b s]. by apply rebinds_same.
Qed.

Lemma steps_semaphore_acquire_blocking (P : Pool.t → Prop) (timeout : option Z) :
  steps P (Pool.semaphore_acquire_blocking timeout).
Proof.
  intros p _. unfold Pool.semaphore_acquire_blocking.
  destruct (Semaphore.acquire_nonblocking _) as [[] s]; [by apply rebinds_same|].
  destruct timeout; apply rebinds_refl.
Qed.

Lemma steps_sockets_pop (P : Pool.t → Prop) (E : Env) : steps P (Pool.sockets_pop E).
Proof.
  intros p _. unfold Pool.sockets_pop. destruct (elements (Pool.sockets p));
    by apply rebinds_same.
Qed.

(** [get_socket_from_pool] binds the socket only when told the thread has
    the placeholder; [bind_it] says whether this is licensed. *)
Lemma steps_get_socket_from_pool (P : Pool.t → Prop) (E : Env) (force : bool) (st : ReqState) :
  stable P →
  (st = NO_SOCKET_YET → ∀ p, P p → bound (ident_get E) p) →
  steps P (Pool.get_socket_from_pool E force st).
Proof.
  intros HP Hlicense. unfold Pool.get_socket_from_pool.
  apply steps_bind; [done | apply steps_get|]. intros p1.
  apply steps_bind; [done | |].
  { destruct force.
    - apply steps_bind; [done | apply steps_semaphore_try_acquire | intros; apply steps_ret].
    - apply steps_bind; [done | apply steps_semaphore_acquire_blocking|].
      intros []; [apply steps_ret | intros p _; apply rebinds_refl]. }
  intros forced. apply steps_bind; [done | |].
  { apply steps_try_except; [done | |].
    - apply steps_bind; [done | apply steps_sockets_pop|]. intros popped.
      apply steps_bind; [done | destruct popped; [by apply steps_check | apply steps_connect]|].
      intros sock_info. apply steps_bind; [done | apply steps_update|]. intros _.
      apply steps_bind; [done | | intros; apply steps_ret].
      case_bool_decide as Hst; [|apply steps_ret]. simpl.
      intros p Hp. apply steps_set_request_state. by apply Hlicense.
    - intros e. apply steps_bind; [done | apply steps_when, steps_semaphore_release|].
      intros; apply steps_raise. }
  intros sock_info. apply steps_bind; [done | apply steps_update | intros; apply steps_ret].
Qed.

Lemma get_socket_rebinds (E : Env) (force : bool) (p : Pool.t) :
  rebinds p (snd (Pool.get_socket E force p)).
Proof.
  unfold Pool.get_socket. unfold bind at 1, get. unfold bind at 1.
  pose proof (steps_when (λ _, True) (negb (Pool.pid p =? os_getpid E)) (Pool.reset E)
                (steps_reset _ E) p I) as Hreset.
  destruct (when _ (Pool.reset E) p) as [[[]|e|] pa]; simpl in *; [|done|done].
  eapply rebinds_trans; [exact Hreset|].
  unfold bind at 1, Pool._get_request_state. unfold bind at 1, get.
  destruct (Pool._tid_to_sock pa !! ident_get E) as [[| |r]|] eqn:Hst; simpl.
  - apply (steps_get_socket_from_pool (λ _, True)); done.
  - apply (steps_get_socket_from_pool (bound (ident_get E)));
      [apply stable_bound | done | by exists NO_SOCKET_YET].
  - assert (Hb : bound (ident_get E) pa) by (by exists (ReqSock r)).
    revert Hb. generalize pa. clear.
    apply (steps_bind (bound (ident_get E)));
      [apply stable_bound | apply steps_check, stable_bound|].
    intros checked. apply steps_bind; [apply stable_bound | apply steps_get|]. intros p2.
    apply steps_bind; [apply stable_bound | apply steps_when, steps_set_request_state|].
    intros _. apply steps_bind; [apply stable_bound | apply steps_update|].
    intros; apply steps_ret.
  - apply (steps_get_socket_from_pool (λ _, True)); done.
Qed.

Lemma maybe_return_socket_rebinds (E : Env) (st : ReqState) (p : Pool.t) :
  rebinds p (snd (Pool.maybe_return_socket E st p)).
Proof.
  assert (H : steps (λ _, True) (Pool.maybe_return_socket E st)); [|by apply H].
  clear p. unfold Pool.maybe_return_socket.
  apply steps_bind; [done | apply steps_get|]. intros p.
  destruct st as [| |r]; try apply steps_ret.
  repeat case_match; try apply steps_ret.
  - apply steps_bind; [done | apply steps_when, steps_semaphore_release|].
    intros; apply steps_reset.
  - apply steps_update.
  - apply steps_bind; [done | intros q _; apply rebinds_refl|]. intros.
    apply steps_when, steps_semaphore_release.
  - apply steps_bind; [done | intros q _; apply rebinds_refl|]. intros.
    apply steps_when, steps_return_socket.
Qed.

Lemma request_consistent_same (tid : Tid) (p p' : Pool.t) :
  same_requests_of tid p p' → request_consistent tid p → request_consistent tid p'.
Proof.
  intros (Hc & Ht & Hi). unfold request_consistent. rewrite Hc, Ht, Hi. done.
Qed.

Lemma unbind_other (t tid : Tid) (p : Pool.t) :
  t ≠ tid → same_requests_of tid p (unbind t p).
Proof.
  intros Hne. split; [reflexivity|]. split.
  - simpl. by rewrite lookup_delete_ne.
  - simpl. rewrite elem_of_difference, elem_of_singleton. intuition congruence.
Qed.

Lemma Counter_dec_other (t tid : Tid) (p : Pool.t) :
  t ≠ tid → same_requests_of tid p (Pool.Counter_dec t p).
Proof.
  intros Hne. split; [|done]. rewrite Counter_get_dec. by rewrite decide_False.
Qed.

Lemma same_requests_of_trans (tid : Tid) (p1 p2 p3 : Pool.t) :
  same_requests_of tid p1 p2 → same_requests_of tid p2 p3 → same_requests_of tid p1 p3.
Proof.
  intros (Hc1 & Ht1 & Hi1) (Hc2 & Ht2 & Hi2).
  split; [congruence|]. split; [congruence|]. by rewrite Hi2.
Qed.

Lemma start_request_other (E : Env) (tid : Tid) (p : Pool.t) :
  ident_get E ≠ tid → same_requests_of tid p (exec E OpStartRequest p).
Proof.
  intros Hne. unfold exec, Pool.start_request, bind, Pool._get_request_state. simpl.
  unfold when. case_bool_decide; simpl.
  - case_bool_decide;
      (split; [rewrite Counter_get_inc; by rewrite decide_False|]); simpl.
    + split; [by rewrite lookup_insert_ne | done].
    + split; [by rewrite lookup_insert_ne|].
      rewrite elem_of_union, elem_of_singleton. intuition congruence.
  - split; [rewrite Counter_get_inc; by rewrite decide_False | done].
Qed.

(** What [end_request] does, case by case. *)
Lemma end_request_cases (E : Env) (p : Pool.t) :
  let t := ident_get E in
  exec E OpEndRequest p = p
  ∨ (Pool.Counter_get t p ≠ 0 ∧ Pool.Counter_get t p ≠ 1
     ∧ exec E OpEndRequest p = Pool.Counter_dec t p)
  ∨ (Pool.Counter_get t p = 1
     ∧ (exec E OpEndRequest p = unbind t (Pool.Counter_dec t p)
        ∨ ∃ r, exec E OpEndRequest p
               = snd (Pool._return_socket r (unbind t (Pool.Counter_dec t p))))).
Proof.
  intros t. unfold exec, Pool.end_request, bind, get, when, modify.
  destruct (Z.eqb_spec (Pool.Counter_get (ident_get E) p) 0) as [H0|H0]; simpl; [by left|].
  destruct (Z.eqb_spec (Pool.Counter_get (ident_get E) p) 1) as [H1|H1]; simpl;
    [|right; left; done].
  right. right. split; [exact H1|].
  unfold Pool._get_request_state. simpl.
  destruct (default NO_REQUEST _) as [| |r]; simpl; [by left | by left|].
  right. by exists r.
Qed.

Lemma end_request_consistent (E : Env) (tid : Tid) (p : Pool.t) :
  request_consistent tid p → request_consistent tid (exec E OpEndRequest p).
Proof.
  intros Hp. destruct (end_request_cases E p) as [-> | [(H0 & H1 & ->) | (H1 & Hlast)]];
    [exact Hp | |].
  - destruct (decide (ident_get E = tid)) as [<-|Hne];
      [|apply (request_consistent_same tid p); [by apply Counter_dec_other | exact Hp]].
    destruct Hp as (Hnn & Hzero & Hpos). unfold request_consistent.
    rewrite Counter_get_dec, decide_True by done. simpl.
    split; [lia|]. split; [lia|]. intros _. apply Hpos. lia.
  - assert (Hmid : request_consistent tid (unbind (ident_get E) (Pool.Counter_dec (ident_get E) p))).
    { destruct (decide (ident_get E = tid)) as [<-|Hne].
      - unfold request_consistent.
        change (Pool.Counter_get (ident_get E) (unbind _ ?q)) with (Pool.Counter_get (ident_get E) q).
        rewrite Counter_get_dec, decide_True by done. rewrite H1. simpl.
        split; [lia|]. split; [|lia]. intros _.
        rewrite lookup_delete_eq. split; [done|].
        rewrite elem_of_difference, elem_of_singleton. tauto.
      - apply (request_consistent_same tid p); [|exact Hp].
        eapply same_requests_of_trans; [by apply Counter_dec_other | by apply unbind_other]. }
    destruct Hlast as [-> | [r ->]]; [exact Hmid|].
    eapply request_consistent_rebinds; [|exact Hmid].
    by apply (steps_return_socket (λ _, True)).
Qed.

Lemma on_thread_died_consistent (tid t : Tid) (p : Pool.t) :
  t ≠ tid → request_consistent tid p → request_consistent tid (snd (Pool.on_thread_died t p)).
Proof.
  intros Hne Hp.
  assert (Hmid : request_consistent tid (unbind t p))
    by (apply (request_consistent_same tid p); [by apply unbind_other | exact Hp]).
  unfold Pool.on_thread_died, try_except, bind, get, modify. simpl.
  destruct (default NO_REQUEST (Pool._tid_to_sock p !! t)) as [| |r]; simpl;
    [exact Hmid | exact Hmid|].
  pose proof (steps_return_socket (λ _, True) r (unbind t p) I) as Hret.
  fold (unbind t p).
  destruct (Pool._return_socket r (unbind t p)) as [[[]|e|] p']; simpl in *;
    by apply (request_consistent_rebinds tid (unbind t p)).
Qed.

(** Every call keeps the request bookkeeping of a thread consistent, the
    death of that very thread apart. *)
Lemma exec_request_consistent (E : Env) (op : PoolOp) (tid : Tid) (p : Pool.t) :
  op ≠ OpThreadDied tid →
  request_consistent tid p → request_consistent tid (exec E op p).
Proof.
  intros Hop Hp. destruct op; simpl.
  - eapply request_consistent_rebinds; [|exact Hp]. by apply (steps_reset (λ _, True)).
  - eapply request_consistent_rebinds; [|exact Hp]. apply get_socket_rebinds.
  - destruct (decide (ident_get E = tid)) as [<-|Hne].
    + by apply start_request_consistent.
    + apply (request_consistent_same tid p); [by apply start_request_other | exact Hp].
  - by apply end_request_consistent.
  - eapply request_consistent_rebinds; [|exact Hp]. apply maybe_return_socket_rebinds.
  - eapply request_consistent_rebinds; [|exact Hp].
    unfold Pool.SocketInfo___exit__, bind, get, when. simpl.
    destruct (_ || _); [apply maybe_return_socket_rebinds | apply rebinds_refl].
  - apply on_thread_died_consistent; [congruence | exact Hp].
  - eapply request_consistent_rebinds; [|exact Hp]. by apply rebinds_same.
  - eapply request_consistent_rebinds; [|exact Hp]. by apply rebinds_same.
Qed.

(** In every pool state reached by a history in which thread [tid] has
    not died, the bookkeeping of [tid] is consistent. *)
Lemma run_request_consistent (E0 : Env) (pair : Address) (options : PoolOptions)
    (tid : Tid) (history : list (Env * PoolOp)) :
  Forall (λ eo, snd eo ≠ OpThreadDied tid) history →
  request_consistent tid (run history (Pool.__init__ E0 pair options)).
Proof.
  intros Hhist.
  assert (Hinit : request_consistent tid (Pool.__init__ E0 pair options)).
  { split; [done|]. split; [|intros Hlt; by vm_compute in Hlt].
    intros _. split; [apply lookup_empty | apply not_elem_of_empty]. }
  revert Hinit. generalize (Pool.__init__ E0 pair options).
  induction Hhist as [|[E op] history Hop _ IH]; intros p Hp; [exact Hp|].
  simpl. apply IH. by apply exec_request_consistent.
Qed.

(* ===================================================================== *)
(** ** Proofs: what [get_socket] hands out is open *)
(* ===================================================================== *)

Lemma bind_Ok {S A B} (m : M S A) (k : A → M S B) (s s' : S) (b : B) :
  bind m k s = (Ok b, s') → ∃ a s1, m s = (Ok a, s1) ∧ k a s1 = (Ok b, s').
Proof.
  unfold bind. destruct (m s) as [[a|e|] s1]; [|done|done]. intros H. by exists a, s1.
Qed.

Lemma try_except_Ok {S A} (m : M S A) (handles : Exn → bool) (h : Exn → M S A)
    (s s' : S) (a : A) :
  try_except m handles h s = (Ok a, s') →
  m s = (Ok a, s') ∨ ∃ e s1, m s = (Raise e, s1) ∧ h e s1 = (Ok a, s').
Proof.
  unfold try_except. destruct (m s) as [[a'|e|] s1]; [by left | | done].
  destruct (handles e); [|done]. intros H. right. by exists e, s1.
Qed.

Lemma connect_returns_open (E : Env) (p p' : Pool.t) (r : Ref) :
  Pool.connect E p = (Ok r, p') → SocketInfo.closed (Pool.deref p' r) = false.
Proof.
  unfold Pool.connect. destruct (connect_fails E (Pool.pair p)); [done|].
  intros [= <- <-]. unfold Pool.deref. simpl. by rewrite lookup_insert_eq.
Qed.

(** [_check] returns the socket it was given only if that socket is open,
    and a fresh one otherwise. *)
Lemma check_returns_open (E : Env) (r r' : Ref) (p p' : Pool.t) :
  Pool._check E r p = (Ok r', p') → SocketInfo.closed (Pool.deref p' r') = false.
Proof.
  unfold Pool._check. intros (p0 & p1 & Hget & Hrest)%bind_Ok.
  unfold get in Hget. injection Hget as <- <-.
  apply bind_Ok in Hrest as (error & p2 & Herror & Hrest).
  assert (Hopen : error = false → p2 = p ∧ SocketInfo.closed (Pool.deref p r) = false).
  { revert Herror. destruct (SocketInfo.closed (Pool.deref p r)) eqn:Hc.
    { unfold ret; simpl; intros; simplify_eq; try done. }
    destruct (negb (Pool.pool_id p =? _)).
    { unfold bind, modify, ret; simpl; intros; simplify_eq; try done. }
    destruct (match Pool._check_interval_seconds p with Some _ => _ | None => _ end).
    - destruct (select_readable E _).
      + unfold bind, modify, ret; simpl; intros; simplify_eq; try done.
      + unfold ret; simpl; intros; simplify_eq; try done.
    - unfold ret; simpl; intros; simplify_eq; try done. }
  destruct error; simpl in Hrest.
  - apply try_except_Ok in Hrest as [Hconn | (e & p3 & _ & Hraise)].
    + by apply (connect_returns_open E p2).
    + unfold bind, raise in Hraise. by destruct (Pool.reset E p3) as [[[]|?|] ?].
  - destruct (Hopen eq_refl) as [-> Hc]. unfold ret in Hrest. by simplify_eq.
Qed.

Lemma closed_update_flags (p : Pool.t) (r r' : Ref) (f : SocketInfo.t → SocketInfo.t) :
  (∀ s, SocketInfo.closed (f s) = SocketInfo.closed s) →
  SocketInfo.closed (Pool.deref (Pool.update r f p) r') = SocketInfo.closed (Pool.deref p r').
Proof.
  intros Hf. rewrite deref_update. case_decide as Heq; [subst; apply Hf | done].
Qed.

Lemma closed_set_request_state (E : Env) (st : ReqState) (p : Pool.t) (r : Ref) :
  SocketInfo.closed (Pool.deref (snd (Pool._set_request_state E st p)) r)
  = SocketInfo.closed (Pool.deref p r).
Proof.
  unfold Pool._set_request_state, modify. simpl. by repeat case_match.
Qed.

Lemma get_socket_from_pool_returns_open (E : Env) (force : bool) (st : ReqState)
    (p p' : Pool.t) (r : Ref) :
  Pool.get_socket_from_pool E force st p = (Ok r, p') →
  SocketInfo.closed (Pool.deref p' r) = false.
Proof.
  unfold Pool.get_socket_from_pool.
  intros (p1 & p1' & _ & Hrest)%bind_Ok.
  apply bind_Ok in Hrest as (forced & p2 & _ & Hrest).
  apply bind_Ok in Hrest as (sock_info & p3 & Htry & Hrest).
  apply bind_Ok in Hrest as ([] & p4 & Hupd & Hret).
  unfold modify in Hupd. unfold ret in Hret. simpl in Hupd, Hret.
  injection Hupd as <-. injection Hret as <- <-.
  rewrite closed_update_flags by done.
  apply try_except_Ok in Htry as [Hbody | (e & p5 & _ & Hraise)].
  - apply bind_Ok in Hbody as (popped & q1 & _ & Hbody).
    apply bind_Ok in Hbody as (s & q2 & Hsock & Hbody).
    apply bind_Ok in Hbody as ([] & q3 & Hupd & Hbody).
    apply bind_Ok in Hbody as ([] & q4 & Hbind & Hret).
    unfold modify in Hupd. unfold ret in Hret. simpl in Hupd, Hret.
  injection Hupd as <-. injection Hret as <- <-.
    assert (Hs : SocketInfo.closed (Pool.deref q2 s) = false).
    { destruct popped as [r0|]; [by apply (check_returns_open E r0 s q1) |
                                 by apply (connect_returns_open E q1)]. }
    assert (Hq4 : SocketInfo.closed (Pool.deref q4 s)
                  = SocketInfo.closed (Pool.deref (Pool.update s (SocketInfo.set_forced forced) q2) s)).
    { revert Hbind. unfold when. destruct (bool_decide _).
      - intros Hset.
        pose proof (closed_set_request_state E (ReqSock s)
                      (Pool.update s (SocketInfo.set_forced forced) q2) s) as Hkeep.
        by rewrite Hset in Hkeep.
      - cbv [ret]. intros [= <-]. done. }
    rewrite Hq4. by rewrite closed_update_flags.
  - unfold bind, raise in Hraise.
    by destruct (when (negb forced) Pool.semaphore_release p5) as [[[]|?|] ?].
Qed.

(** Whatever the idle set holds, a socket that [get_socket] returns is
    open: a closed or stale one is replaced by [_check]. *)
Lemma get_socket_returns_open (E : Env) (force : bool) (p p' : Pool.t) (r : Ref) :
  Pool.get_socket E force p = (Ok r, p') → SocketInfo.closed (Pool.deref p' r) = false.
Proof.
  unfold Pool.get_socket.
  intros (p0 & p0' & _ & Hrest)%bind_Ok.
  apply bind_Ok in Hrest as ([] & p1 & _ & Hrest).
  apply bind_Ok in Hrest as (req_state & p2 & _ & Hrest).
  apply bind_Ok in Hrest as (p3 & p3' & _ & Hrest).
  destruct req_state as [| |r0];
    [by eapply get_socket_from_pool_returns_open
    |by eapply get_socket_from_pool_returns_open|].
  simpl in Hrest.
  apply bind_Ok in Hrest as (checked & q1 & Hcheck & Hrest).
  apply bind_Ok in Hrest as (q2 & q2' & Hget & Hrest).
  unfold get in Hget. simpl in Hget. injection Hget as -> <-.
  apply bind_Ok in Hrest as ([] & q3 & Hbind & Hrest).
  apply bind_Ok in Hrest as ([] & q4 & Hupd & Hret).
  unfold modify in Hupd. unfold ret in Hret. simpl in Hupd, Hret.
  injection Hupd as <-. injection Hret as <- <-.
  rewrite closed_update_flags by done.
  assert (Hq3 : SocketInfo.closed (Pool.deref q3 checked)
                = SocketInfo.closed (Pool.deref q2 checked)).
  { revert Hbind. unfold when. destruct (Pool.sock_ne _ _ _).
    - intros Hset.
      pose proof (closed_set_request_state E (ReqSock checked) q2 checked) as Hkeep.
      by rewrite Hset in Hkeep.
    - cbv [ret]. intros [= <-]. done. }
  rewrite Hq3. by eapply check_returns_open.
Qed.

(* ===================================================================== *)
(** ** Proofs: properties kept by every pool operation *)
(* ===================================================================== *)

Section Preserves.
Context (P : Pool.t → Prop).

Lemma preserves_ret {A} (a : A) : preserves P (ret a).
Proof. by intros p Hp. Qed.

Lemma preserves_raise {A} (e : Exn) : preserves P (@raise _ A e).
Proof. by intros p Hp. Qed.

Lemma preserves_get : preserves P get.
Proof. by intros p Hp. Qed.

Lemma preserves_modify (f : Pool.t → Pool.t) :
  (∀ p, P p → P (f p)) → preserves P (modify f).
Proof. intros Hf p Hp. by apply Hf. Qed.

Lemma preserves_bind {A B} (m : M Pool.t A) (k : A → M Pool.t B) :
  preserves P m → (∀ a, preserves P (k a)) → preserves P (bind m k).
Proof.
  intros Hm Hk p Hp. unfold bind. specialize (Hm p Hp).
  destruct (m p) as [[a|e|] p']; simpl in *; [by apply Hk | done | done].
Qed.

Lemma preserves_when (b : bool) (m : M Pool.t unit) : preserves P m → preserves P (when b m).
Proof. intros Hm. destruct b; [exact Hm | apply preserves_ret]. Qed.

Lemma preserves_try_except {A} (m : M Pool.t A) (handles : Exn → bool) (h : Exn → M Pool.t A) :
  preserves P m → (∀ e, preserves P (h e)) → preserves P (try_except m handles h).
Proof.
  intros Hm Hh p Hp. unfold try_except. specialize (Hm p Hp).
  destruct (m p) as [[a|e|] p']; simpl in *; [done | | done].
  destruct (handles e); [by apply Hh | done].
Qed.
End Preserves.

Section Invariant.
Context (P : Pool.t → Prop) (HP : pool_invariant P).

Lemma preserves_reset (E : Env) : preserves P (Pool.reset E).
Proof. intros p. apply (inv_reset P HP). Qed.

Lemma preserves_semaphore_release : preserves P Pool.semaphore_release.
Proof. apply preserves_modify. intros p. apply (inv_semaphore P HP). Qed.

Lemma preserves_update (r : Ref) (f : SocketInfo.t → SocketInfo.t) :
  (∀ s, SocketInfo.pool_id (f s) = SocketInfo.pool_id s) →
  (∀ s, SocketInfo.sock (f s) = SocketInfo.sock s) →
  preserves P (modify (Pool.update r f)).
Proof. intros Hf Hg. apply preserves_modify. intros p. by apply (inv_update P HP). Qed.

Lemma preserves_connect (E : Env) : preserves P (Pool.connect E).
Proof.
  intros p Hp. destruct (Pool.connect E p) as [[r|e|] p'] eqn:Hc; simpl.
  - by apply (inv_connect P HP E p r).
  - revert Hc. unfold Pool.connect. destruct (connect_fails E _); [|done]. by intros [= _ <-].
  - revert Hc. unfold Pool.connect. by destruct (connect_fails E _).
Qed.

Lemma preserves_set_request_state (E : Env) (st : ReqState) :
  preserves P (Pool._set_request_state E st).
Proof.
  apply preserves_modify. intros p Hp. cbv beta zeta.
  repeat case_match; try done;
    repeat first [apply (inv_tid_to_sock P HP) | apply (inv_ident P HP)]; done.
Qed.

Lemma preserves_get_request_state (E : Env) : preserves P (Pool._get_request_state E).
Proof. by intros p Hp. Qed.

Lemma preserves_check (E : Env) (r : Ref) : preserves P (Pool._check E r).
Proof.
  unfold Pool._check. apply preserves_bind; [apply preserves_get|]. intros p.
  apply preserves_bind.
  - repeat case_match; try apply preserves_ret;
      (apply preserves_bind; [by apply preserves_update | intros; apply preserves_ret]).
  - intros error. case_match; [apply preserves_ret|].
    apply preserves_try_except; [apply preserves_connect|].
    intros e. apply preserves_bind; [apply preserves_reset | intros; apply preserves_raise].
Qed.

Lemma preserves_semaphore_try_acquire : preserves P Pool.semaphore_try_acquire.
Proof.
  intros p Hp. unfold Pool.semaphore_try_acquire.
  destruct (Semaphore.acquire_nonblocking _) as [b s]. by apply (inv_semaphore P HP).
Qed.

Lemma preserves_semaphore_acquire_blocking (timeout : option Z) :
  preserves P (Pool.semaphore_acquire_blocking timeout).
Proof.
  intros p Hp. unfold Pool.semaphore_acquire_blocking.
  destruct (Semaphore.acquire_nonblocking _) as [[] s]; [by apply (inv_semaphore P HP)|].
  by destruct timeout.
Qed.

Lemma preserves_sockets_pop (E : Env) : preserves P (Pool.sockets_pop E).
Proof.
  intros p Hp. unfold Pool.sockets_pop. destruct (elements (Pool.sockets p)); [done|].
  simpl. by apply (inv_remove P HP).
Qed.

Lemma preserves_get_socket_from_pool (E : Env) (force : bool) (st : ReqState) :
  preserves P (Pool.get_socket_from_pool E force st).
Proof.
  unfold Pool.get_socket_from_pool. apply preserves_bind; [apply preserves_get|]. intros p1.
  apply preserves_bind.
  { destruct force.
    - apply preserves_bind; [apply preserves_semaphore_try_acquire | intros; apply preserves_ret].
    - apply preserves_bind; [apply preserves_semaphore_acquire_blocking|].
      intros []; [apply preserves_ret | by intros p Hp]. }
  intros forced. apply preserves_bind.
  { apply preserves_try_except.
    - apply preserves_bind; [apply preserves_sockets_pop|]. intros popped.
      apply preserves_bind; [destruct popped; [apply preserves_check | apply preserves_connect]|].
      intros sock_info. apply preserves_bind; [by apply preserves_update|]. intros _.
      apply preserves_bind; [apply preserves_when, preserves_set_request_state|].
      intros; apply preserves_ret.
    - intros e. apply preserves_bind; [apply preserves_when, preserves_semaphore_release|].
      intros; apply preserves_raise. }
  intros sock_info. apply preserves_bind; [by apply preserves_update|]. intros; apply preserves_ret.
Qed.

Lemma preserves_get_socket (E : Env) (force : bool) : preserves P (Pool.get_socket E force).
Proof.
  unfold Pool.get_socket. apply preserves_bind; [apply preserves_get|]. intros p0.
  apply preserves_bind; [apply preserves_when, preserves_reset|]. intros _.
  apply preserves_bind; [apply preserves_get_request_state|]. intros req_state.
  apply preserves_bind; [apply preserves_get|]. intros p1.
  destruct req_state as [| |r]; try apply preserves_get_socket_from_pool.
  case_match; [|apply preserves_get_socket_from_pool].
  apply preserves_bind; [apply preserves_check|]. intros checked.
  apply preserves_bind; [apply preserves_get|]. intros p2.
  apply preserves_bind; [apply preserves_when, preserves_set_request_state|]. intros _.
  apply preserves_bind; [by apply preserves_update|]. intros; apply preserves_ret.
Qed.

Lemma preserves_start_request (E : Env) : preserves P (Pool.start_request E).
Proof.
  unfold Pool.start_request. apply preserves_bind; [apply preserves_get_request_state|]. intros st.
  apply preserves_bind; [apply preserves_when, preserves_set_request_state|]. intros _.
  apply preserves_modify. intros p. apply (inv_request_counter P HP).
Qed.

(** [_return_socket] adds a socket only to an idle set with room, and
    only under the pool's own [pool_id]. *)
Lemma preserves_return_socket (r : Ref) : preserves P (Pool._return_socket r).
Proof.
  intros p Hp. unfold Pool._return_socket, bind, get.
  destruct (negb _ && _) eqn:Hcond; simpl.
  - apply andb_true_iff in Hcond as [Hroom Hid%Z.eqb_eq].
    assert (Hadd : P (Pool.sockets_add r p)).
    { apply (inv_add P HP); [|done..].
      destruct (max_pool_size (Pool.opts p)); [|done].
      apply negb_true_iff, Z.leb_gt in Hroom. exact Hroom. }
    destruct (SocketInfo.forced _).
    + by apply (inv_update P HP).
    + by apply preserves_semaphore_release.
  - assert (Hclose : P (Pool.update r SocketInfo.close p))
      by (by apply (inv_update P HP)).
    destruct (SocketInfo.forced _).
    + by apply (inv_update P HP).
    + by apply preserves_semaphore_release.
Qed.

Lemma preserves_end_request (E : Env) : preserves P (Pool.end_request E).
Proof.
  unfold Pool.end_request. apply preserves_bind; [apply preserves_get|]. intros p.
  apply preserves_when. apply preserves_bind.
  { apply preserves_modify. intros q. apply (inv_request_counter P HP). }
  intros _. apply preserves_when.
  apply preserves_bind; [apply preserves_get_request_state|]. intros sock_info.
  apply preserves_bind; [apply preserves_set_request_state|]. intros _.
  apply preserves_bind; [apply preserves_get|]. intros p'.
  destruct sock_info; try apply preserves_ret. apply preserves_when, preserves_return_socket.
Qed.

Lemma preserves_maybe_return_socket (E : Env) (st : ReqState) :
  preserves P (Pool.maybe_return_socket E st).
Proof.
  unfold Pool.maybe_return_socket. apply preserves_bind; [apply preserves_get|]. intros p.
  destruct st as [| |r]; try apply preserves_ret.
  repeat case_match; try apply preserves_ret.
  - apply preserves_bind; [apply preserves_when, preserves_semaphore_release|].
    intros; apply preserves_reset.
  - by apply preserves_update.
  - apply preserves_bind; [apply preserves_get_request_state|]. intros.
    apply preserves_when, preserves_semaphore_release.
  - apply preserves_bind; [apply preserves_get_request_state|]. intros.
    apply preserves_when, preserves_return_socket.
Qed.

Lemma preserves_exit (E : Env) (r : Ref) : preserves P (Pool.SocketInfo___exit__ E r).
Proof.
  unfold Pool.SocketInfo___exit__. apply preserves_bind; [apply preserves_get|]. intros p.
  apply preserves_when, preserves_maybe_return_socket.
Qed.

Lemma preserves_on_thread_died (tid : Tid) : preserves P (Pool.on_thread_died tid).
Proof.
  unfold Pool.on_thread_died. apply preserves_try_except; [|intros; apply preserves_ret].
  apply preserves_bind; [apply preserves_get|]. intros p.
  apply preserves_bind; [apply preserves_modify; intros q; apply (inv_ident P HP)|]. intros _.
  apply preserves_bind; [apply preserves_modify; intros q; apply (inv_tid_to_sock P HP)|].
  intros _.
  apply preserves_bind; [apply preserves_get|]. intros p'.
  case_match; try apply preserves_ret. apply preserves_when, preserves_return_socket.
Qed.

Lemma exec_preserves (E : Env) (op : PoolOp) (p : Pool.t) : P p → P (exec E op p).
Proof.
  destruct op; simpl.
  - apply preserves_reset.
  - apply preserves_get_socket.
  - apply preserves_start_request.
  - apply preserves_end_request.
  - apply preserves_maybe_return_socket.
  - apply preserves_exit.
  - apply preserves_on_thread_died.
  - by apply (inv_update P HP).
  - by apply (inv_update P HP).
Qed.

Lemma run_preserves (history : list (Env * PoolOp)) :
  ∀ p, P p → P (run history p).
Proof.
  induction history as [|[E op] history IH]; intros p Hp; [exact Hp|].
  simpl. apply IH. by apply exec_preserves.
Qed.
End Invariant.

(* ===================================================================== *)
(** ** Proofs: what a checkout returns *)
(* ===================================================================== *)

Lemma bind_Raise {S A B} (m : M S A) (k : A → M S B) (s s' : S) (e : Exn) :
  bind m k s = (Raise e, s') →
  m s = (Raise e, s') ∨ ∃ a s1, m s = (Ok a, s1) ∧ k a s1 = (Raise e, s').
Proof.
  unfold bind. destruct (m s) as [[a|e'|] s1]; [|intros [= -> ->]; by left|done].
  intros H. right. by exists a, s1.
Qed.

Lemma try_except_Raise {S A} (m : M S A) (handles : Exn → bool) (h : Exn → M S A)
    (s s' : S) (e : Exn) :
  try_except m handles h s = (Raise e, s') →
  (m s = (Raise e, s') ∧ handles e = false)
  ∨ ∃ e1 s1, m s = (Raise e1, s1) ∧ handles e1 = true ∧ h e1 s1 = (Raise e, s').
Proof.
  unfold try_except. destruct (m s) as [[a'|e1|] s1]; [done | | done].
  destruct (handles e1) eqn:Hh; intros H.
  - right. by exists e1, s1.
  - left. by simplify_eq.
Qed.

Lemma bind_eq_Ok {S A B} (m : M S A) (k : A → M S B) (s s1 : S) (a : A) :
  m s = (Ok a, s1) → bind m k s = k a s1.
Proof. unfold bind. by intros ->. Qed.

Lemma try_except_eq_Ok {S A} (m : M S A) (handles : Exn → bool) (h : Exn → M S A)
    (s s1 : S) (a : A) :
  m s = (Ok a, s1) → try_except m handles h s = (Ok a, s1).
Proof. unfold try_except. by intros ->. Qed.

(** What [connect] returns is the object it has just made. *)
Lemma connect_Ok (E : Env) (p p' : Pool.t) (r : Ref) :
  Pool.connect E p = (Ok r, p') →
  r = Pool.next_ref p
  ∧ p' = Pool.set_next_ref (Pos.succ r)
           (Pool.set_objs (<[r := SocketInfo.__init__ r (Pool.pool_id p) (fst (Pool.pair p))
                                     (time_time E)]> (Pool.objs p)) p).
Proof.
  unfold Pool.connect. destruct (connect_fails E (Pool.pair p)); [done|].
  by intros [= <- <-].
Qed.

(** [_check] hands back the socket it was given, untouched, when that
    socket is open and of the pool's generation; any other socket it
    returns was connected on the spot, the given one being closed. *)
Lemma check_Ok (E : Env) (r r' : Ref) (p p' : Pool.t) :
  Pool._check E r p = (Ok r', p') →
  (r' = r ∧ p' = p ∧ SocketInfo.closed (Pool.deref p r) = false
   ∧ SocketInfo.pool_id (Pool.deref p r) = Pool.pool_id p)
  ∨ (∃ p1, Pool.connect E p1 = (Ok r', p')
           ∧ (p1 = p ∨ p1 = Pool.update r SocketInfo.close p)
           ∧ SocketInfo.closed (Pool.deref p1 r) = true).
Proof.
  unfold Pool._check. intros (p0 & p1 & Hget & Hrest)%bind_Ok.
  unfold get in Hget. injection Hget as <- <-.
  apply bind_Ok in Hrest as (error & p2 & Herror & Hrest).
  assert (Hcase : (error = false ∧ p2 = p ∧ SocketInfo.closed (Pool.deref p r) = false
                   ∧ SocketInfo.pool_id (Pool.deref p r) = Pool.pool_id p)
                  ∨ (error = true ∧ (p2 = p ∨ p2 = Pool.update r SocketInfo.close p)
                     ∧ SocketInfo.closed (Pool.deref p2 r) = true)).
  { revert Herror. destruct (SocketInfo.closed (Pool.deref p r)) eqn:Hc.
    { unfold ret. intros [= <- <-]. right. auto. }
    assert (Hupd : SocketInfo.closed (Pool.deref (Pool.update r SocketInfo.close p) r) = true).
    { rewrite deref_update. by rewrite decide_True. }
    destruct (negb (Pool.pool_id p =? _)) eqn:Hid.
    { unfold bind, modify, ret. simpl. intros [= <- <-]. right. auto. }
    apply negb_false_iff, Z.eqb_eq in Hid.
    destruct (match Pool._check_interval_seconds p with Some _ => _ | None => _ end).
    - destruct (select_readable E _).
      + unfold bind, modify, ret. simpl. intros [= <- <-]. right. auto.
      + unfold ret. intros [= <- <-]. left. auto.
    - unfold ret. intros [= <- <-]. left. auto. }
  destruct Hcase as [(-> & -> & Hc & Hid) | (-> & Hp2 & Hc)]; simpl in Hrest.
  - unfold ret in Hrest. injection Hrest as <- <-. left. auto.
  - apply try_except_Ok in Hrest as [Hconn | (e & p3 & _ & Hraise)].
    + right. by exists p2.
    + unfold bind, raise in Hraise. by destruct (Pool.reset E p3) as [[[]|?|] ?].
Qed.

(** [_check] on a healthy socket: open, of the pool's generation, and not
    reported readable by [select]. *)
Lemma check_healthy (E : Env) (r : Ref) (p : Pool.t) :
  SocketInfo.closed (Pool.deref p r) = false →
  SocketInfo.pool_id (Pool.deref p r) = Pool.pool_id p →
  select_readable E (SocketInfo.sock (Pool.deref p r)) = false →
  Pool._check E r p = (Ok r, p).
Proof.
  intros Hopen Hid Hsel. unfold Pool._check.
  unfold bind at 1. unfold get at 1. unfold bind at 1.
  rewrite Hopen, Hid, Z.eqb_refl, Hsel. simpl.
  by destruct (match Pool._check_interval_seconds p with Some _ => _ | None => _ end).
Qed.

(** [get_socket], with its fork check and its look at the request state
    carried out. *)
Lemma get_socket_unfold (E : Env) (force : bool) (p : Pool.t) :
  Pool.get_socket E force p =
  let p0 := after_fork_check E p in
  match default NO_REQUEST (Pool._tid_to_sock p0 !! ident_get E) with
  | ReqSock r0 =>
      bind (Pool._check E r0) (λ checked,
        bind get (λ p2,
          bind (when (Pool.sock_ne p2 checked (ReqSock r0))
                     (Pool._set_request_state E (ReqSock checked))) (λ _,
            bind (modify (Pool.update checked (SocketInfo.set_last_checkout (time_time E))))
                 (λ _, ret checked)))) p0
  | st => Pool.get_socket_from_pool E force st p0
  end.
Proof.
  unfold Pool.get_socket, after_fork_check.
  unfold bind at 1. unfold get at 1. unfold bind at 1.
  destruct (Pool.pid p =? os_getpid E); simpl.
  - unfold bind at 1. unfold Pool._get_request_state at 1. unfold bind at 1. unfold get at 1.
    by destruct (default NO_REQUEST _).
  - unfold bind at 1. unfold Pool._get_request_state at 1. unfold bind at 1. unfold get at 1.
    by destruct (default NO_REQUEST _).
Qed.

(** A checkout outside the request socket that returns: a permit was
    tried, a socket popped and checked or else connected, marked, bound to
    the request if one is waiting for its socket, and stamped. *)
Lemma get_socket_from_pool_Ok (E : Env) (force : bool) (st : ReqState)
    (p p' : Pool.t) (r : Ref) :
  Pool.get_socket_from_pool E force st p = (Ok r, p') →
  ∃ ok s1 popped q1 q2,
    Semaphore.acquire_nonblocking (Pool._socket_semaphore p) = (ok, s1)
    ∧ (force = false → ok = true)
    ∧ Pool.sockets_pop E (Pool.set_socket_semaphore s1 p) = (Ok popped, q1)
    ∧ match popped with
      | Some r0 => Pool._check E r0 q1
      | None => Pool.connect E q1
      end = (Ok r, q2)
    ∧ p' = Pool.update r (SocketInfo.set_last_checkout (time_time E))
             (let q3 := Pool.update r (SocketInfo.set_forced (negb ok)) q2 in
              if bool_decide (st = NO_SOCKET_YET)
              then snd (Pool._set_request_state E (ReqSock r) q3) else q3).
Proof.
  unfold Pool.get_socket_from_pool.
  intros (p1 & p1' & Hget & Hrest)%bind_Ok. unfold get in Hget. injection Hget as <- <-.
  apply bind_Ok in Hrest as (forced & p2 & Hacq & Hrest).
  destruct (Semaphore.acquire_nonblocking (Pool._socket_semaphore p)) as [ok s1] eqn:Hsem.
  assert (Hp2 : p2 = Pool.set_socket_semaphore s1 p ∧ forced = negb ok ∧ (force = false → ok = true)).
  { revert Hacq. destruct force.
    - unfold bind, Pool.semaphore_try_acquire, ret. rewrite Hsem. by intros [= <- <-].
    - unfold bind, Pool.semaphore_acquire_blocking, ret. rewrite Hsem.
      destruct ok; simpl; [by intros [= <- <-]|].
      destruct (wait_queue_timeout _); simpl; [|done].
      unfold Pool._raise_wait_queue_timeout, raise. done. }
  destruct Hp2 as (-> & -> & Hok).
  apply bind_Ok in Hrest as (sock_info & p3 & Htry & Hrest).
  apply bind_Ok in Hrest as ([] & p4 & Hupd & Hret).
  unfold modify in Hupd. unfold ret in Hret. simpl in Hupd, Hret.
  injection Hupd as <-. injection Hret as <- <-.
  apply try_except_Ok in Htry as [Hbody | (e & p5 & _ & Hraise)].
  2:{ unfold bind, raise in Hraise.
      by destruct (when (negb (negb ok)) Pool.semaphore_release p5) as [[[]|?|] ?]. }
  apply bind_Ok in Hbody as (popped & q1 & Hpop & Hbody).
  apply bind_Ok in Hbody as (s & q2 & Hsock & Hbody).
  apply bind_Ok in Hbody as ([] & q3 & Hupd & Hbody).
  apply bind_Ok in Hbody as ([] & q4 & Hbind & Hret).
  unfold modify in Hupd. unfold ret in Hret. simpl in Hupd, Hret.
  injection Hupd as <-. injection Hret as <- <-.
  exists ok, s1, popped, q1, q2.
  split; [done|]. split; [done|]. split; [done|]. split; [by destruct popped|].
  f_equal. cbv zeta. revert Hbind. unfold when. destruct (bool_decide _).
  - intros Hset. by rewrite Hset.
  - unfold ret. by intros [= <-].
Qed.

Lemma sockets_pop_frame (E : Env) (p q : Pool.t) (popped : option Ref) :
  Pool.sockets_pop E p = (Ok popped, q) →
  ∃ s, q = Pool.set_sockets s p ∧ s ⊆ Pool.sockets p
       ∧ match popped with
         | Some r => r ∈ Pool.sockets p ∧ s = Pool.sockets p ∖ {[r]}
         | None => Pool.sockets p = ∅ ∧ s = Pool.sockets p
         end.
Proof.
  unfold Pool.sockets_pop. destruct (elements (Pool.sockets p)) as [|r0 l] eqn:Hel.
  - intros [= <- <-]. exists (Pool.sockets p). split; [by destruct p|].
    split; [done|]. split; [|done]. by apply elements_empty_inv in Hel as ->%leibniz_equiv.
  - intros [= <- <-]. eexists. split; [done|].
    split; [intros x [Hx _]%elem_of_difference; exact Hx|]. split; [|done].
    case_bool_decide; [done|]. apply elem_of_elements. rewrite Hel. by left.
Qed.

Lemma set_request_state_frame (E : Env) (st : ReqState) (p : Pool.t) :
  let q := snd (Pool._set_request_state E st p) in
  Pool.sockets q = Pool.sockets p ∧ Pool.pool_id q = Pool.pool_id p
  ∧ Pool.pid q = Pool.pid p ∧ Pool.opts q = Pool.opts p
  ∧ Pool._socket_semaphore q = Pool._socket_semaphore p
  ∧ Pool.objs q = Pool.objs p ∧ Pool.next_ref q = Pool.next_ref p
  ∧ Pool._request_counter q = Pool._request_counter p.
Proof.
  unfold Pool._set_request_state, modify. cbv zeta. simpl. by repeat case_match.
Qed.

Lemma deref_set_request_state (E : Env) (st : ReqState) (p : Pool.t) (r : Ref) :
  Pool.deref (snd (Pool._set_request_state E st p)) r = Pool.deref p r.
Proof.
  unfold Pool.deref. by rewrite (proj1 (proj2 (proj2 (proj2 (proj2 (proj2
    (set_request_state_frame E st p))))))).
Qed.

(** What [_check] returns is open and of the pool's generation; the
    pool's generation and process are as before. *)
Lemma check_post (E : Env) (r r' : Ref) (p p' : Pool.t) :
  Pool._check E r p = (Ok r', p') →
  SocketInfo.closed (Pool.deref p' r') = false
  ∧ SocketInfo.pool_id (Pool.deref p' r') = Pool.pool_id p'
  ∧ Pool.pool_id p' = Pool.pool_id p ∧ Pool.pid p' = Pool.pid p.
Proof.
  intros [(-> & -> & Hc & Hid) | (p1 & Hconn & Hp1 & _)]%check_Ok; [done|].
  apply connect_Ok in Hconn as [-> ->].
  unfold Pool.deref. simpl. rewrite lookup_insert_eq. simpl.
  by destruct Hp1 as [-> | ->].
Qed.

Lemma connect_post (E : Env) (r' : Ref) (p p' : Pool.t) :
  Pool.connect E p = (Ok r', p') →
  SocketInfo.closed (Pool.deref p' r') = false
  ∧ SocketInfo.pool_id (Pool.deref p' r') = Pool.pool_id p'
  ∧ Pool.pool_id p' = Pool.pool_id p ∧ Pool.pid p' = Pool.pid p.
Proof.
  intros [-> ->]%connect_Ok. unfold Pool.deref. simpl. by rewrite lookup_insert_eq.
Qed.

(** Closing a list of sockets one by one, as [reset] does. *)
Lemma close_each_frame (l : list Ref) (p : Pool.t) :
  let p' := foldr (λ r q, Pool.update r SocketInfo.close q) p l in
  Pool.sockets p' = Pool.sockets p ∧ Pool.pool_id p' = Pool.pool_id p
  ∧ Pool.pid p' = Pool.pid p ∧ Pool.opts p' = Pool.opts p
  ∧ Pool._socket_semaphore p' = Pool._socket_semaphore p
  ∧ Pool.next_ref p' = Pool.next_ref p
  ∧ Pool._tid_to_sock p' = Pool._tid_to_sock p
  ∧ Pool._request_counter p' = Pool._request_counter p
  ∧ Pool._ident p' = Pool._ident p
  ∧ Pool.pair p' = Pool.pair p.
Proof. induction l as [|r l IH]; [done | exact IH]. Qed.

Lemma close_each_objs (l : list Ref) (p : Pool.t) (r : Ref) :
  Pool.objs (foldr (λ r q, Pool.update r SocketInfo.close q) p l) !! r =
  if decide (r ∈ l) then Some (SocketInfo.close (Pool.deref p r)) else Pool.objs p !! r.
Proof.
  induction l as [|r0 l IH]; [done|]. simpl.
  destruct (decide (r0 = r)) as [->|Hne].
  - rewrite lookup_insert_eq. rewrite decide_True by left. f_equal.
    unfold Pool.deref. rewrite IH. by case_decide.
  - rewrite lookup_insert_ne by done. rewrite IH.
    destruct (decide (r ∈ l)) as [Hin|Hnin].
    + rewrite decide_True; [done | by right].
    + rewrite decide_False; [done|]. intros [?|?]%elem_of_cons; congruence.
Qed.

Lemma reset_post (E : Env) (p : Pool.t) :
  let p' := snd (Pool.reset E p) in
  fst (Pool.reset E p) = Ok tt
  ∧ Pool.sockets p' = ∅
  ∧ Pool.pool_id p' = Pool.pool_id p + 1
  ∧ Pool.pid p' = os_getpid E
  ∧ (∀ r, r ∈ Pool.sockets p → Pool.deref p' r = SocketInfo.close (Pool.deref p r))
  ∧ (∀ r, r ∉ Pool.sockets p → Pool.objs p' !! r = Pool.objs p !! r)
  ∧ Pool._tid_to_sock p' = Pool._tid_to_sock p
  ∧ Pool._request_counter p' = Pool._request_counter p
  ∧ Pool._socket_semaphore p' = Pool._socket_semaphore p
  ∧ Pool.next_ref p' = Pool.next_ref p
  ∧ Pool.opts p' = Pool.opts p.
Proof.
  unfold Pool.reset, modify. cbn [fst snd]. cbv zeta.
  set (p2 := Pool.set_sockets ∅ _).
  set (l := elements (Pool.sockets _)).
  destruct (close_each_frame l p2) as (Hs & Hid & Hpid & Ho & Hsem & Hn & Ht & Hc & _).
  split; [done|]. split; [by rewrite Hs|]. split; [by rewrite Hid|]. split; [by rewrite Hpid|].
  split; [|split; [|split; [by rewrite Ht | split; [by rewrite Hc |
    split; [by rewrite Hsem | split; [by rewrite Hn | by rewrite Ho]]]]]].
  - intros r Hr. unfold Pool.deref at 1. rewrite close_each_objs.
    rewrite decide_True; [done|]. subst l. by apply elem_of_elements.
  - intros r Hr. rewrite close_each_objs.
    rewrite decide_False; [done|]. subst l. by rewrite elem_of_elements.
Qed.

Lemma after_fork_check_same (E : Env) (p : Pool.t) :
  Pool.pid p = os_getpid E → after_fork_check E p = p.
Proof. unfold after_fork_check. intros ->. by rewrite Z.eqb_refl. Qed.

Lemma after_fork_check_frame (E : Env) (p : Pool.t) :
  let p0 := after_fork_check E p in
  Pool.pid p0 = os_getpid E
  ∧ Pool._tid_to_sock p0 = Pool._tid_to_sock p
  ∧ Pool._socket_semaphore p0 = Pool._socket_semaphore p
  ∧ Pool.opts p0 = Pool.opts p ∧ Pool.next_ref p0 = Pool.next_ref p
  ∧ (Pool.sockets p = ∅ → Pool.sockets p0 = ∅).
Proof.
  unfold after_fork_check. destruct (Pool.pid p =? os_getpid E) eqn:Hpid.
  - by apply Z.eqb_eq in Hpid.
  - destruct (reset_post E p) as (_ & Hs & _ & Hp & _ & _ & Ht & _ & Hsem & Hn & Ho).
    by repeat split.
Qed.

Lemma after_fork_check_pid (E : Env) (p : Pool.t) :
  Pool.pid (after_fork_check E p) = os_getpid E.
Proof. apply after_fork_check_frame. Qed.

Lemma after_fork_check_requests (E : Env) (p : Pool.t) :
  Pool._tid_to_sock (after_fork_check E p) = Pool._tid_to_sock p.
Proof. apply after_fork_check_frame. Qed.

Lemma after_fork_check_semaphore (E : Env) (p : Pool.t) :
  Pool._socket_semaphore (after_fork_check E p) = Pool._socket_semaphore p.
Proof. apply after_fork_check_frame. Qed.

Lemma get_socket_usable (E : Env) (force : bool) (p p' : Pool.t) (r : Ref) :
  Pool.get_socket E force p = (Ok r, p') →
  SocketInfo.closed (Pool.deref p' r) = false
  ∧ SocketInfo.pool_id (Pool.deref p' r) = Pool.pool_id p'
  ∧ SocketInfo.last_checkout (Pool.deref p' r) = time_time E
  ∧ Pool.pid p' = os_getpid E.
Proof.
  rewrite get_socket_unfold. cbv zeta.
  pose proof (after_fork_check_pid E p) as Hpid.
  set (p0 := after_fork_check E p) in *. clearbody p0.
  assert (Hfrom : ∀ st, Pool.get_socket_from_pool E force st p0 = (Ok r, p') →
     SocketInfo.closed (Pool.deref p' r) = false
     ∧ SocketInfo.pool_id (Pool.deref p' r) = Pool.pool_id p'
     ∧ SocketInfo.last_checkout (Pool.deref p' r) = time_time E
     ∧ Pool.pid p' = os_getpid E).
  { intros st (ok & s1 & popped & q1 & q2 & _ & _ & Hpop & Hsock & ->)%get_socket_from_pool_Ok.
    apply sockets_pop_frame in Hpop as (s & -> & _).
    assert (Hq2 : SocketInfo.closed (Pool.deref q2 r) = false
                  ∧ SocketInfo.pool_id (Pool.deref q2 r) = Pool.pool_id q2
                  ∧ Pool.pool_id q2 = Pool.pool_id p0 ∧ Pool.pid q2 = Pool.pid p0).
    { destruct popped; [by apply check_post in Hsock | by apply connect_post in Hsock]. }
    destruct Hq2 as (Hc & Hid & Hpool & Hpid2).
    cbv zeta. rewrite deref_update, decide_True by done.
    destruct (bool_decide (st = NO_SOCKET_YET)).
    - rewrite deref_set_request_state, deref_update, decide_True by done. simpl.
      case_bool_decide; simpl; by rewrite Hpid2.
    - rewrite deref_update, decide_True by done. simpl. by rewrite Hpid2. }
  destruct (default NO_REQUEST (Pool._tid_to_sock p0 !! ident_get E)) as [| |r0];
    [apply Hfrom | apply Hfrom |].
  intros (checked & q1 & Hcheck & Hrest)%bind_Ok.
  apply bind_Ok in Hrest as (q2 & q2' & Hget & Hrest).
  unfold get in Hget. injection Hget as <- <-.
  apply bind_Ok in Hrest as ([] & q3 & Hbind & Hrest).
  apply bind_Ok in Hrest as ([] & q4 & Hupd & Hret).
  unfold modify in Hupd. unfold ret in Hret. simpl in Hupd, Hret.
  injection Hupd as <-. injection Hret as <- <-.
  apply check_post in Hcheck as (Hc & Hid & Hpool & Hpid1).
  rewrite deref_update, decide_True by done.
  revert Hbind. unfold when. destruct (Pool.sock_ne _ _ _).
  - intros Hset.
    pose proof (deref_set_request_state E (ReqSock checked) q1 checked) as Hd.
    pose proof (set_request_state_frame E (ReqSock checked) q1) as (_ & Hi & Hp & _).
    rewrite Hset in Hd, Hi, Hp. simpl in Hd, Hi, Hp. simpl.
    rewrite Hd, Hi, Hp. by rewrite Hpid1.
  - unfold ret. intros [= <-]. simpl. by rewrite Hpid1.
Qed.

(** X1.  Whatever the idle set and the request table hold, a socket that
    [get_socket] returns is open, was made under the pool's current
    [pool_id], carries the time of this checkout, and the pool then
    belongs to the calling process. *)
Theorem X1_get_socket_returns_usable_socket
    (E : Env) (force : bool) (p p' : Pool.t) (r : Ref) :
  Pool.get_socket E force p = (Ok r, p') →
  SocketInfo.closed (Pool.deref p' r) = false
  ∧ SocketInfo.pool_id (Pool.deref p' r) = Pool.pool_id p'
  ∧ SocketInfo.last_checkout (Pool.deref p' r) = time_time E
  ∧ Pool.pid p' = os_getpid E.
Proof. apply get_socket_usable. Qed.

(** The request socket of the counterexample to C2 is closed; the next
    checkout of its thread replaces it by an open one. *)
Lemma X1_get_socket_returns_usable_socket_witness :
  let p' := snd (Pool.get_socket env1 false pool_with_closed_request_socket) in
  SocketInfo.closed (Pool.deref p' 2%positive) = false
  ∧ SocketInfo.pool_id (Pool.deref p' 2%positive) = Pool.pool_id p'
  ∧ SocketInfo.last_checkout (Pool.deref p' 2%positive) = time_time env1
  ∧ Pool.pid p' = os_getpid env1.
Proof.
  apply (X1_get_socket_returns_usable_socket env1 false pool_with_closed_request_socket).
  vm_compute. reflexivity.
Defined.

(* ===================================================================== *)
(** ** Proofs: permits *)
(* ===================================================================== *)

Lemma semaphore_release_acquire (s s' : Semaphore.t) :
  Semaphore.acquire_nonblocking s = (true, s') → Semaphore.release s' = s.
Proof.
  unfold Semaphore.acquire_nonblocking, Semaphore.release. destruct s as [[n|]]; simpl.
  - destruct (0 <? n); [|done]. intros [= <-]. simpl. f_equal. f_equal. lia.
  - by intros [= <-].
Qed.

Lemma semaphore_acquire_fails (s s' : Semaphore.t) :
  Semaphore.acquire_nonblocking s = (false, s') → s' = s.
Proof.
  unfold Semaphore.acquire_nonblocking. destruct s as [[n|]]; simpl; [|done].
  destruct (0 <? n); [done|]. by intros [= <-].
Qed.

Section SemaphoreFrame.
Context (s : Semaphore.t).

Lemma permits_connect (E : Env) : preserves (permits_are s) (Pool.connect E).
Proof. intros q Hq. unfold Pool.connect. by destruct (connect_fails E _). Qed.

Lemma permits_check (E : Env) (r : Ref) : preserves (permits_are s) (Pool._check E r).
Proof.
  unfold Pool._check. apply preserves_bind; [apply preserves_get|]. intros p.
  apply preserves_bind.
  - repeat case_match; try apply preserves_ret;
      (apply preserves_bind; [by apply preserves_modify | intros; apply preserves_ret]).
  - intros error. case_match; [apply preserves_ret|].
    apply preserves_try_except; [apply permits_connect|].
    intros e. apply preserves_bind; [|intros; apply preserves_raise].
    intros q Hq. unfold permits_are.
    destruct (reset_post E q) as (_ & _ & _ & _ & _ & _ & _ & _ & Hsem & _).
    by rewrite Hsem.
Qed.

Lemma permits_set_request_state (E : Env) (st : ReqState) :
  preserves (permits_are s) (Pool._set_request_state E st).
Proof.
  intros q Hq. unfold permits_are.
  by rewrite (proj1 (proj2 (proj2 (proj2 (proj2 (set_request_state_frame E st q)))))).
Qed.

Lemma permits_sockets_pop (E : Env) : preserves (permits_are s) (Pool.sockets_pop E).
Proof. intros q Hq. unfold Pool.sockets_pop. by destruct (elements _). Qed.

Lemma permits_checkout_body (E : Env) (forced : bool) (st : ReqState) :
  preserves (permits_are s)
    (popped <- Pool.sockets_pop E ;;
     sock_info <- match popped with
                  | Some r => Pool._check E r
                  | None => Pool.connect E
                  end ;;
     modify (Pool.update sock_info (SocketInfo.set_forced forced)) ;;
     when (bool_decide (st = NO_SOCKET_YET))
          (Pool._set_request_state E (ReqSock sock_info)) ;;
     ret sock_info).
Proof.
  apply preserves_bind; [apply permits_sockets_pop|]. intros popped.
  apply preserves_bind;
    [destruct popped; [apply permits_check | apply permits_connect]|].
  intros sock_info. apply preserves_bind; [by apply preserves_modify|]. intros _.
  apply preserves_bind; [apply preserves_when, permits_set_request_state|].
  intros; apply preserves_ret.
Qed.

Lemma permits_request_checkout (E : Env) (r0 : Ref) :
  preserves (permits_are s)
    (checked <- Pool._check E r0 ;;
     p2 <- get ;;
     when (Pool.sock_ne p2 checked (ReqSock r0))
          (Pool._set_request_state E (ReqSock checked)) ;;
     modify (Pool.update checked (SocketInfo.set_last_checkout (time_time E))) ;;
     ret checked).
Proof.
  apply preserves_bind; [apply permits_check|]. intros checked.
  apply preserves_bind; [apply preserves_get|]. intros p2.
  apply preserves_bind; [apply preserves_when, permits_set_request_state|]. intros _.
  apply preserves_bind; [by apply preserves_modify|]. intros; apply preserves_ret.
Qed.
End SemaphoreFrame.

(** X2.  A call of [get_socket] that raises leaves the permits as they
    were: a permit taken for the checkout is given back by the handler,
    and a forced checkout took none. *)
Theorem X2_get_socket_failure_keeps_permits
    (E : Env) (force : bool) (p p' : Pool.t) (e : Exn) :
  Pool.get_socket E force p = (Raise e, p') →
  Pool._socket_semaphore p' = Pool._socket_semaphore p.
Proof.
  rewrite get_socket_unfold. cbv zeta.
  rewrite <- (after_fork_check_semaphore E p).
  set (p0 := after_fork_check E p). clearbody p0.
  assert (Hfrom : ∀ st, Pool.get_socket_from_pool E force st p0 = (Raise e, p') →
                        Pool._socket_semaphore p' = Pool._socket_semaphore p0).
  { intros st. unfold Pool.get_socket_from_pool.
    unfold bind at 1. unfold get at 1.
    destruct (Semaphore.acquire_nonblocking (Pool._socket_semaphore p0)) as [ok s1] eqn:Hsem.
    intros [Hacq | (forced & p2 & Hacq & Hrest)]%bind_Raise.
    { revert Hacq. destruct force.
      - unfold bind, Pool.semaphore_try_acquire, ret. by rewrite Hsem.
      - unfold bind, Pool.semaphore_acquire_blocking, ret. rewrite Hsem.
        destruct ok; simpl; [done|].
        destruct (wait_queue_timeout _); simpl; [|done].
        unfold Pool._raise_wait_queue_timeout, raise. by intros [= _ <-]. }
    assert (Hp2 : p2 = Pool.set_socket_semaphore s1 p0 ∧ forced = negb ok).
    { revert Hacq. destruct force.
      - unfold bind, Pool.semaphore_try_acquire, ret. rewrite Hsem. by intros [= <- <-].
      - unfold bind, Pool.semaphore_acquire_blocking, ret. rewrite Hsem.
        destruct ok; simpl; [by intros [= <- <-]|].
        destruct (wait_queue_timeout _); simpl; [|done].
        unfold Pool._raise_wait_queue_timeout, raise. done. }
    destruct Hp2 as [-> ->].
    apply bind_Raise in Hrest as [Htry | (sock_info & p3 & _ & Hrest)].
    2:{ unfold bind, modify, ret in Hrest. simpl in Hrest. done. }
    apply try_except_Raise in Htry as [[_ ?] | (e1 & q & Hbody & _ & Hh)]; [done|].
    pose proof (permits_checkout_body s1 E (negb ok) st
                  (Pool.set_socket_semaphore s1 p0) eq_refl) as Hq.
    rewrite Hbody in Hq. unfold permits_are in Hq. simpl in Hq.
    revert Hh. unfold bind, when, raise. destruct ok; simpl.
    - unfold Pool.semaphore_release, modify. intros [= _ <-]. simpl. rewrite Hq.
      by apply semaphore_release_acquire.
    - unfold ret. intros [= _ <-]. rewrite Hq. by apply semaphore_acquire_fails. }
  destruct (default NO_REQUEST (Pool._tid_to_sock p0 !! ident_get E)) as [| |r0];
    [apply Hfrom | apply Hfrom |].
  intros Hreq.
  pose proof (permits_request_checkout (Pool._socket_semaphore p0) E r0 p0 eq_refl) as Hq.
  by rewrite Hreq in Hq.
Qed.

(** A connection that is refused: the 100 permits of a fresh pool are all
    there after the failed checkout. *)
Lemma X2_get_socket_failure_keeps_permits_witness :
  Pool._socket_semaphore (snd (Pool.get_socket env_refused false pool0))
  = {| Semaphore.counter := Some 100 |}.
Proof.
  apply (X2_get_socket_failure_keeps_permits env_refused false pool0
           (snd (Pool.get_socket env_refused false pool0))
           (socket_error "Connection refused")).
  vm_compute. reflexivity.
Defined.

(** X3.  With no permit left, a wait-queue timeout configured and no
    request socket to fall back on, an unforced [get_socket] raises
    [ConnectionFailure] with the timeout message and leaves the pool as
    it was. *)
Theorem X3_get_socket_wait_queue_timeout (E : Env) (p : Pool.t) (n t : Z) :
  Pool.pid p = os_getpid E →
  (∀ r, Pool._tid_to_sock p !! ident_get E ≠ Some (ReqSock r)) →
  Semaphore.counter (Pool._socket_semaphore p) = Some n → n ≤ 0 →
  wait_queue_timeout (Pool.opts p) = Some t →
  Pool.get_socket E false p =
  (Raise (ConnectionFailure
            ("Timed out waiting for socket from pool with max_size "
             ++ repr_option_Z (max_pool_size (Pool.opts p))
             ++ " and wait_queue_timeout " ++ str_Z t)), p).
Proof.
  intros Hpid Hreq Hsem Hn Ht. rewrite get_socket_unfold. cbv zeta.
  rewrite after_fork_check_same by done.
  assert (Hfrom : ∀ st, Pool.get_socket_from_pool E false st p =
    (Raise (ConnectionFailure
            ("Timed out waiting for socket from pool with max_size "
             ++ repr_option_Z (max_pool_size (Pool.opts p))
             ++ " and wait_queue_timeout " ++ str_Z t)), p)).
  { intros st. unfold Pool.get_socket_from_pool.
    unfold bind at 1. unfold get at 1. unfold bind at 1. unfold bind at 1.
    unfold Pool.semaphore_acquire_blocking, Semaphore.acquire_nonblocking.
    rewrite Hsem. replace (0 <? n) with false by (symmetry; by apply Z.ltb_ge).
    rewrite Ht. simpl. unfold Pool._raise_wait_queue_timeout, raise. by rewrite Ht. }
  destruct (Pool._tid_to_sock p !! ident_get E) as [[| |r]|] eqn:Hst; simpl; try apply Hfrom.
  by destruct (Hreq r).
Qed.

Lemma X3_get_socket_wait_queue_timeout_witness :
  Pool.get_socket env1 false pool_without_permits =
  (Raise (ConnectionFailure
            "Timed out waiting for socket from pool with max_size 0 and wait_queue_timeout 1"),
   pool_without_permits).
Proof.
  apply (X3_get_socket_wait_queue_timeout env1 pool_without_permits 0 1).
  - reflexivity.
  - intros r. vm_compute. discriminate.
  - reflexivity.
  - lia.
  - reflexivity.
Defined.

Lemma deref_sockets_add (r r' : Ref) (p : Pool.t) :
  Pool.deref (Pool.sockets_add r p) r' = Pool.deref p r'.
Proof. unfold Pool.sockets_add. by case_bool_decide. Qed.

Lemma semaphore_sockets_add (r : Ref) (p : Pool.t) :
  Pool._socket_semaphore (Pool.sockets_add r p) = Pool._socket_semaphore p.
Proof. unfold Pool.sockets_add. by case_bool_decide. Qed.

Lemma semaphore_update (r : Ref) (f : SocketInfo.t → SocketInfo.t) (p : Pool.t) :
  Pool._socket_semaphore (Pool.update r f p) = Pool._socket_semaphore p.
Proof. reflexivity. Qed.

(** [_return_socket] always returns; it gives back one permit unless the
    socket was forced, and leaves the socket unforced. *)
Lemma return_socket_permits (r : Ref) (p : Pool.t) :
  let p' := snd (Pool._return_socket r p) in
  fst (Pool._return_socket r p) = Ok tt
  ∧ Pool._socket_semaphore p' =
      (if SocketInfo.forced (Pool.deref p r) then Pool._socket_semaphore p
       else Semaphore.release (Pool._socket_semaphore p))
  ∧ SocketInfo.forced (Pool.deref p' r) = false.
Proof.
  unfold Pool._return_socket, Pool.semaphore_release, bind, get, modify. cbv zeta.
  destruct (negb _ && _); cbn [fst snd].
  - rewrite deref_sockets_add. destruct (SocketInfo.forced (Pool.deref p r)) eqn:Hf; cbn [fst snd].
    + rewrite deref_update, decide_True by done.
      by rewrite semaphore_update, semaphore_sockets_add.
    + split; [done|]. split.
      * cbn [Pool._socket_semaphore Pool.set_socket_semaphore].
        by rewrite semaphore_sockets_add.
      * change (Pool.deref (Pool.set_socket_semaphore _ ?q) r) with (Pool.deref q r).
        by rewrite deref_sockets_add.
  - rewrite deref_update, decide_True by done.
    change (SocketInfo.forced (SocketInfo.close (Pool.deref p r)))
      with (SocketInfo.forced (Pool.deref p r)).
    destruct (SocketInfo.forced (Pool.deref p r)) eqn:Hf; cbn [fst snd].
    + by rewrite deref_update, decide_True by done.
    + split; [done|]. split; [done|].
      change (Pool.deref (Pool.set_socket_semaphore _ ?q) r) with (Pool.deref q r).
      rewrite deref_update, decide_True by done. exact Hf.
Qed.

(** After [_return_socket] the socket is in the idle set, or closed. *)
Lemma return_socket_idle_or_closed (r : Ref) (p : Pool.t) :
  let p' := snd (Pool._return_socket r p) in
  sockets_contains p' r ∨ SocketInfo.closed (Pool.deref p' r) = true.
Proof.
  unfold Pool._return_socket, Pool.semaphore_release, bind, get, modify. cbv zeta.
  destruct (negb _ && _); cbn [fst snd].
  - left.
    assert (Hadd : sockets_contains (Pool.sockets_add r p) r).
    { unfold sockets_contains, Pool.sockets_add. case_bool_decide as Hex; [exact Hex|].
      exists r. split; [|done]. simpl. apply elem_of_union_l. by apply elem_of_singleton. }
    rewrite deref_sockets_add.
    destruct (SocketInfo.forced (Pool.deref p r)); cbn [fst snd]; [|exact Hadd].
    destruct Hadd as (x & Hx & Hsock). exists x. split; [exact Hx|].
    rewrite !deref_update. repeat case_decide; subst; simpl; done.
  - right. rewrite deref_update, decide_True by done.
    change (SocketInfo.forced (SocketInfo.close (Pool.deref p r)))
      with (SocketInfo.forced (Pool.deref p r)).
    destruct (SocketInfo.forced (Pool.deref p r)); cbn [fst snd].
    + by rewrite !deref_update, !decide_True by done.
    + change (Pool.deref (Pool.set_socket_semaphore _ ?q) r) with (Pool.deref q r).
      by rewrite deref_update, decide_True by done.
Qed.

(** Returning an open socket in the process that owns the pool. *)
Lemma maybe_return_socket_open (E : Env) (r : Ref) (p : Pool.t) :
  Pool.pid p = os_getpid E → SocketInfo.closed (Pool.deref p r) = false →
  Pool.maybe_return_socket E (ReqSock r) p =
  if Pool.sock_ne p r (default NO_REQUEST (Pool._tid_to_sock p !! ident_get E))
  then Pool._return_socket r p else (Ok tt, p).
Proof.
  intros Hpid Hopen. unfold Pool.maybe_return_socket.
  unfold bind at 1. unfold get at 1. simpl.
  rewrite Hpid, Z.eqb_refl, Hopen. simpl.
  unfold bind, Pool._get_request_state, when. by destruct (Pool.sock_ne _ _ _).
Qed.

Lemma sock_ne_self (p : Pool.t) (r : Ref) : Pool.sock_ne p r (ReqSock r) = false.
Proof.
  unfold Pool.sock_ne, SocketInfo.__ne__, SocketInfo.__eq__. simpl.
  by rewrite bool_decide_eq_true_2.
Qed.

Lemma get_socket_from_pool_permits (E : Env) (force : bool) (st : ReqState)
    (p p' : Pool.t) (r : Ref) :
  Pool.get_socket_from_pool E force st p = (Ok r, p') →
  ∃ ok s1,
    Semaphore.acquire_nonblocking (Pool._socket_semaphore p) = (ok, s1)
    ∧ (force = false → ok = true)
    ∧ Pool._socket_semaphore p' = s1
    ∧ SocketInfo.forced (Pool.deref p' r) = negb ok.
Proof.
  intros (ok & s1 & popped & q1 & q2 & Hsem & Hok & Hpop & Hsock & ->)%get_socket_from_pool_Ok.
  exists ok, s1. split; [done|]. split; [done|].
  assert (Hq1 : Pool._socket_semaphore q1 = s1).
  { pose proof (permits_sockets_pop s1 E (Pool.set_socket_semaphore s1 p) eq_refl) as H.
    by rewrite Hpop in H. }
  assert (Hq2 : Pool._socket_semaphore q2 = s1).
  { destruct popped as [r0|].
    - pose proof (permits_check s1 E r0 q1 Hq1) as H. by rewrite Hsock in H.
    - pose proof (permits_connect s1 E q1 Hq1) as H. by rewrite Hsock in H. }
  cbv zeta. rewrite deref_update, decide_True by done. rewrite semaphore_update.
  destruct (bool_decide (st = NO_SOCKET_YET)).
  - rewrite deref_set_request_state, deref_update, decide_True by done.
    split; [|done].
    by rewrite (proj1 (proj2 (proj2 (proj2 (proj2 (set_request_state_frame E (ReqSock r) _)))))).
  - by rewrite deref_update, decide_True by done.
Qed.

Lemma get_socket_unbound (E : Env) (force : bool) (p p1 : Pool.t) (r : Ref) :
  Pool._tid_to_sock p !! ident_get E = None →
  Pool.get_socket E force p = (Ok r, p1) →
  Pool._tid_to_sock p1 !! ident_get E = None.
Proof.
  intros Hreq Hget.
  pose proof (get_socket_rebinds E force p) as (_ & Ht & _). rewrite Hget in Ht. simpl in Ht.
  destruct (Ht (ident_get E)) as [Heq | [(st & Hst & _) _]]; [by rewrite Heq | congruence].
Qed.

(** Returning a socket from a process that is not the pool's: the permit
    of an unforced checkout is released, then the pool is reset. *)
Lemma maybe_return_socket_forked (E : Env) (r : Ref) (p : Pool.t) :
  Pool.pid p ≠ os_getpid E →
  let p2 := snd (Pool.maybe_return_socket E (ReqSock r) p) in
  fst (Pool.maybe_return_socket E (ReqSock r) p) = Ok tt
  ∧ Pool._socket_semaphore p2
    = (if SocketInfo.forced (Pool.deref p r) then Pool._socket_semaphore p
       else Semaphore.release (Pool._socket_semaphore p))
  ∧ Pool._tid_to_sock p2 = Pool._tid_to_sock p
  ∧ Pool.sockets p2 = ∅.
Proof.
  intros Hpid. cbv zeta. unfold Pool.maybe_return_socket.
  rewrite (bind_eq_Ok get _ p p p eq_refl). rewrite is_sentinel_sock.
  rewrite (proj2 (Z.eqb_neq _ _) Hpid). cbn [negb].
  destruct (SocketInfo.forced (Pool.deref p r)); cbn [negb when].
  - rewrite (bind_eq_Ok (ret tt) _ p p tt eq_refl).
    destruct (reset_post E p) as (Hfst & Hs & _ & _ & _ & _ & Ht & _ & Hsem & _).
    by repeat split.
  - unfold Pool.semaphore_release.
    erewrite (bind_eq_Ok (modify _) _ p _ tt) by reflexivity.
    destruct (reset_post E (Pool.set_socket_semaphore
                              (Semaphore.release (Pool._socket_semaphore p)) p))
      as (Hfst & Hs & _ & _ & _ & _ & Ht & _ & Hsem & _).
    by repeat split.
Qed.

Lemma checkout_return_permits (E E' : Env) (force : bool) (p p1 : Pool.t) (r : Ref) :
  Pool._tid_to_sock p !! ident_get E = None →
  ident_get E' = ident_get E →
  Pool.get_socket E force p = (Ok r, p1) →
  let p2 := snd (Pool.maybe_return_socket E' (ReqSock r) p1) in
  fst (Pool.maybe_return_socket E' (ReqSock r) p1) = Ok tt
  ∧ Pool._socket_semaphore p2 = Pool._socket_semaphore p
  ∧ (os_getpid E' = os_getpid E → SocketInfo.forced (Pool.deref p2 r) = false)
  ∧ Pool._tid_to_sock p2 !! ident_get E = None.
Proof.
  intros Hreq Htid Hget.
  pose proof (get_socket_usable E force p p1 r Hget) as (Hopen & _ & _ & Hpid).
  pose proof (get_socket_unbound E force p p1 r Hreq Hget) as Hreq1.
  assert (Hperm1 : ∃ ok s1,
             Semaphore.acquire_nonblocking (Pool._socket_semaphore p) = (ok, s1)
             ∧ Pool._socket_semaphore p1 = s1
             ∧ SocketInfo.forced (Pool.deref p1 r) = negb ok).
  { revert Hget. rewrite get_socket_unfold. cbv zeta.
    rewrite after_fork_check_requests, Hreq. simpl.
    intros (ok & s1 & Hsem & _ & Hs1 & Hforced)%get_socket_from_pool_permits.
    rewrite after_fork_check_semaphore in Hsem. by exists ok, s1. }
  destruct Hperm1 as (ok & s1 & Hsem & Hs1 & Hforced).
  assert (Hback : (if SocketInfo.forced (Pool.deref p1 r) then Pool._socket_semaphore p1
                   else Semaphore.release (Pool._socket_semaphore p1))
                  = Pool._socket_semaphore p).
  { rewrite Hforced, Hs1. destruct ok; simpl.
    - by apply semaphore_release_acquire.
    - by apply semaphore_acquire_fails. }
  cbv zeta. destruct (decide (os_getpid E' = os_getpid E)) as [Hsame|Hfork].
  - rewrite maybe_return_socket_open by congruence.
    rewrite Htid, Hreq1. simpl.
    pose proof (return_socket_permits r p1) as (Hfst & Hperm & Hunf).
    split; [done|]. split; [by rewrite Hperm|]. split; [done|].
    pose proof (steps_return_socket (λ _, True) r p1 I) as (_ & Ht & _).
    destruct (Ht (ident_get E)) as [Heq | [(st & Hst & _) _]]; [by rewrite Heq | congruence].
  - destruct (maybe_return_socket_forked E' r p1) as (Hfst & Hperm & Ht & _); [congruence|].
    split; [done|]. split; [by rewrite Hperm|]. split; [done|]. by rewrite Ht.
Qed.



(* ===================================================================== *)
(** ** Proofs: reuse of sockets, requests *)
(* ===================================================================== *)

(** A checkout that finds the idle set empty connects. *)
Lemma get_socket_from_empty_pool (E : Env) (force : bool) (st : ReqState)
    (p p' : Pool.t) (r : Ref) :
  Pool.sockets p = ∅ →
  Pool.get_socket_from_pool E force st p = (Ok r, p') →
  ∃ ok s1,
    Semaphore.acquire_nonblocking (Pool._socket_semaphore p) = (ok, s1)
    ∧ (force = false → ok = true)
    ∧ r = Pool.next_ref p
    ∧ p' = Pool.update r (SocketInfo.set_last_checkout (time_time E))
             (let q3 := Pool.update r (SocketInfo.set_forced (negb ok))
                          (Pool.set_next_ref (Pos.succ r)
                             (Pool.set_objs
                                (<[r := SocketInfo.__init__ r (Pool.pool_id p)
                                          (fst (Pool.pair p)) (time_time E)]> (Pool.objs p))
                                (Pool.set_socket_semaphore s1 p))) in
              if bool_decide (st = NO_SOCKET_YET)
              then snd (Pool._set_request_state E (ReqSock r) q3) else q3).
Proof.
  intros Hempty (ok & s1 & popped & q1 & q2 & Hsem & Hok & Hpop & Hsock & ->)%get_socket_from_pool_Ok.
  exists ok, s1. split; [done|]. split; [done|].
  revert Hpop. unfold Pool.sockets_pop. simpl. rewrite Hempty, elements_empty.
  intros [= <- <-]. apply connect_Ok in Hsock as [-> ->]. done.
Qed.

Lemma sockets_add_fresh (r : Ref) (p : Pool.t) :
  Pool.sockets p = ∅ → Pool.sockets (Pool.sockets_add r p) = {[r]}.
Proof.
  intros Hempty. unfold Pool.sockets_add. rewrite bool_decide_eq_false_2.
  - simpl. rewrite Hempty. by rewrite union_empty_r_L.
  - rewrite Hempty. intros (x & Hx & _). by apply not_elem_of_empty in Hx.
Qed.

(** A checkout from a pool whose only idle socket is healthy takes that
    socket and connects nothing. *)
Lemma get_socket_pops_healthy (E : Env) (force : bool) (p : Pool.t) (r : Ref) :
  Pool.pid p = os_getpid E →
  Pool._tid_to_sock p !! ident_get E = None →
  Pool.sockets p = {[r]} →
  SocketInfo.closed (Pool.deref p r) = false →
  SocketInfo.pool_id (Pool.deref p r) = Pool.pool_id p →
  select_readable E (SocketInfo.sock (Pool.deref p r)) = false →
  (force = false → fst (Semaphore.acquire_nonblocking (Pool._socket_semaphore p)) = true) →
  ∃ p', Pool.get_socket E force p = (Ok r, p')
        ∧ Pool.next_ref p' = Pool.next_ref p ∧ Pool.sockets p' = ∅.
Proof.
  intros Hpid Hreq Hs Hopen Hid Hsel Hperm.
  rewrite get_socket_unfold. cbv zeta. rewrite after_fork_check_same by done.
  rewrite Hreq. simpl. unfold Pool.get_socket_from_pool.
  rewrite (bind_eq_Ok get _ p p p eq_refl).
  destruct (Semaphore.acquire_nonblocking (Pool._socket_semaphore p)) as [ok s1] eqn:Hsem.
  set (p_a := Pool.set_socket_semaphore s1 p).
  assert (Hacq : (if force
                  then ok0 <- Pool.semaphore_try_acquire ;; ret (negb ok0)
                  else ok0 <- Pool.semaphore_acquire_blocking (wait_queue_timeout (Pool.opts p)) ;;
                       if ok0 then ret false else Pool._raise_wait_queue_timeout) p
                 = (Ok (negb ok), p_a)).
  { destruct force.
    - unfold bind, Pool.semaphore_try_acquire, ret. by rewrite Hsem.
    - specialize (Hperm eq_refl). simpl in Hperm. subst ok.
      unfold bind, Pool.semaphore_acquire_blocking, ret. by rewrite Hsem. }
  assert (Hpop : Pool.sockets_pop E p_a = (Ok (Some r), Pool.set_sockets ∅ p_a)).
  { unfold Pool.sockets_pop. subst p_a. simpl. rewrite Hs, elements_singleton.
    assert (Hr : (if bool_decide (set_pop E {[r]} ∈ ({[r]} : gset Ref))
                  then set_pop E {[r]} else r) = r).
    { case_bool_decide as Hin; [by apply elem_of_singleton in Hin | done]. }
    rewrite Hr. by rewrite difference_diag_L. }
  rewrite (bind_eq_Ok _ _ _ _ _ Hacq).
  assert (Hbody :
    (popped <- Pool.sockets_pop E ;;
     sock_info <- match popped with
                  | Some r => Pool._check E r
                  | None => Pool.connect E
                  end ;;
     modify (Pool.update sock_info (SocketInfo.set_forced (negb ok))) ;;
     when (bool_decide (NO_REQUEST = NO_SOCKET_YET))
          (Pool._set_request_state E (ReqSock sock_info)) ;;
     ret sock_info) p_a
    = (Ok r, Pool.update r (SocketInfo.set_forced (negb ok)) (Pool.set_sockets ∅ p_a))).
  { rewrite (bind_eq_Ok _ _ _ _ _ Hpop).
    rewrite (bind_eq_Ok _ _ _ _ _ (check_healthy E r (Pool.set_sockets ∅ p_a) Hopen Hid Hsel)).
    reflexivity. }
  rewrite (bind_eq_Ok _ _ _ _ _ (try_except_eq_Ok _ _ _ _ _ _ Hbody)).
  eexists. split; [reflexivity|]. done.
Qed.

(** X5.  A pool with an empty idle set connects for a checkout; once the
    thread has returned that socket, in the same process, it is the idle
    set, and the thread's next checkout there, at whatever time, hands out
    the very same socket without connecting, as long as [select] does not
    report it readable then, [max_pool_size] lets the idle set hold one,
    and the checkout is forced or the first one was not. *)
Theorem X5_returned_socket_is_reused
    (E E2 E3 : Env) (force force' : bool) (p p1 : Pool.t) (r : Ref) :
  Pool.sockets p = ∅ →
  Pool._tid_to_sock p !! ident_get E = None →
  match max_pool_size (Pool.opts p) with Some m => 0 < m | None => True end →
  Pool.get_socket E force p = (Ok r, p1) →
  same_caller E E2 → same_caller E E3 →
  select_readable E3 (SocketInfo.sock (Pool.deref p1 r)) = false →
  (force' = false → force = false) →
  let p2 := snd (Pool.maybe_return_socket E2 (ReqSock r) p1) in
  Pool.sockets p2 = {[r]}
  ∧ ∃ p3, Pool.get_socket E3 force' p2 = (Ok r, p3)
          ∧ Pool.next_ref p3 = Pool.next_ref p1 ∧ Pool.sockets p3 = ∅.
Proof.
  intros Hempty Hreq Hroom Hget [Hpid2 Htid2] [Hpid3 Htid3] Hsel Hforce.
  pose proof (get_socket_usable E force p p1 r Hget) as (Hopen & Hid & _ & Hpid).
  pose proof (checkout_return_permits E E2 force p p1 r Hreq Htid2 Hget) as Hrt.
  cbv zeta in Hrt. destruct Hrt as (_ & Hsem2 & _ & Hreq2).
  pose proof (get_socket_unbound E force p p1 r Hreq Hget) as Hreq1.
  revert Hget. rewrite get_socket_unfold. cbv zeta.
  rewrite after_fork_check_requests, Hreq. simpl.
  pose proof (after_fork_check_frame E p) as (_ & _ & Hsem0 & Hopts & _ & Hempty0).
  specialize (Hempty0 Hempty). cbv zeta in Hopts, Hsem0.
  set (p0 := after_fork_check E p) in *.
  intros Hget.
  apply (get_socket_from_empty_pool E force NO_REQUEST p0 p1 r Hempty0) in Hget
    as (ok & s1 & Hacq & Hok & Hr & Hp1).
  rewrite bool_decide_eq_false_2 in Hp1 by done. cbv zeta in Hp1.
  revert Hsem2 Hreq2. rewrite maybe_return_socket_open by congruence.
  rewrite Htid2, Hreq1. simpl.
  set (p2 := snd (Pool._return_socket r p1)). intros Hsem2 Hreq2.
  assert (Hp2 : Pool.sockets p2 = {[r]} ∧ Pool.pid p2 = Pool.pid p1
                ∧ Pool.pool_id p2 = Pool.pool_id p1 ∧ Pool.next_ref p2 = Pool.next_ref p1
                ∧ SocketInfo.closed (Pool.deref p2 r) = false
                ∧ SocketInfo.pool_id (Pool.deref p2 r) = SocketInfo.pool_id (Pool.deref p1 r)
                ∧ SocketInfo.sock (Pool.deref p2 r) = SocketInfo.sock (Pool.deref p1 r)).
  { subst p2. unfold Pool._return_socket, Pool.semaphore_release, bind, get, modify. cbv zeta.
    assert (Hs1 : Pool.sockets p1 = ∅) by (by rewrite Hp1).
    assert (Hcond : negb (match max_pool_size (Pool.opts p1) with
                          | Some max_size => max_size <=? Z.of_nat (size (Pool.sockets p1))
                          | None => false
                          end)
                    && (SocketInfo.pool_id (Pool.deref p1 r) =? Pool.pool_id p1) = true).
    { rewrite Hid, Z.eqb_refl, andb_true_r, Hs1, size_empty.
      replace (Pool.opts p1) with (Pool.opts p) by (by rewrite Hp1, <- Hopts).
      destruct (max_pool_size (Pool.opts p)) as [m|]; [|done].
      apply negb_true_iff, Z.leb_gt. simpl. lia. }
    rewrite Hcond. cbn [fst snd]. rewrite deref_sockets_add.
    destruct (SocketInfo.forced (Pool.deref p1 r)); cbn [fst snd].
    - rewrite deref_update, decide_True by done. simpl.
      rewrite sockets_add_fresh by done.
      unfold Pool.sockets_add. case_bool_decide; simpl; by rewrite ?Hopen.
    - change (Pool.deref (Pool.set_socket_semaphore _ ?q) r) with (Pool.deref q r).
      rewrite deref_sockets_add. simpl. rewrite sockets_add_fresh by done.
      unfold Pool.sockets_add. case_bool_decide; simpl; by rewrite ?Hopen. }
  destruct Hp2 as (Hs2 & Hpid2' & Hpool2 & Hnext2 & Hopen2 & Hid2 & Hsock2).
  split; [exact Hs2|].
  rewrite <- Hnext2. apply get_socket_pops_healthy; try done.
  - congruence.
  - congruence.
  - congruence.
  - by rewrite Hsock2.
  - intros Hf. rewrite Hsem2, <- Hsem0, Hacq. simpl. apply Hok. by apply Hforce.
Qed.

Lemma X5_returned_socket_is_reused_witness :
  let p1 := snd (Pool.get_socket env1 false pool0) in
  let p2 := snd (Pool.maybe_return_socket env1 (ReqSock 1%positive) p1) in
  Pool.sockets p2 = {[1%positive]}
  ∧ ∃ p3, Pool.get_socket env1_later true p2 = (Ok 1%positive, p3)
          ∧ Pool.next_ref p3 = Pool.next_ref p1 ∧ Pool.sockets p3 = ∅.
Proof.
  apply (X5_returned_socket_is_reused env1 env1 env1_later false true pool0).
  - reflexivity.
  - reflexivity.
  - simpl. lia.
  - vm_compute. reflexivity.
  - by split.
  - by split.
  - reflexivity.
  - discriminate.
Defined.

Lemma get_socket_binds (E : Env) (force : bool) (p p1 : Pool.t) (r : Ref) :
  Pool._tid_to_sock p !! ident_get E = Some NO_SOCKET_YET →
  Pool.get_socket E force p = (Ok r, p1) →
  Pool._tid_to_sock p1 !! ident_get E = Some (ReqSock r).
Proof.
  intros Hreq. rewrite get_socket_unfold. cbv zeta.
  rewrite after_fork_check_requests, Hreq. simpl.
  intros (ok & s1 & popped & q1 & q2 & _ & _ & _ & _ & ->)%get_socket_from_pool_Ok.
  cbv zeta. unfold Pool._set_request_state, modify. simpl.
  repeat case_bool_decide; try done; simpl; by rewrite lookup_insert_eq.
Qed.

(** While the thread only uses its request socket, it keeps it. *)
Lemma pinned_return (E E' : Env) (r : Ref) (sock : positive) (q : Pool.t) :
  pinned E r sock q → same_caller E E' →
  Pool.maybe_return_socket E' (ReqSock r) q = (Ok tt, q).
Proof.
  intros (Hbound & Hopen & Hid & Hpid & Hsock) [Hpid' Htid'].
  rewrite maybe_return_socket_open by congruence.
  rewrite Htid', Hbound. simpl. by rewrite sock_ne_self.
Qed.

Lemma pinned_checkout (E E' : Env) (force : bool) (r : Ref) (sock : positive) (q : Pool.t) :
  pinned E r sock q → same_caller E E' → select_readable E' sock = false →
  Pool.get_socket E' force q
  = (Ok r, Pool.update r (SocketInfo.set_last_checkout (time_time E')) q).
Proof.
  intros (Hbound & Hopen & Hid & Hpid & Hsock) [Hpid' Htid'] Hsel.
  rewrite get_socket_unfold. cbv zeta.
  rewrite after_fork_check_same by congruence.
  rewrite Htid', Hbound. simpl.
  unfold bind at 1. rewrite check_healthy by (by rewrite ?Hsock).
  unfold bind at 1. unfold get at 1. rewrite sock_ne_self. reflexivity.
Qed.

Lemma pinned_run (E : Env) (r : Ref) (sock : positive) (history : list (Env * PoolOp)) :
  ∀ q, pinned E r sock q → Forall (request_step E r sock) history →
       pinned E r sock (run history q).
Proof.
  induction history as [|[E' op] history IH]; intros q Hq Hall; [exact Hq|].
  apply Forall_cons in Hall as [(Hcaller & Hsel & Hop) Hall]. simpl in Hcaller, Hsel, Hop.
  unfold run. simpl. apply IH; [|exact Hall].
  destruct Hop as [[force ->] | ->]; simpl.
  - rewrite (pinned_checkout E E' force r sock q Hq Hcaller Hsel). simpl.
    destruct Hq as (Hbound & Hopen & Hid & Hpid & Hsock).
    unfold pinned. rewrite deref_update, decide_True by done. by repeat split.
  - by rewrite (pinned_return E E' r sock q Hq Hcaller).
Qed.

(** X6.  The first checkout after [start_request] binds its socket to
    the calling thread.  From then on, through any sequence of checkouts
    and returns of that socket by the thread in the same process during
    which [select] never reports the socket readable, returning the socket
    changes nothing and every checkout gets the same socket, with only the
    checkout time renewed. *)
Theorem X6_request_pins_socket
    (E E' : Env) (force force' : bool) (p p1 : Pool.t) (r : Ref)
    (history : list (Env * PoolOp)) :
  Pool._tid_to_sock p !! ident_get E = Some NO_SOCKET_YET →
  Pool.get_socket E force p = (Ok r, p1) →
  Forall (request_step E r (SocketInfo.sock (Pool.deref p1 r))) history →
  same_caller E E' →
  select_readable E' (SocketInfo.sock (Pool.deref p1 r)) = false →
  let q := run history p1 in
  Pool._tid_to_sock p1 !! ident_get E = Some (ReqSock r)
  ∧ Pool.maybe_return_socket E' (ReqSock r) q = (Ok tt, q)
  ∧ Pool.get_socket E' force' q
    = (Ok r, Pool.update r (SocketInfo.set_last_checkout (time_time E')) q).
Proof.
  intros Hreq Hget Hall Hcaller Hsel q.
  pose proof (get_socket_usable E force p p1 r Hget) as (Hopen & Hid & _ & Hpid).
  pose proof (get_socket_binds E force p p1 r Hreq Hget) as Hbound.
  assert (Hq : pinned E r (SocketInfo.sock (Pool.deref p1 r)) q).
  { apply pinned_run; [by repeat split | exact Hall]. }
  split; [exact Hbound|]. split.
  - by apply (pinned_return E E' r _ q Hq).
  - by apply (pinned_checkout E E' force' r _ q Hq).
Qed.

(** A request on a fresh pool: the socket is returned, checked out again
    five ticks later and returned; the next checkout still gets it. *)
Lemma X6_request_pins_socket_witness :
  let p1 := snd (Pool.get_socket env1 false (exec env1 OpStartRequest pool0)) in
  let q := run [(env1, OpMaybeReturnSocket (ReqSock 1%positive));
                (env1_later, OpGetSocket false);
                (env1_later, OpMaybeReturnSocket (ReqSock 1%positive))] p1 in
  Pool._tid_to_sock p1 !! 1%positive = Some (ReqSock 1%positive)
  ∧ Pool.maybe_return_socket env1_later (ReqSock 1%positive) q = (Ok tt, q)
  ∧ Pool.get_socket env1_later true q
    = (Ok 1%positive, Pool.update 1%positive (SocketInfo.set_last_checkout 5) q).
Proof.
  intros p1.
  apply (X6_request_pins_socket env1 env1_later false true
           (exec env1 OpStartRequest pool0)).
  - reflexivity.
  - vm_compute. reflexivity.
  - repeat (apply Forall_cons; split;
              [split; [by split|]; split; [reflexivity|]; (by right) || (left; by eexists)|]).
    constructor.
  - by split.
  - reflexivity.
Defined.

Lemma end_request_last_socket (E : Env) (p : Pool.t) (r : Ref) :
  Pool.Counter_get (ident_get E) p = 1 →
  Pool._tid_to_sock p !! ident_get E = Some (ReqSock r) →
  exec E OpEndRequest p
  = snd (Pool._return_socket r (unbind (ident_get E) (Pool.Counter_dec (ident_get E) p))).
Proof.
  intros Hc Hst. unfold exec, Pool.end_request.
  rewrite (bind_eq_Ok get _ p p p eq_refl). rewrite Hc. simpl.
  unfold bind at 1. unfold modify at 1.
  unfold bind at 1. unfold Pool._get_request_state at 1.
  change (Pool._tid_to_sock (Pool.Counter_dec (ident_get E) p)) with (Pool._tid_to_sock p).
  rewrite Hst. simpl. reflexivity.
Qed.

(** X7.  A whole request: [start_request] by a thread that is in none, a
    checkout, [end_request].  The checkout's socket is the request socket
    in between; afterwards the thread has no request state, its counter
    is 0, the permits are what they were before the request, and the
    socket is unforced and either in the idle set or closed. *)
Theorem X7_request_lifecycle (E : Env) (force : bool) (p p2 : Pool.t) (r : Ref) :
  request_consistent (ident_get E) p →
  Pool.Counter_get (ident_get E) p = 0 →
  Pool.get_socket E force (exec E OpStartRequest p) = (Ok r, p2) →
  let p3 := exec E OpEndRequest p2 in
  Pool._tid_to_sock p2 !! ident_get E = Some (ReqSock r)
  ∧ Pool._tid_to_sock p3 !! ident_get E = None
  ∧ Pool.Counter_get (ident_get E) p3 = 0
  ∧ Pool._socket_semaphore p3 = Pool._socket_semaphore p
  ∧ SocketInfo.forced (Pool.deref p3 r) = false
  ∧ (sockets_contains p3 r ∨ SocketInfo.closed (Pool.deref p3 r) = true).
Proof.
  intros (_ & Hzero & _) Hc Hget. destruct (Hzero Hc) as [Hnone Hwatch].
  rewrite (start_request_unbound E p Hnone Hwatch) in Hget.
  set (p1 := Pool.Counter_inc _ _) in Hget.
  assert (Hst1 : Pool._tid_to_sock p1 !! ident_get E = Some NO_SOCKET_YET)
    by (subst p1; simpl; by rewrite lookup_insert_eq).
  pose proof (get_socket_binds E force p1 p2 r Hst1 Hget) as Hst2.
  assert (Hc2 : Pool.Counter_get (ident_get E) p2 = 1).
  { pose proof (get_socket_rebinds E force p1) as (Hcnt & _). rewrite Hget in Hcnt.
    simpl in Hcnt. unfold Pool.Counter_get. rewrite Hcnt.
    change (Pool.Counter_get (ident_get E) p1 = 1). subst p1.
    rewrite Counter_get_inc, decide_True by done.
    change (Pool.Counter_get (ident_get E) p + 1 = 1). lia. }
  assert (Hperm : ∃ ok s1,
             Semaphore.acquire_nonblocking (Pool._socket_semaphore p) = (ok, s1)
             ∧ Pool._socket_semaphore p2 = s1
             ∧ SocketInfo.forced (Pool.deref p2 r) = negb ok).
  { revert Hget. rewrite get_socket_unfold. cbv zeta.
    rewrite after_fork_check_requests, Hst1. simpl.
    intros (ok & s1 & Hacq & _ & Hs & Hf)%get_socket_from_pool_permits.
    rewrite after_fork_check_semaphore in Hacq. by exists ok, s1. }
  destruct Hperm as (ok & s1 & Hacq & Hs2 & Hf2).
  cbv zeta. rewrite (end_request_last_socket E p2 r Hc2 Hst2).
  set (q := unbind (ident_get E) (Pool.Counter_dec (ident_get E) p2)).
  pose proof (return_socket_permits r q) as (_ & Hperm & Hunf).
  pose proof (return_socket_idle_or_closed r q) as Hidle.
  pose proof (return_socket_requests r q) as Hcnt.
  cbv zeta in Hperm, Hunf, Hidle.
  split; [exact Hst2|]. split; [|split; [|split; [|split; [exact Hunf | exact Hidle]]]].
  - pose proof (steps_return_socket (λ _, True) r q I) as (_ & Ht & _).
    destruct (Ht (ident_get E)) as [Heq | [(st & Hst & _) _]].
    + rewrite Heq. subst q. unfold unbind. simpl. by rewrite lookup_delete_eq.
    + subst q. unfold unbind in Hst. simpl in Hst. by rewrite lookup_delete_eq in Hst.
  - unfold Pool.Counter_get. rewrite Hcnt. subst q. unfold unbind. simpl.
    rewrite lookup_insert_eq. simpl. lia.
  - rewrite Hperm. subst q.
    change (Pool.deref (unbind _ (Pool.Counter_dec _ ?x)) r) with (Pool.deref x r).
    change (Pool._socket_semaphore (unbind _ (Pool.Counter_dec _ ?x)))
      with (Pool._socket_semaphore x).
    rewrite Hf2, Hs2. destruct ok; simpl.
    + by apply semaphore_release_acquire.
    + by apply semaphore_acquire_fails.
Qed.

Lemma X7_request_lifecycle_witness :
  let p2 := snd (Pool.get_socket env1 false (exec env1 OpStartRequest pool0)) in
  let p3 := exec env1 OpEndRequest p2 in
  Pool._tid_to_sock p3 !! 1%positive = None
  ∧ Pool._socket_semaphore p3 = {| Semaphore.counter := Some 100 |}.
Proof.
  intros p2 p3.
  destruct (X7_request_lifecycle env1 false pool0 p2 1%positive) as (_ & Ht & _ & Hs & _).
  - split; [by vm_compute|]. split.
    + intros _. split; [reflexivity|]. apply not_elem_of_empty.
    + vm_compute. discriminate.
  - reflexivity.
  - vm_compute. reflexivity.
  - split; [exact Ht | exact Hs].
Defined.

(* ===================================================================== *)
(** ** Proofs: reset, fork, and bounds that hold after every history *)
(* ===================================================================== *)

(** X8.  [reset] always returns.  It empties the idle set, moves the pool
    to the next [pool_id] and to the calling process, and closes every
    socket that was idle, changing nothing else about it; sockets that
    were checked out are untouched, and so are the request table, the
    request counters and the permits. *)
Theorem X8_reset_discards_idle_sockets (E : Env) (p : Pool.t) :
  let p' := snd (Pool.reset E p) in
  fst (Pool.reset E p) = Ok tt
  ∧ Pool.sockets p' = ∅
  ∧ Pool.pool_id p' = Pool.pool_id p + 1
  ∧ Pool.pid p' = os_getpid E
  ∧ (∀ r, r ∈ Pool.sockets p → Pool.deref p' r = SocketInfo.close (Pool.deref p r))
  ∧ (∀ r, r ∉ Pool.sockets p → Pool.objs p' !! r = Pool.objs p !! r)
  ∧ Pool._tid_to_sock p' = Pool._tid_to_sock p
  ∧ Pool._request_counter p' = Pool._request_counter p
  ∧ Pool._socket_semaphore p' = Pool._socket_semaphore p.
Proof.
  destruct (reset_post E p) as (H1 & H2 & H3 & H4 & H5 & H6 & H7 & H8 & H9 & _).
  by repeat split.
Qed.

Lemma idle_bounded_invariant : pool_invariant idle_bounded.
Proof.
  split; try done.
  - intros p r Hp. unfold idle_bounded in *. simpl.
    destruct (max_pool_size (Pool.opts p)); [|done].
    assert (size (Pool.sockets p ∖ {[r]}) ≤ size (Pool.sockets p))%nat; [|lia].
    apply subseteq_size. intros x [Hx _]%elem_of_difference. exact Hx.
  - intros E p Hp. unfold idle_bounded.
    destruct (reset_post E p) as (_ & -> & _ & _ & _ & _ & _ & _ & _ & _ & ->).
    destruct (max_pool_size _); [|done]. rewrite size_empty. lia.
  - intros E p r p' [-> ->]%connect_Ok Hp. exact Hp.
  - intros p r Hroom _ Hp. unfold idle_bounded, Pool.sockets_add in *.
    case_bool_decide as Hex; [exact Hp|]. simpl.
    destruct (max_pool_size (Pool.opts p)) as [m|]; [|done].
    assert (size ({[r]} ∪ Pool.sockets p) ≤ 1 + size (Pool.sockets p))%nat; [|lia].
    rewrite size_union_alt, size_singleton.
    assert (size (Pool.sockets p ∖ {[r]}) ≤ size (Pool.sockets p))%nat; [|lia].
    apply subseteq_size. intros x [Hx _]%elem_of_difference. exact Hx.
Qed.

Lemma generation_bounded_invariant : pool_invariant generation_bounded.
Proof.
  split; try done.
  - intros p r f Hf _ [H0 Hp]. split; [exact H0|]. intros r'.
    rewrite deref_update. case_decide; [rewrite Hf|]; apply Hp.
  - intros E p [H0 Hp].
    destruct (reset_post E p) as (_ & _ & Hid & _ & Hin & Hout & _).
    unfold generation_bounded. rewrite Hid. split; [lia|]. intros r.
    destruct (decide (r ∈ Pool.sockets p)) as [Hr|Hr].
    + rewrite (Hin r Hr). simpl. specialize (Hp r). lia.
    + unfold Pool.deref. rewrite (Hout r Hr). specialize (Hp r). unfold Pool.deref in Hp. lia.
  - intros E p r p' [-> ->]%connect_Ok [H0 Hp]. split; [exact H0|]. intros r'.
    unfold Pool.deref. simpl. destruct (decide (Pool.next_ref p = r')) as [->|Hne].
    + rewrite lookup_insert_eq. simpl. lia.
    + rewrite lookup_insert_ne by done. apply Hp.
  - intros p r _ _ [H0 Hp]. split.
    + unfold Pool.sockets_add. by case_bool_decide.
    + intros r'. rewrite deref_sockets_add.
      unfold Pool.sockets_add. case_bool_decide; apply Hp.
Qed.

Lemma run_generation_bounded
    (E0 : Env) (pair : Address) (options : PoolOptions) (history : list (Env * PoolOp)) :
  generation_bounded (run history (Pool.__init__ E0 pair options)).
Proof.
  apply (run_preserves generation_bounded generation_bounded_invariant).
  split; [done|]. intros r. unfold Pool.deref. simpl. by rewrite lookup_empty.
Qed.

(** X9.  After every history of calls on a pool the idle set holds at
    most [max_pool_size] sockets (none when that bound is negative); a
    pool without [max_pool_size] has no bound. *)
Theorem X9_idle_set_within_max_pool_size
    (E0 : Env) (pair : Address) (options : PoolOptions) (history : list (Env * PoolOp)) :
  idle_bounded (run history (Pool.__init__ E0 pair options)).
Proof.
  apply (run_preserves idle_bounded idle_bounded_invariant).
  unfold idle_bounded, Pool.__init__. cbn [Pool.opts Pool.sockets].
  destruct (max_pool_size options); [|done]. rewrite size_empty. lia.
Qed.

(** X10.  After every history in which the calling thread did not die,
    [in_request], which reads the request counter, answers [True] exactly
    when [_get_request_state], which reads the request table, is not
    [NO_REQUEST]; it changes nothing. *)
Theorem X10_in_request_iff_request_state
    (E0 : Env) (pair : Address) (options : PoolOptions) (history : list (Env * PoolOp))
    (E : Env) :
  Forall (λ eo, snd eo ≠ OpThreadDied (ident_get E)) history →
  let p := run history (Pool.__init__ E0 pair options) in
  Pool.in_request E p
  = (Ok (bool_decide (Pool._tid_to_sock p !! ident_get E ≠ None)), p).
Proof.
  intros Hlive p.
  destruct (run_request_consistent E0 pair options (ident_get E) history Hlive)
    as (Hnn & Hzero & Hpos).
  fold p in Hnn, Hzero, Hpos.
  unfold Pool.in_request, bind, get, ret. simpl. f_equal. f_equal.
  destruct (Z.eqb_spec (Pool.Counter_get (ident_get E) p) 0) as [H0|Hne]; simpl.
  - destruct (Hzero H0) as [Hnone _]. rewrite bool_decide_eq_false_2; [done|].
    intros Hn. by apply Hn.
  - destruct Hpos as (st & Hst & _); [lia|]. rewrite bool_decide_eq_true_2; [done|].
    by rewrite Hst.
Qed.

(** Two nested requests, one ended. *)
Lemma X10_in_request_iff_request_state_witness :
  let p := run [(env1, OpStartRequest); (env1, OpStartRequest); (env1, OpEndRequest)] pool0 in
  Pool.in_request env1 p = (Ok true, p).
Proof.
  intros p. etrans.
  - apply (X10_in_request_iff_request_state env1 ("localhost", 27017) PoolOptions_default
             [(env1, OpStartRequest); (env1, OpStartRequest); (env1, OpEndRequest)] env1).
    repeat constructor; discriminate.
  - vm_compute. reflexivity.
Defined.

Lemma get_socket_after_fork (E : Env) (force : bool) (p p' : Pool.t) (r : Ref) :
  generation_bounded p →
  Pool.pid p ≠ os_getpid E →
  Pool.get_socket E force p = (Ok r, p') →
  r = Pool.next_ref p
  ∧ Pool.pool_id p' = Pool.pool_id p + 1
  ∧ Pool.sockets p' = ∅
  ∧ SocketInfo.pool_id (Pool.deref p' r) = Pool.pool_id p + 1.
Proof.
  intros [_ Hgen] Hpid Hget.
  pose proof (get_socket_usable E force p p' r Hget) as (_ & Hid & _ & _).
  revert Hget. rewrite get_socket_unfold. cbv zeta.
  assert (Hp0 : after_fork_check E p = snd (Pool.reset E p)).
  { unfold after_fork_check. by rewrite (proj2 (Z.eqb_neq _ _) Hpid). }
  rewrite Hp0. clear Hp0.
  destruct (reset_post E p)
    as (_ & Hs0 & Hid0 & _ & Hin & Hout & _ & _ & _ & Hnext0 & _).
  cbv zeta in Hs0, Hid0, Hin, Hout, Hnext0.
  set (p0 := snd (Pool.reset E p)) in *.
  assert (Hstale : ∀ r0, SocketInfo.pool_id (Pool.deref p0 r0) ≠ Pool.pool_id p0).
  { intros r0. rewrite Hid0. specialize (Hgen r0).
    destruct (decide (r0 ∈ Pool.sockets p)) as [Hr|Hr].
    - rewrite (Hin r0 Hr). simpl. lia.
    - unfold Pool.deref in *. rewrite (Hout r0 Hr). lia. }
  assert (Hfrom : ∀ st, Pool.get_socket_from_pool E force st p0 = (Ok r, p') →
                        r = Pool.next_ref p ∧ Pool.pool_id p' = Pool.pool_id p + 1
                        ∧ Pool.sockets p' = ∅).
  { intros st (ok & s1 & _ & _ & -> & ->)%get_socket_from_empty_pool; [|done].
    split; [done|]. cbv zeta. destruct (bool_decide (st = NO_SOCKET_YET)).
    - destruct (set_request_state_frame E (ReqSock (Pool.next_ref p0))
                  (Pool.update (Pool.next_ref p0) (SocketInfo.set_forced (negb ok))
                     (Pool.set_next_ref (Pos.succ (Pool.next_ref p0))
                        (Pool.set_objs
                           (<[Pool.next_ref p0:=SocketInfo.__init__ (Pool.next_ref p0)
                                 (Pool.pool_id p0) (Pool.pair p0).1 (time_time E)]>
                              (Pool.objs p0)) (Pool.set_socket_semaphore s1 p0)))))
        as (Hs & Hi & _).
      cbv zeta in Hs, Hi. split.
      + change (Pool.pool_id (Pool.update _ _ ?q)) with (Pool.pool_id q). by rewrite Hi.
      + change (Pool.sockets (Pool.update _ _ ?q)) with (Pool.sockets q). by rewrite Hs.
    - done. }
  assert (Hgoal : r = Pool.next_ref p ∧ Pool.pool_id p' = Pool.pool_id p + 1
                  ∧ Pool.sockets p' = ∅ →
                  r = Pool.next_ref p ∧ Pool.pool_id p' = Pool.pool_id p + 1
                  ∧ Pool.sockets p' = ∅
                  ∧ SocketInfo.pool_id (Pool.deref p' r) = Pool.pool_id p + 1).
  { intros (H1 & H2 & H3). by rewrite Hid. }
  destruct (default NO_REQUEST (Pool._tid_to_sock p0 !! ident_get E)) as [| |r0];
    [intros H; by apply Hgoal, (Hfrom NO_REQUEST)
    |intros H; by apply Hgoal, (Hfrom NO_SOCKET_YET)|].
  intros (checked & q1 & Hcheck & Hrest)%bind_Ok. apply Hgoal.
  apply bind_Ok in Hrest as (q2 & q2' & Hg & Hrest).
  unfold get in Hg. injection Hg as <- <-.
  apply bind_Ok in Hrest as ([] & q3 & Hbind & Hrest).
  apply bind_Ok in Hrest as ([] & q4 & Hupd & Hret).
  unfold modify in Hupd. unfold ret in Hret. simpl in Hupd, Hret.
  injection Hupd as <-. injection Hret as <- <-.
  apply check_Ok in Hcheck as [(_ & _ & _ & Hbad) | (p1 & Hconn & Hp1 & _)];
    [by destruct (Hstale r0)|].
  apply connect_Ok in Hconn as [-> ->].
  assert (Hq3 : Pool.pool_id q3 = Pool.pool_id p0 ∧ Pool.sockets q3 = ∅).
  { revert Hbind. unfold when. destruct (Pool.sock_ne _ _ _).
    - intros Hset.
      pose proof (set_request_state_frame E (ReqSock (Pool.next_ref p1))
        (Pool.set_next_ref (Pos.succ (Pool.next_ref p1))
           (Pool.set_objs
              (<[Pool.next_ref p1:=SocketInfo.__init__ (Pool.next_ref p1)
                    (Pool.pool_id p1) (Pool.pair p1).1 (time_time E)]> (Pool.objs p1)) p1)))
        as (Hs & Hi & _).
      rewrite Hset in Hs, Hi. cbv zeta in Hs, Hi. simpl in Hs, Hi.
      rewrite Hs, Hi. by destruct Hp1 as [-> | ->].
    - unfold ret. intros [= <-]. simpl. by destruct Hp1 as [-> | ->]. }
  destruct Hq3 as [Hi Hs]. simpl. rewrite Hi, Hs.
  split; [by destruct Hp1 as [-> | ->] | done].
Qed.

(** X11.  Whatever happened to a pool before, the first checkout in
    another process (after a fork) resets the pool and, if it returns,
    returns a socket connected during this very call, of the new
    generation; the idle set it inherited is gone. *)
Theorem X11_get_socket_after_fork_connects
    (E0 : Env) (pair : Address) (options : PoolOptions) (history : list (Env * PoolOp))
    (E : Env) (force : bool) (p' : Pool.t) (r : Ref) :
  let p := run history (Pool.__init__ E0 pair options) in
  Pool.pid p ≠ os_getpid E →
  Pool.get_socket E force p = (Ok r, p') →
  r = Pool.next_ref p
  ∧ Pool.pool_id p' = Pool.pool_id p + 1
  ∧ Pool.sockets p' = ∅
  ∧ SocketInfo.pool_id (Pool.deref p' r) = Pool.pool_id p + 1.
Proof.
  intros p. apply get_socket_after_fork. apply run_generation_bounded.
Qed.

(** A socket is checked out and returned in the parent; the child gets a
    new one. *)
Lemma X11_get_socket_after_fork_connects_witness :
  let p := run [(env1, OpGetSocket false); (env1, OpMaybeReturnSocket (ReqSock 1%positive))]
               pool0 in
  let p' := snd (Pool.get_socket env_child false p) in
  Pool.sockets p = {[1%positive]}
  ∧ Pool.sockets p' = ∅
  ∧ SocketInfo.pool_id (Pool.deref p' 2%positive) = 1.
Proof.
  intros p p'.
  destruct (X11_get_socket_after_fork_connects env1 ("localhost", 27017) PoolOptions_default
              [(env1, OpGetSocket false); (env1, OpMaybeReturnSocket (ReqSock 1%positive))]
              env_child false p' 2%positive) as (_ & _ & Hs & Hid).
  - vm_compute. discriminate.
  - vm_compute. reflexivity.
  - split; [by vm_compute|]. split; [exact Hs | exact Hid].
Defined.

(* ===================================================================== *)
(** ** Proofs: node strings *)
(* ===================================================================== *)

Lemma rfind_from_app (c : ascii) (s1 s2 : string) :
  (∀ i, rfind_from c s2 i = None) →
  ∀ i, rfind_from c (s1 ++ String c s2) i = Some (i + String.length s1)%nat.
Proof.
  intros Hs2. induction s1 as [|a s1 IH]; intros i; simpl.
  - rewrite Hs2, Ascii.eqb_refl. f_equal. lia.
  - rewrite IH. f_equal. lia.
Qed.

Lemma rfind_from_None (c : ascii) (s : string) (i j : nat) :
  rfind_from c s i = None → rfind_from c s j = None.
Proof.
  revert i j. induction s as [|a s IH]; intros i j; simpl; [done|].
  destruct (rfind_from c s (S i)) eqn:Hi; [done|].
  rewrite (IH (S i) (S j) Hi). by destruct (Ascii.eqb c a).
Qed.

Lemma rfind_from_app_None (c : ascii) (s t : string) (i : nat) :
  rfind_from c s 0 = None → rfind_from c t 0 = None → rfind_from c (s ++ t) i = None.
Proof.
  intros Hs Ht. revert i Hs. induction s as [|a s IH]; intros i Hs.
  - by apply (rfind_from_None c t 0).
  - change (rfind_from c (String a (s ++ t)) i = None). simpl in *.
    destruct (rfind_from c s 1) eqn:H1; [done|].
    rewrite IH; [|by apply (rfind_from_None c s 1)].
    by destruct (Ascii.eqb c a).
Qed.

Lemma substring_0_app (s t : string) :
  String.substring 0 (String.length s) (s ++ t) = s.
Proof. induction s as [|a s IH]; simpl; [by destruct t | by rewrite IH]. Qed.

Lemma substring_0_length (s : string) : String.substring 0 (String.length s) s = s.
Proof. induction s as [|a s IH]; simpl; [done | by rewrite IH]. Qed.

Lemma substring_after_sep (s t : string) (c : ascii) (n : nat) :
  String.substring (S (String.length s)) n (s ++ String c t) = String.substring 0 n t.
Proof. induction s as [|a s IH]; simpl; [done | exact IH]. Qed.

Lemma string_app_assoc (s t u : string) : (s ++ t) ++ u = s ++ t ++ u.
Proof.
  induction s as [|a s IH]; [done|].
  change (String a ((s ++ t) ++ u) = String a (s ++ t ++ u)). by rewrite IH.
Qed.

Lemma length_app (s t : string) :
  String.length (s ++ t) = (String.length s + String.length t)%nat.
Proof. induction s as [|a s IH]; simpl; [done | by rewrite IH]. Qed.

(** Decimal numerals have digits only. *)
Lemma rfind_uint_digits (d : Decimal.uint) :
  ∀ i, rfind_from ":"%char (NilEmpty.string_of_uint d) i = None.
Proof. induction d; intros i; simpl; try done; by rewrite IHd. Qed.

Lemma rfind_str_Z (z : Z) : ∀ i, rfind_from ":"%char (str_Z z) i = None.
Proof.
  intros i. unfold str_Z, NilZero.string_of_int, NilZero.string_of_uint.
  destruct (Z.to_int z) as [d|d]; destruct d; simpl; try done;
    by rewrite rfind_uint_digits.
Qed.

(** [int] reads back what ['%d'] wrote. *)
Lemma py_int_str_Z (z : Z) : py_int (str_Z z) = Some z.
Proof.
  assert (Hint : NilZero.int_of_string (str_Z z) = Some (Z.to_int z)).
  { unfold str_Z. apply NilZero.isi.
    - destruct z; simpl; try done. intros [= H]. by apply DecimalPos.Unsigned.to_uint_nonnil in H.
    - destruct z; simpl; try done. intros [= H]. by apply DecimalPos.Unsigned.to_uint_nonnil in H. }
  assert (Hpy : py_int (str_Z z) = option_map Z.of_int (NilZero.int_of_string (str_Z z))).
  { unfold py_int, str_Z, NilZero.string_of_int, NilZero.string_of_uint.
    destruct (Z.to_int z) as [d|d]; destruct d; simpl; done. }
  rewrite Hpy, Hint. simpl. by rewrite DecimalZ.of_to.
Qed.

Lemma py_int_cases (s : string) :
  py_int s = None
  ∨ py_int s = option_map Z.of_int (NilZero.int_of_string s)
  ∨ ∃ a rest, s = String a rest ∧ py_int s = option_map Z.of_int (NilZero.int_of_string rest).
Proof.
  destruct s as [|a s]; [by right; left|].
  destruct (Ascii.eqb_spec a "+"%char) as [->|Hne].
  - destruct s as [|b s]; [right; right; by eexists _, _|].
    destruct b as [[] [] [] [] [] [] [] []]; simpl; auto; right; right; by eexists _, _.
  - right. left. destruct a as [[] [] [] [] [] [] [] []]; done.
Qed.

Lemma uint_of_string_bracket (s : string) : NilEmpty.uint_of_string (s ++ "]") = None.
Proof.
  induction s as [|a s IH]; [done|].
  change (uint_of_char a (NilEmpty.uint_of_string (s ++ "]")) = None). by rewrite IH.
Qed.

Lemma int_of_string_bracket (s : string) : NilZero.int_of_string (s ++ "]") = None.
Proof.
  destruct s as [|a s]; [done|].
  change (NilZero.int_of_string (String a (s ++ "]")) = None).
  unfold NilZero.int_of_string. destruct (Ascii.eqb a "-").
  - unfold NilZero.uint_of_string. destruct s as [|b s]; [done|].
    change (String b s ++ "]") with (String b (s ++ "]")).
    change (NilEmpty.uint_of_string (String b (s ++ "]")))
      with (NilEmpty.uint_of_string (String b s ++ "]")).
    by rewrite uint_of_string_bracket.
  - unfold NilZero.uint_of_string.
    change (NilEmpty.uint_of_string (String a (s ++ "]")))
      with (NilEmpty.uint_of_string (String a s ++ "]")).
    by rewrite uint_of_string_bracket.
Qed.

(** No numeral ends in a bracket. *)
Lemma py_int_bracket (s : string) : py_int (s ++ "]") = None.
Proof.
  destruct (py_int_cases (s ++ "]")) as [H | [H | (a & rest & Heq & H)]]; [done | |].
  - by rewrite H, int_of_string_bracket.
  - rewrite H. destruct s as [|b s].
    + injection Heq as <- <-. done.
    + injection Heq as <- <-. by rewrite int_of_string_bracket.
Qed.

(** X12.  [_partition_node] inverts the ['%s:%d'] formatting of an
    address, for every host and every port, dropping the brackets of an
    IPv6 literal; a node without a colon gets port 27017.  A bracketed
    literal without a port is split at its last colon, and the rest is no
    number: [ValueError]. *)
Theorem X12_partition_node_inverts_formatting :
  (∀ host port, String.prefix "[" host = false →
     _partition_node (host ++ ":" ++ str_Z port) = inr (host, port))
  ∧ (∀ h port, _partition_node ("[" ++ h ++ "]:" ++ str_Z port) = inr (h, port))
  ∧ (∀ host, rfind ":"%char host = None → String.prefix "[" host = false →
     _partition_node host = inr (host, 27017))
  ∧ (∀ h1 h2, rfind ":"%char h2 = None →
     _partition_node ("[" ++ h1 ++ ":" ++ h2 ++ "]") = inl ValueError).
Proof.
  assert (Hsplit : ∀ host port,
    _partition_node (host ++ ":" ++ str_Z port)
    = inr (if String.prefix "[" host then strip_ends host else host, port)).
  { intros host port. unfold _partition_node, rfind.
    change (host ++ ":" ++ str_Z port) with (host ++ String ":" (str_Z port)).
    rewrite (rfind_from_app ":"%char host (str_Z port) (rfind_str_Z port) 0). simpl.
    rewrite length_app. simpl.
    replace (String.length host + S (String.length (str_Z port)) - S (String.length host))%nat
      with (String.length (str_Z port)) by lia.
    rewrite substring_after_sep, substring_0_length, py_int_str_Z.
    by rewrite substring_0_app. }
  split; [|split; [|split]].
  - intros host port Hpre. by rewrite Hsplit, Hpre.
  - intros h port.
    assert (Heq : "[" ++ h ++ "]:" ++ str_Z port = ("[" ++ h ++ "]") ++ ":" ++ str_Z port).
    { change ("[" ++ h ++ "]:" ++ str_Z port)
        with (String "[" (h ++ "]" ++ ":" ++ str_Z port)).
      change (("[" ++ h ++ "]") ++ ":" ++ str_Z port)
        with (String "[" ((h ++ "]") ++ ":" ++ str_Z port)).
      by rewrite string_app_assoc. }
    rewrite Heq, Hsplit.
    change ("[" ++ h ++ "]") with (String "[" (h ++ "]")).
    assert (Hp : String.prefix "[" (String "[" (h ++ "]")) = true)
      by (simpl; by destruct (h ++ "]")).
    rewrite Hp. f_equal. f_equal. unfold strip_ends.
    change (String.length (String "[" (h ++ "]"))) with (S (String.length (h ++ "]"))).
    rewrite length_app. change (String.length "]") with 1%nat.
    replace (S (String.length h + 1) - 2)%nat with (String.length h) by lia.
    change (String.substring 1 (String.length h) (String "[" (h ++ "]")))
      with (String.substring 0 (String.length h) (h ++ "]")).
    apply substring_0_app.
  - intros host Hnone Hpre. unfold _partition_node. by rewrite Hnone, Hpre.
  - intros h1 h2 Hh2. unfold _partition_node, rfind.
    assert (Heq : "[" ++ h1 ++ ":" ++ h2 ++ "]" = ("[" ++ h1) ++ String ":" (h2 ++ "]")).
    { change ("[" ++ h1 ++ ":" ++ h2 ++ "]")
        with (String "[" (h1 ++ String ":" (h2 ++ "]"))).
      done. }
    rewrite Heq. set (pre := "[" ++ h1).
    rewrite (rfind_from_app ":"%char pre (h2 ++ "]")).
    2:{ intros i. by apply rfind_from_app_None. }
    cbn [Nat.add]. rewrite (length_app pre).
    change (String.length (String ":" (h2 ++ "]"))) with (S (String.length (h2 ++ "]"))).
    replace (String.length pre + S (String.length (h2 ++ "]")) - S (String.length pre))%nat
      with (String.length (h2 ++ "]")) by lia.
    rewrite substring_after_sep, substring_0_length.
    by rewrite py_int_bracket.
Qed.

Lemma X12_partition_node_inverts_formatting_witness :
  _partition_node "db1.example.com:27018" = inr ("db1.example.com", 27018)
  ∧ _partition_node "[::1]:27017" = inr ("::1", 27017)
  ∧ _partition_node "localhost" = inr ("localhost", 27017)
  ∧ _partition_node "[::1]" = inl ValueError.
Proof.
  destruct X12_partition_node_inverts_formatting as (H1 & H2 & H3 & H4).
  split; [|split; [|split]].
  - apply (H1 "db1.example.com" 27018). reflexivity.
  - apply (H2 "::1" 27017).
  - apply (H3 "localhost"); reflexivity.
  - apply (H4 ":" "1"). reflexivity.
Defined.

(* ===================================================================== *)
(** ** Proofs: servers that cannot be reached *)
(* ===================================================================== *)

(** The first checkout from a new pool whose server refuses. *)
Lemma get_socket_new_pool_refused (E : Env) (pair : Address) (options : PoolOptions) (e : Exn) :
  has_room options → connect_fails E pair = Some e →
  ∃ p', Pool.get_socket E false (Pool.__init__ E pair options) = (Raise e, p').
Proof.
  intros Hroom Hfail. rewrite get_socket_unfold. cbv zeta.
  rewrite after_fork_check_same by done.
  change (Pool._tid_to_sock (Pool.__init__ E pair options) !! ident_get E)
    with ((∅ : gmap Tid ReqState) !! ident_get E).
  rewrite lookup_empty. simpl.
  unfold Pool.get_socket_from_pool. rewrite (bind_eq_Ok get _ _ _ _ eq_refl).
  set (p := Pool.__init__ E pair options).
  destruct (Semaphore.acquire_nonblocking (Pool._socket_semaphore p)) as [ok s1] eqn:Hsem.
  assert (Hok : ok = true).
  { revert Hsem. unfold Semaphore.acquire_nonblocking. subst p. simpl.
    unfold has_room in Hroom. destruct (max_pool_size options) as [n|]; [|by intros [= <-]].
    rewrite (proj2 (Z.ltb_lt 0 n) Hroom). by intros [= <-]. }
  subst ok.
  assert (Hacq : (ok0 <- Pool.semaphore_acquire_blocking (wait_queue_timeout (Pool.opts p)) ;;
                  if ok0 then ret false else Pool._raise_wait_queue_timeout) p
                 = (Ok false, Pool.set_socket_semaphore s1 p)).
  { unfold bind, Pool.semaphore_acquire_blocking, ret. by rewrite Hsem. }
  rewrite (bind_eq_Ok _ _ _ _ _ Hacq).
  unfold bind at 1. unfold try_except.
  unfold bind at 1. unfold Pool.sockets_pop at 1.
  change (elements (Pool.sockets (Pool.set_socket_semaphore s1 p))) with (elements (∅ : gset Ref)).
  rewrite elements_empty. unfold bind at 1. unfold Pool.connect at 1.
  change (Pool.pair (Pool.set_socket_semaphore s1 p)) with pair. rewrite Hfail.
  simpl. eexists. reflexivity.
Qed.

Lemma on_pool_eq {A} (pr : positive) (m : M Pool.t A) (c : MongoClient.t) (p p' : Pool.t)
    (r : Outcome A) :
  MongoClient.pools c !! pr = Some p → m p = (r, p') →
  MongoClient.on_pool pr m c
  = (r, MongoClient.set_pools (<[pr := p']> (MongoClient.pools c)) c).
Proof. intros Hp Hm. unfold MongoClient.on_pool. by rewrite Hp, Hm. Qed.

(** Probing a node whose server refuses the connection. *)
Lemma try_node_refused (N : Net) (depth : nat) (node : Address) (c : MongoClient.t) (e : Exn) :
  has_room (MongoClient.__pool_opts c) → connect_fails (os N) node = Some e →
  ∃ c', MongoClient.__try_node N (S depth) node c = (Raise e, c')
        ∧ same_attrs c c' ∧ MongoClient.wire c' = MongoClient.wire c.
Proof.
  intros Hroom Hfail.
  destruct (get_socket_new_pool_refused (os N) node (MongoClient.__pool_opts c) e Hroom Hfail)
    as [p' Hget].
  cbn [MongoClient.__try_node].
  unfold bind at 1. unfold MongoClient.__create_pool at 1.
  unfold bind at 1.
  erewrite on_pool_eq; [| |exact Hget].
  2:{ simpl. by rewrite lookup_insert_eq. }
  eexists. split; [reflexivity|]. split; [by repeat split | done].
Qed.

Lemma find_node_loop_refused (N : Net) (candidates : list Address) :
  ∀ (errors : list string) (c : MongoClient.t),
    (0 < sys_getrecursionlimit N)%nat →
    has_room (MongoClient.__pool_opts c) →
    Forall (unreachable N) candidates →
    ∃ c', MongoClient.find_node_loop N candidates errors [] c
          = (Ok (None, (errors ++ map (connect_error N) candidates)%list, []), c')
          ∧ same_attrs c c' ∧ MongoClient.wire c' = MongoClient.wire c.
Proof.
  induction candidates as [|a l IH]; intros errors c Hdepth Hroom Hall.
  - exists c. simpl. rewrite app_nil_r. split; [done|]. split; [apply same_attrs_refl | done].
  - apply Forall_cons in Hall as [(e & Hfail & Hfatal) Hall].
    destruct (sys_getrecursionlimit N) as [|depth] eqn:Hlimit; [lia|].
    destruct (try_node_refused N depth a c e Hroom Hfail) as (c1 & Htry & Hattrs & Hwire).
    assert (Hstep : MongoClient.find_node_loop N (a :: l) errors [] c
                    = MongoClient.find_node_loop N l (errors ++ [exn_str e])%list [] c1).
    { cbn [MongoClient.find_node_loop]. rewrite Hlimit, Htry.
      unfold fatal in Hfatal. by rewrite Hfatal. }
    assert (Hroom1 : has_room (MongoClient.__pool_opts c1)).
    { destruct Hattrs as (_ & _ & _ & _ & _ & Ho & _). by rewrite Ho. }
    destruct (IH (errors ++ [exn_str e])%list c1) as (c' & Hloop & Hattrs' & Hwire'); try done.
    exists c'. rewrite Hstep, Hloop. split.
    + assert (Hmsg : connect_error N a = exn_str e)
        by (unfold connect_error; by rewrite Hfail).
      simpl. by rewrite Hmsg, <- app_assoc.
    + split; [by eapply same_attrs_trans | congruence].
Qed.

(** X14.  When no candidate accepts a connection, [__ensure_member]
    raises [AutoReconnect] with the candidates' errors joined by commas, in
    the order they were tried; nothing has been sent, the client has no
    member, is not marked connecting, and keeps its nodes: it can retry. *)
Theorem X14_ensure_member_unreachable (N : Net) (c : MongoClient.t) :
  MongoClient.__member c = None → MongoClient.__connecting c = false →
  (0 < sys_getrecursionlimit N)%nat →
  has_room (MongoClient.__pool_opts c) →
  Forall (unreachable N) (MongoClient.candidates c) →
  let r := MongoClient.__ensure_member N c in
  fst r = Raise (AutoReconnect
                   (String.concat ", " (map (connect_error N) (MongoClient.candidates c))))
  ∧ MongoClient.__member (snd r) = None
  ∧ MongoClient.__connecting (snd r) = false
  ∧ MongoClient.__nodes (snd r) = MongoClient.__nodes c
  ∧ MongoClient.wire (snd r) = MongoClient.wire c.
Proof.
  intros Hmember Hconn Hdepth Hroom Hall. cbv zeta.
  unfold MongoClient.__ensure_member. rewrite Hmember, Hconn.
  destruct (find_node_loop_refused N (MongoClient.candidates c) []
              (resolving c) Hdepth Hroom Hall) as (c' & Hloop & Hattrs & Hwire).
  assert (Hfind : MongoClient.__find_node N (resolving c)
                  = (Raise (AutoReconnect
                       (String.concat ", " (map (connect_error N) (MongoClient.candidates c)))),
                     c')).
  { unfold MongoClient.__find_node. rewrite (bind_eq_Ok get _ _ _ _ eq_refl).
    change (MongoClient.__member (resolving c)) with (MongoClient.__member c). rewrite Hmember.
    change (MongoClient.candidates (resolving c)) with (MongoClient.candidates c).
    by rewrite (bind_eq_Ok _ _ _ _ _ Hloop). }
  fold (resolving c). rewrite Hfind. simpl.
  destruct Hattrs as (_ & Hn & _). split; [done|]. split; [done|]. split; [done|].
  split; [exact Hn | exact Hwire].
Qed.

(** Two seeds, both refusing. *)
Lemma X14_ensure_member_unreachable_witness :
  fst (MongoClient.__ensure_member net_down
         (seed_list_client [("a", 1); ("b", 2)]))
  = Raise (AutoReconnect "Connection refused, Connection refused").
Proof.
  apply (X14_ensure_member_unreachable net_down (seed_list_client [("a", 1); ("b", 2)])).
  - reflexivity.
  - reflexivity.
  - simpl. lia.
  - vm_compute. reflexivity.
  - repeat (apply Forall_cons; split; [eexists; split; reflexivity|]). constructor.
Defined.
